(** * Monte-Carlo tree search for tic-tac-toe

    A shallow embedding of [TicTacToe_MonteCarlo.py] and the verification of
    its search engine: the terminal-state oracle, the search tree with its
    parent references, selection by UCB1, expansion, random rollout,
    back-propagation and the final choice of a move; and of the game around
    it: the class [TicTacToe] and a round of the main loop.

    Modelling decisions, used throughout:
    - a board is the nested list of the source; a cell is the string ["X"]
      or a player number (a Python [int], here [Z]);
    - Python objects that are shared and mutated live in a store: [Node]
      objects in an arena addressed by their allocation index, board objects
      in a heap of boards.  A board object is one heap cell: the rows of a
      board are never shared between two boards ([deepcopy] allocates fresh
      rows, and the game builds its board from three fresh rows);
    - exceptions and the bound on unbounded loops are results of their own;
    - [wins] takes the values 0, 0.5, 1, 1.5, ... and is kept as an exact
      rational; the UCB1 score is a binary64 float, computed and compared
      with the operations of IEEE 754, as Python's [/], [*], [+], [>] and
      [math.sqrt] are; [math.log2] is the function of the C library, whose
      values the model leaves open;
    - [randint(0, 2)] reads the next value of a stream of draws. *)

From Stdlib Require Import ZArith QArith Lia Floats.
From Stdlib Require Lqa.
From stdpp Require Import base list option sorting.

Set Default Proof Using "Type".

(** ** Cells and boards *)

Inductive cell : Type :=
  | X                (* the string "X": an empty cell *)
  | Mark (p : Z).    (* the number of the player who moved there *)

#[global] Instance cell_eq_dec : EqDecision cell.
Proof. solve_decision. Defined.

Abbreviation board := (list (list cell)).

(** ** Results: a value, a Python exception, or the loop bound reached *)

Inductive exn : Type :=
  | IndexError
  | ZeroDivisionError
  | ValueError
  | AttributeError
  | EOFError
  | DanglingRef.     (* a reference outside the store: no Python counterpart *)

Inductive result (A : Type) : Type :=
  | Ok (a : A)
  | Raise (e : exn)
  | OutOfFuel.
Arguments Ok {A} a.
Arguments Raise {A} e.
Arguments OutOfFuel {A}.

Definition rbind {A B : Type} (r : result A) (f : A → result B) : result B :=
  match r with
  | Ok a => f a
  | Raise e => Raise e
  | OutOfFuel => OutOfFuel
  end.

Notation "x <~ c ; k" := (rbind c (λ x, k))
  (at level 20, c at level 100, k at level 200, only parsing).

(** ** The terminal-state oracle *)

(** [game_board[i][j]] *)
Definition getitem2 (b : board) (i j : nat) : result cell :=
  match b !! i with
  | None => Raise IndexError
  | Some r => match r !! j with
              | None => Raise IndexError
              | Some c => Ok c
              end
  end.

(** [c == player], for a cell that holds ["X"] or an [int] *)
Definition cell_is (c : cell) (p : Z) : bool :=
  match c with
  | X => false
  | Mark q => (q =? p)%Z
  end.

(** [b[c1] == p and b[c2] == p and b[c3] == p], with Python's short-circuit:
    a later cell is read only when the earlier ones matched. *)
Definition all3 (b : board) (p : Z) (c1 c2 c3 : nat * nat) : result bool :=
  x1 <~ getitem2 b c1.1 c1.2 ;
  if cell_is x1 p then
    x2 <~ getitem2 b c2.1 c2.2 ;
    if cell_is x2 p then
      x3 <~ getitem2 b c3.1 c3.2 ;
      Ok (cell_is x3 p)
    else Ok false
  else Ok false.

(** The [for i in range(3)] loop of [check_for_win]; [Ok true] stands for the
    [return] inside the loop, [Ok false] for the loop running to its end. *)
Fixpoint win_loop (b : board) (p : Z) (range : list nat) : result bool :=
  match range with
  | [] => Ok false
  | i :: rest =>
      r <~ all3 b p (i, 0) (i, 1) (i, 2) ;
      if r then Ok true else
      c <~ all3 b p (0, i) (1, i) (2, i) ;
      if c then Ok true else win_loop b p rest
  end.

Definition check_for_win (b : board) (p : Z) : result bool :=
  l <~ win_loop b p (seq 0 3) ;
  if l then Ok true else
  d <~ all3 b p (0, 0) (1, 1) (2, 2) ;
  if d then Ok true else
  e <~ all3 b p (0, 2) (1, 1) (2, 0) ;
  if e then Ok true else Ok false.

Definition is_X (c : cell) : bool := bool_decide (c = X).

Definition check_for_draw (b : board) : bool :=
  let l := concat b in
  if existsb is_X l then false else true.

(** ** Extracting the move: [find_comp_move] *)

(** The inner [for y, col in enumerate(row)]: [None] when the row ends
    without a [return]. *)
Fixpoint find_in_row (x y : nat) (row : list cell) (comp_move_state : board)
  : result (option (Z * Z)) :=
  match row with
  | [] => Ok None
  | c :: rest =>
      c' <~ getitem2 comp_move_state x y ;
      if decide (c = c') then find_in_row x (S y) rest comp_move_state
      else Ok (Some (Z.of_nat x, Z.of_nat y))
  end.

Fixpoint find_in_rows (x : nat) (rows : board) (comp_move_state : board)
  : result (Z * Z) :=
  match rows with
  | [] => Ok (-1, -1)%Z
  | row :: rest =>
      r <~ find_in_row x 0 row comp_move_state ;
      match r with
      | Some xy => Ok xy
      | None => find_in_rows (S x) rest comp_move_state
      end
  end.

Definition find_comp_move (game_state comp_move_state : board) : result (Z * Z) :=
  find_in_rows 0 game_state comp_move_state.

(** ** Nodes and the store *)

Record Node : Type := mkNode {
  wins : Q;
  visits : nat;
  children : list nat;        (* references to nodes *)
  parent : option nat;        (* a reference to a node, or None *)
  game_state : nat;           (* a reference to a board *)
  player : Z;
  is_end_state : bool
}.

Record Store : Type := mkStore {
  nodes : list Node;                  (* the arena of Node objects *)
  boards : list board;                (* the heap of board objects *)
  cursor : nat;                       (* how many draws randint has made *)
  ucb_log : list (nat * nat)          (* ghost: the (child visits, parent
                                         visits) of every UCB1 evaluation *)
}.

Definition with_nodes (f : list Node → list Node) (s : Store) : Store :=
  mkStore (f (nodes s)) (boards s) (cursor s) (ucb_log s).
Definition with_boards (f : list board → list board) (s : Store) : Store :=
  mkStore (nodes s) (f (boards s)) (cursor s) (ucb_log s).

(** ** The monad of the engine: state and exceptions *)

Definition M (A : Type) : Type := Store → result (A * Store).

Definition ret {A : Type} (a : A) : M A := λ s, Ok (a, s).

Definition bind {A B : Type} (m : M A) (f : A → M B) : M B :=
  λ s, match m s with
       | Ok (a, s') => f a s'
       | Raise e => Raise e
       | OutOfFuel => OutOfFuel
       end.

Definition raise {A : Type} (e : exn) : M A := λ _, Raise e.
Definition out_of_fuel {A : Type} : M A := λ _, OutOfFuel.

Definition lift {A : Type} (r : result A) : M A :=
  λ s, match r with
       | Ok a => Ok (a, s)
       | Raise e => Raise e
       | OutOfFuel => OutOfFuel
       end.

Notation "x <- c ; k" := (bind c (λ x, k))
  (at level 20, c at level 100, k at level 200, only parsing).
Notation "c ;; k" := (bind c (λ _, k))
  (at level 100, k at level 200, only parsing, right associativity).

(** *** Primitive operations on the store *)

Definition get_node (i : nat) : M Node :=
  λ s, match nodes s !! i with
       | Some n => Ok (n, s)
       | None => Raise DanglingRef
       end.

(** An attribute assignment [node.f = v]. *)
Definition upd_node (i : nat) (f : Node → Node) : M unit :=
  λ s, match nodes s !! i with
       | Some n => Ok (tt, with_nodes <[i := f n]> s)
       | None => Raise DanglingRef
       end.

Definition get_board (r : nat) : M board :=
  λ s, match boards s !! r with
       | Some b => Ok (b, s)
       | None => Raise DanglingRef
       end.

(** [copy.deepcopy] of a board: a new board object with the same cells. *)
Definition deepcopy (r : nat) : M nat :=
  λ s, match boards s !! r with
       | Some b => Ok (length (boards s), with_boards (λ h, h ++ [b]) s)
       | None => Raise DanglingRef
       end.

(** [game[x][y]] on the heap *)
Definition getitem (r x y : nat) : M cell :=
  b <- get_board r ; lift (getitem2 b x y).

Definition set_cell (b : board) (x y : nat) (v : cell) : board :=
  match b !! x with
  | Some row => <[x := <[y := v]> row]> b
  | None => b
  end.

(** [game[x][y] = v] on the heap *)
Definition setitem (r x y : nat) (v : cell) : M unit :=
  λ s, match boards s !! r with
       | None => Raise DanglingRef
       | Some b =>
           match getitem2 b x y with
           | Ok _ => Ok (tt, with_boards <[r := set_cell b x y v]> s)
           | Raise e => Raise e
           | OutOfFuel => OutOfFuel
           end
       end.

(** [Node(game, player, parent)]: [__init__] on a fresh object. *)
Definition new_node (game : nat) (pl : Z) (par : option nat) : M nat :=
  λ s, Ok (length (nodes s),
           with_nodes (λ l, l ++ [mkNode 0 0 [] par game pl false]) s).

Definition log_ucb (entry : nat * nat) : M unit :=
  λ s, Ok (tt, mkStore (nodes s) (boards s) (cursor s) (ucb_log s ++ [entry])).

(** [for a in l: body(a)] *)
Fixpoint for_each {A : Type} (l : list A) (body : A → M unit) : M unit :=
  match l with
  | [] => ret tt
  | a :: rest => body a ;; for_each rest body
  end.

Definition enumerate {A : Type} (l : list A) : list (nat * A) :=
  imap (λ i a, (i, a)) l.

(** [node.children[i]] *)
Definition child_at (node i : nat) : M nat :=
  n <- get_node node ;
  match children n !! i with
  | Some c => ret c
  | None => raise IndexError
  end.

(** Attribute assignments *)
Definition set_end_state (v : bool) (n : Node) : Node :=
  mkNode (wins n) (visits n) (children n) (parent n) (game_state n) (player n) v.
Definition append_child (c : nat) (n : Node) : Node :=
  mkNode (wins n) (visits n) (children n ++ [c]) (parent n) (game_state n)
         (player n) (is_end_state n).
Definition add_wins (q : Q) (n : Node) : Node :=
  mkNode (wins n + q) (visits n) (children n) (parent n) (game_state n)
         (player n) (is_end_state n).
Definition add_visit (n : Node) : Node :=
  mkNode (wins n) (visits n + 1) (children n) (parent n) (game_state n)
         (player n) (is_end_state n).

(** ** The UCB1 score *)

Section Platform.

(** [math.log2]: the function of the C library on binary64 floats.  Its
    values are the platform's; nothing is assumed of them. *)
Variable math_log2 : float → float.

(** An [int] that counts visits, as the float the arithmetic converts it
    to: exact below 2^53, far above what a run of the search can count. *)
Definition float_of_count (n : nat) : float :=
  of_uint63 (Uint63.of_Z (Z.of_nat n)).

(** The number [wins] as a float.  In the source it is the [int] 0, 1, 2,
    ... until a draw adds 0.5 and makes it a [float]; either way its value
    is a multiple of 0.5, which a float holds exactly. *)
Definition float_of_wins (q : Q) : float :=
  let r := Qred q in
  let a := (of_uint63 (Uint63.of_Z (Z.abs (Qnum r)))
            / of_uint63 (Uint63.of_Z (Zpos (Qden r))))%float in
  if (Qnum r <? 0)%Z then (- a)%float else a.

(** The division raises on [num_visits == 0] and [math.log2] on
    [num_parent_visits == 0]; [child.parent.visits] raises on the root.
    [math.sqrt] raises on an argument below zero.  Its argument here is
    the logarithm of a count from 1 on, which no C library makes negative,
    divided by a count; such a quotient is not below zero, as is proved
    further down, so [math.sqrt] is the IEEE square root here. *)
Definition calculate_UCB1 (child : nat) : M float :=
  c <- get_node child ;
  let num_wins := wins c in
  let num_visits := visits c in
  let exploration_constant := 0x1.6666666666666p+0%float in
  p <- match parent c with
       | Some p => get_node p
       | None => raise AttributeError
       end ;
  let num_parent_visits := visits p in
  log_ucb (num_visits, num_parent_visits) ;;
  if num_visits =? 0 then raise ZeroDivisionError else
  let exploitation :=
    (float_of_wins num_wins / float_of_count num_visits)%float in
  if num_parent_visits =? 0 then raise ValueError else
  let exploration :=
    sqrt (math_log2 (float_of_count num_parent_visits)
          / float_of_count num_visits)%float in
  ret (exploitation + exploration_constant * exploration)%float.

(** The [for i in range(len(current.children))] loop of [max_UCB1_index]. *)
Fixpoint max_UCB1_loop (current : nat) (range : list nat)
    (index : nat) (max_UCB1 : float) : M nat :=
  match range with
  | [] => ret index
  | i :: rest =>
      c <- child_at current i ;
      UCB1 <- calculate_UCB1 c ;
      if (max_UCB1 <? UCB1)%float
      then max_UCB1_loop current rest i UCB1
      else max_UCB1_loop current rest index max_UCB1
  end.

Definition max_UCB1_index (current : nat) : M nat :=
  let index := 0 in
  c0 <- child_at current index ;
  max_UCB1 <- calculate_UCB1 c0 ;
  n <- get_node current ;
  max_UCB1_loop current (seq 0 (length (children n))) index max_UCB1.

(** ** Expansion *)

(** The body of the two nested loops of [expand], for the cell [(x, y)] of
    the copy [current_game_state]. *)
Definition expand_cell (current current_game_state x y : nat) : M unit :=
  c <- getitem current_game_state x y ;
  if is_X c then
    cur <- get_node current ;
    let player_num := if (player cur =? 2)%Z then 1%Z else 2%Z in
    game <- deepcopy current_game_state ;
    setitem game x y (Mark player_num) ;;
    child <- new_node game player_num (Some current) ;
    ch <- get_node child ;
    b <- get_board (game_state ch) ;
    (if check_for_draw b
     then upd_node child (set_end_state true) else ret tt) ;;
    ch <- get_node child ;
    b <- get_board (game_state ch) ;
    w <- lift (check_for_win b player_num) ;
    (if w then upd_node child (set_end_state true) else ret tt) ;;
    upd_node current (append_child child)
  else ret tt.

Definition expand (current : nat) : M unit :=
  cur <- get_node current ;
  current_game_state <- deepcopy (game_state cur) ;
  grid <- get_board current_game_state ;
  for_each (enumerate grid) (λ xrow,
    for_each (enumerate xrow.2) (λ yplace,
      expand_cell current current_game_state xrow.1 yplace.1)).

(** ** Back-propagation *)

(** The [while current != None] loop; [n] bounds its iterations. *)
Fixpoint back_propagate_loop (n : nat) (current : option nat)
    (rollout_result : option Z) : M unit :=
  match current with
  | None => ret tt
  | Some cur =>
      match n with
      | 0 => out_of_fuel
      | S n' =>
          if bool_decide (rollout_result = Some (-20)%Z) then
            upd_node cur (add_wins (1 # 2)) ;;
            upd_node cur add_visit ;;
            c <- get_node cur ;
            back_propagate_loop n' (parent c) rollout_result
          else
            c <- get_node cur ;
            (if bool_decide (Some (player c) = rollout_result) then
               upd_node cur (add_wins 1) ;;
               upd_node cur add_visit
             else
               upd_node cur add_visit) ;;
            c <- get_node cur ;
            back_propagate_loop n' (parent c) rollout_result
      end
  end.

(** ** The final choice *)

Fixpoint highest_visits_loop (node : nat) (range : list nat)
    (index highest_visits : nat) : M nat :=
  match range with
  | [] => ret index
  | i :: rest =>
      c <- child_at node i ;
      cn <- get_node c ;
      if highest_visits <? visits cn
      then highest_visits_loop node rest i (visits cn)
      else highest_visits_loop node rest index highest_visits
  end.

Definition calc_highest_visits (node : nat) : M nat :=
  let index := 0 in
  c0 <- child_at node index ;
  n0 <- get_node c0 ;
  nd <- get_node node ;
  index <- highest_visits_loop node (seq 0 (length (children nd)))
             index (visits n0) ;
  c <- child_at node index ;
  cn <- get_node c ;
  ret (game_state cn).

(** ** The parts that loop without a bound, or draw random numbers *)

Section Engine.

(** The bound given to every [while] loop and to the recursion of
    [traverse]: a run that exceeds it is [OutOfFuel]. *)
Variable fuel : nat.

(** The random source: the [k]-th call of [randint(0, 2)] returns
    [rnd k mod 3]. *)
Variable rnd : nat → nat.

Definition randint02 : M nat :=
  λ s, Ok (rnd (cursor s) mod 3,
           mkStore (nodes s) (boards s) (S (cursor s)) (ucb_log s)).

(** *** Selection *)

(** The first child with [visits == 0].  The source asks
    [any(x.visits == 0 ...)] and then runs the same scan again to return
    the child; no state changes between the two scans, so one scan models
    both. *)
Fixpoint first_unvisited (cs : list nat) : M (option nat) :=
  match cs with
  | [] => ret None
  | c :: rest =>
      n <- get_node c ;
      if visits n =? 0 then ret (Some c) else first_unvisited rest
  end.

Fixpoint traverse_rec (n : nat) (current : nat) : M nat :=
  match n with
  | 0 => out_of_fuel
  | S n' =>
      cur <- get_node current ;
      match children cur with
      | [] => ret current
      | _ :: _ =>
          u <- first_unvisited (children cur) ;
          match u with
          | Some child => ret child
          | None =>
              i <- max_UCB1_index current ;
              c <- child_at current i ;
              traverse_rec n' c
          end
      end
  end.

Definition traverse (current_node : nat) : M nat :=
  traverse_rec fuel current_node.

(** *** Simulation *)

(** The inner [while current_game_state[rand_row][rand_col] != "X"]. *)
Fixpoint resample (n : nat) (g rand_row rand_col : nat) : M (nat * nat) :=
  match n with
  | 0 => out_of_fuel
  | S n' =>
      c <- getitem g rand_row rand_col ;
      if is_X c then ret (rand_row, rand_col)
      else
        rand_row <- randint02 ;
        rand_col <- randint02 ;
        resample n' g rand_row rand_col
  end.

(** The outer [while] of [rollout] and the [if]/[elif] after it.  The
    result is [None] when neither branch returns. *)
Fixpoint rollout_loop (n : nat) (g : nat) (player_num : Z) : M (option Z) :=
  match n with
  | 0 => out_of_fuel
  | S n' =>
      b <- get_board g ;
      w <- lift (check_for_win b player_num) ;
      if negb w && negb (check_for_draw b) then
        rand_row <- randint02 ;
        rand_col <- randint02 ;
        rc <- resample fuel g rand_row rand_col ;
        let player_num := if (player_num =? 1)%Z then 2%Z else 1%Z in
        setitem g rc.1 rc.2 (Mark player_num) ;;
        rollout_loop n' g player_num
      else
        w <- lift (check_for_win b player_num) ;
        if w then ret (Some player_num)
        else if check_for_draw b then ret (Some (-20)%Z)
        else ret None
  end.

Definition rollout (game_state : nat) (player : Z) : M (option Z) :=
  current_game_state <- deepcopy game_state ;
  rollout_loop fuel current_game_state player.

Definition back_propagate (current_node : nat) (rollout_result : option Z)
  : M unit :=
  back_propagate_loop fuel (Some current_node) rollout_result.

(** *** The move decision *)

(** One pass of the [for num_iter in range(1000)] loop. *)
Definition iteration (root : nat) : M unit :=
  current <- traverse root ;
  cur <- get_node current ;
  if (visits cur =? 0) || is_end_state cur then
    rollout_result <- rollout (game_state cur) (player cur) ;
    back_propagate current rollout_result
  else
    expand current ;;
    child <- child_at current 0 ;
    ch <- get_node child ;
    rollout_result <- rollout (game_state ch) (player ch) ;
    back_propagate child rollout_result.

Fixpoint iterations (k : nat) (root : nat) : M unit :=
  match k with
  | 0 => ret tt
  | S k' => iteration root ;; iterations k' root
  end.

Definition make_comp_move (state : nat) (num : Z) : M (Z * Z) :=
  root <- new_node state num None ;
  iterations 1000 root ;;
  comp_move_state <- calc_highest_visits root ;
  r <- get_node root ;
  game <- get_board (game_state r) ;
  comp <- get_board comp_move_state ;
  lift (find_comp_move game comp).

(** The search tree after [k] passes of the loop of [make_comp_move]:
    the states the loop goes through. *)
Definition search (k : nat) (state : nat) (num : Z) : M nat :=
  root <- new_node state num None ;
  iterations k root ;;
  ret root.

End Engine.

(** The store in which the game calls [make_comp_move]: no node yet, the
    board [b] the newest object of a heap [h], [c] draws made so far. *)
Definition entry (h : list board) (b : board) (c : nat) : Store :=
  mkStore [] (h ++ [b]) c [].


(** ** The game: the class [TicTacToe] and one round of the main loop *)

(** The position [l[i]] reads for a Python [int] index: an index from
    [-len(l)] to [len(l) - 1], a negative one counting from the end;
    [IndexError] outside. *)
Definition py_pos {A : Type} (l : list A) (i : Z) : result nat :=
  let n := Z.of_nat (length l) in
  if (0 <=? i)%Z && (i <? n)%Z then Ok (Z.to_nat i)
  else if (- n <=? i)%Z && (i <? 0)%Z then Ok (Z.to_nat (n + i))
  else Raise IndexError.

(** The row and the column [board[i][j]] reads. *)
Definition py_pos2 (b : board) (i j : Z) : result (nat * nat) :=
  x <~ py_pos b i ;
  match b !! x with
  | None => Raise IndexError
  | Some row => y <~ py_pos row j ; Ok (x, y)
  end.

Record TicTacToe : Type := mkTicTacToe {
  game_board : nat;           (* a reference to a board *)
  user_num : Z;
  comp_piece : Z
}.

(** [TicTacToe(user_piece, comp_piece)]: [__init__] builds the board. *)
Definition TicTacToe_init (user_piece comp_piece : Z) : M TicTacToe :=
  λ s, Ok (mkTicTacToe (length (boards s)) user_piece comp_piece,
           with_boards (λ h, h ++ [[[X; X; X]; [X; X; X]; [X; X; X]]]) s).

(** The three tests of [check_for_legality] are made one after the other:
    the cell is read also when the row or the column is out of range. *)
Definition check_for_legality (self : TicTacToe) (row col : Z) : M bool :=
  let is_legal := true in
  let is_legal :=
    if bool_decide (row ∉ [1; 2; 3]%Z) then false else is_legal in
  let is_legal :=
    if bool_decide (col ∉ [1; 2; 3]%Z) then false else is_legal in
  b <- get_board (game_board self) ;
  xy <- lift (py_pos2 b (row - 1) (col - 1)) ;
  c <- getitem (game_board self) xy.1 xy.2 ;
  let is_legal := if negb (is_X c) then false else is_legal in
  ret is_legal.

Definition make_player_move (self : TicTacToe) (row col : Z) : M unit :=
  b <- get_board (game_board self) ;
  xy <- lift (py_pos2 b (row - 1) (col - 1)) ;
  setitem (game_board self) xy.1 xy.2 (Mark (user_num self)).

(** The computer's turn in the script: a copy of the board goes to
    [make_comp_move], the move is written to the board of the game. *)
Definition computer_turn (fuel : nat) (rnd : nat → nat) (game : TicTacToe)
  : M unit :=
  game_state <- deepcopy (game_board game) ;
  let player_num := user_num game in
  comp <- make_comp_move fuel rnd game_state player_num ;
  b <- get_board (game_board game) ;
  xy <- lift (py_pos2 b comp.1 comp.2) ;
  setitem (game_board game) xy.1 xy.2 (Mark (comp_piece game)).

(** How a round of the main loop ends. *)
Inductive round_end : Type :=
  | UserWon        (* "Congrats, you have won!" *)
  | DrawAfterUser  (* "It's a draw! Try again.", after the user's move *)
  | ComputerWon    (* "You lost to a computer! Sad day." *)
  | DrawAfterComputer
  | NextRound.

(** What [int(input(...))] gives: the integer that was typed; or [int]
    fails on a text that is not an integer; or [input] fails at the end of
    the input. *)
Inductive reading : Type :=
  | Typed (z : Z)
  | NotAnInteger     (* int raises ValueError *)
  | EndOfInput.      (* input raises EOFError *)

Definition int_input (r : reading) : M Z :=
  match r with
  | Typed z => ret z
  | NotAnInteger => raise ValueError
  | EndOfInput => raise EOFError
  end.

(** One round of the main loop, from the two inputs: the result is [None]
    when the input is refused ("That is not a valid move") and the inner
    loop asks again. *)
Definition game_round (fuel : nat) (rnd : nat → nat) (game : TicTacToe)
    (row_typed col_typed : reading) : M (option round_end) :=
  user_row <- int_input row_typed ;
  user_col <- int_input col_typed ;
  legal <- check_for_legality game user_row user_col ;
  if legal then
    make_player_move game user_row user_col ;;
    b <- get_board (game_board game) ;
    w <- lift (check_for_win b (user_num game)) ;
    if w then ret (Some UserWon) else
    if check_for_draw b then ret (Some DrawAfterUser) else
    computer_turn fuel rnd game ;;
    b <- get_board (game_board game) ;
    w <- lift (check_for_win b (comp_piece game)) ;
    if w then ret (Some ComputerWon) else
    if check_for_draw b then ret (Some DrawAfterComputer) else
    ret (Some NextRound)
  else ret None.
(** * Reasoning about runs *)

(** ** Outcomes

    [wpg T E m Q s]: the run of [m] from [s] ends in a value and a store that
    satisfy [Q], or raises an exception allowed by [E], or reaches the loop
    bound, which [T] allows or not. *)

Definition wpg {A : Type} (T : Prop) (E : exn → Prop) (m : M A)
    (Q : A → Store → Prop) (s : Store) : Prop :=
  match m s with
  | Ok (a, s') => Q a s'
  | Raise e => E e
  | OutOfFuel => T
  end.

(** No exception is allowed. *)
Definition no_exn : exn → Prop := λ _, False.
(** The exceptions a board of the wrong shape, or a full board, can cause. *)
Definition index_only : exn → Prop := λ e, e = IndexError.


(** Convergence: from some bound on, the run ends in the value [a] and the
    store [s'], the same for every larger bound. *)
Definition converges {A : Type} (m : nat → M A) (s : Store) (a : A)
    (s' : Store) : Prop :=
  ∃ f0, ∀ fuel, f0 ≤ fuel → m fuel s = Ok (a, s').

(** ** Boards: shape, cells, empty cells *)

Definition is3x3 (b : board) : bool :=
  (length b =? 3) && forallb (λ row, length row =? 3) b.

Definition cell_of (b : board) (xy : nat * nat) : option cell :=
  b !! xy.1 ≫= λ row, row !! xy.2.

(** The cells in the order of the two nested [enumerate] loops: row by row,
    each row from left to right. *)
Definition coords (b : board) : list (nat * nat) :=
  enumerate b ≫= λ xrow, (λ yplace, (xrow.1, yplace.1)) <$> enumerate xrow.2.

(** The empty cells, in row-major order. *)
Definition empties (b : board) : list (nat * nat) :=
  filter (λ xy, cell_of b xy = Some X) (coords b).

(** The value [is_end_state] gets in [expand]: the board is full, or
    [check_for_win] says it is a win for the player who moved. *)
Definition end_flag (b : board) (p : Z) : bool :=
  check_for_draw b ||
  match check_for_win b p with Ok w => w | _ => false end.

(** The other player, as [expand] computes it. *)
Definition next_player (p : Z) : Z := if (p =? 2)%Z then 1%Z else 2%Z.

(** ** The store after [expand] *)

Definition child_board (b : board) (p : Z) (xy : nat * nat) : board :=
  set_cell b xy.1 xy.2 (Mark p).

Definition append_children (cs : list nat) (n : Node) : Node :=
  mkNode (wins n) (visits n) (children n ++ cs) (parent n) (game_state n)
         (player n) (is_end_state n).

(** The child made for the [j]-th empty cell [xy]: [L] is the size of the
    heap of boards before [expand]. *)
Definition new_child (current L : nat) (b : board) (p : Z) (j : nat)
    (xy : nat * nat) : Node :=
  mkNode 0 0 [] (Some current) (L + 1 + j) p
         (end_flag (child_board b p xy) p).

(** The store once [expand] has made the children for [cells]. *)
Definition expanded_with (s : Store) (current : nat) (n : Node) (b : board)
    (cells : list (nat * nat)) : Store :=
  let p := next_player (player n) in
  mkStore
    (<[current := append_children (seq (length (nodes s)) (length cells)) n]>
       (nodes s)
     ++ imap (new_child current (length (boards s)) b p) cells)
    (boards s ++ b :: (child_board b p <$> cells))
    (cursor s) (ucb_log s).

Definition expanded (s : Store) (current : nat) (n : Node) (b : board) : Store :=
  expanded_with s current n b (empties b).

(** ** The parent chain *)

(** [on_chain s i a]: [a] is [i] or is reached from [i] by parent
    references. *)
Inductive on_chain (s : Store) : nat → nat → Prop :=
  | chain_here i : on_chain s i i
  | chain_up i n p a :
      nodes s !! i = Some n → parent n = Some p → on_chain s p a →
      on_chain s i a.

(** What back-propagation adds to [wins] of a node whose [player] is [p]. *)
Definition credited (rollout_result : option Z) (n : Node) : Node :=
  if bool_decide (rollout_result = Some (-20)%Z) then
    add_visit (add_wins (1 # 2) n)
  else if bool_decide (Some (player n) = rollout_result) then
    add_visit (add_wins 1 n)
  else add_visit n.

(** ** Invariants of the search tree *)

(** The shape of the tree, whatever the boards are. *)
Record tree_ok (s : Store) : Prop := {
  tree_children : ∀ i n c,
    nodes s !! i = Some n → c ∈ children n →
    i < c ∧ ∃ nc, nodes s !! c = Some nc ∧ parent nc = Some i;
  tree_parent : ∀ i n p,
    nodes s !! i = Some n → parent n = Some p → p < i;
  tree_root : ∀ i n,
    nodes s !! i = Some n → parent n = None → i = 0;
  tree_unvisited : ∀ i n,
    nodes s !! i = Some n → visits n = 0 → children n = [];
  tree_board : ∀ i n,
    nodes s !! i = Some n → game_state n < length (boards s);
  tree_own_board : ∀ i j ni nj,
    nodes s !! i = Some ni → nodes s !! j = Some nj →
    game_state ni = game_state nj → i = j;
  tree_nodup : ∀ i n,
    nodes s !! i = Some n → NoDup (children n)
}.

(** Every UCB1 evaluation so far had a visited child of a visited parent. *)
Definition log_ok (s : Store) : Prop :=
  Forall (λ e, 1 ≤ e.1 ∧ 1 ≤ e.2) (ucb_log s).

(** The boards of the tree, for a root board that is 3 by 3 and not full. *)
Record boards_ok (s : Store) : Prop := {
  bo_shape : ∀ i n,
    nodes s !! i = Some n →
    ∃ b, boards s !! game_state n = Some b ∧ is3x3 b = true;
  bo_flag : ∀ i n b,
    nodes s !! i = Some n → boards s !! game_state n = Some b → i ≠ 0 →
    is_end_state n = end_flag b (player n);
  bo_root : ∀ n b,
    nodes s !! 0 = Some n → boards s !! game_state n = Some b →
    is_end_state n = false ∧ check_for_draw b = false;
  bo_child : ∀ i n c nc b bc,
    nodes s !! i = Some n → c ∈ children n → nodes s !! c = Some nc →
    boards s !! game_state n = Some b →
    boards s !! game_state nc = Some bc →
    ∃ xy, cell_of b xy = Some X ∧ bc = child_board b (player nc) xy
}.

(** From its second visit on, the root has children. *)
Definition root_expanded (s : Store) : Prop :=
  ∀ n, nodes s !! 0 = Some n → 2 ≤ visits n → children n ≠ [].

(** The invariant of the loop of [make_comp_move]: when [E] does not allow
    [IndexError], the boards are known to be well formed. *)
Definition Inv (E : exn → Prop) (s : Store) : Prop :=
  tree_ok s ∧ log_ok s ∧ (E IndexError ∨ (boards_ok s ∧ root_expanded s)).

(** ** What a component leaves as it is *)

(** Only the log of UCB1 evaluations differs. *)
Definition same_but_log (s s' : Store) : Prop :=
  nodes s' = nodes s ∧ boards s' = boards s ∧ cursor s' = cursor s.

(** The boards that exist keep their cells. *)
Definition keeps_boards (s s' : Store) : Prop :=
  ∀ r b, boards s !! r = Some b → boards s' !! r = Some b.

(** The nodes that exist keep [wins] and [visits]. *)
Definition keeps_stats (s s' : Store) : Prop :=
  ∀ i n, nodes s !! i = Some n →
    ∃ n', nodes s' !! i = Some n' ∧ wins n' = wins n ∧ visits n' = visits n.

(** The nodes that exist keep their place in the tree, their board, their
    player and their flag; a list of children that is not empty stays as it
    is. *)
Definition keeps_tree (s s' : Store) : Prop :=
  ∀ i n, nodes s !! i = Some n →
    ∃ n', nodes s' !! i = Some n' ∧
      parent n' = parent n ∧ game_state n' = game_state n ∧
      player n' = player n ∧ is_end_state n' = is_end_state n ∧
      (children n ≠ [] → children n' = children n).

Definition evolves (s s' : Store) : Prop :=
  keeps_boards s s' ∧ keeps_tree s s'.

(** ** The random source *)

(** Every pair of coordinates keeps coming: from every position on, the
    stream of draws, read two by two, reaches every cell.  A stream of
    independent uniform draws has this property with probability one. *)
Definition fair (rnd : nat → nat) : Prop :=
  ∀ n x y, x < 3 → y < 3 →
    ∃ k, rnd (n + 2 * k) mod 3 = x ∧ rnd (n + 2 * k + 1) mod 3 = y.

(** A result that is a value or [IndexError]. *)
Definition index_result {A : Type} (r : result A) : Prop :=
  match r with
  | Ok _ => True
  | Raise e => e = IndexError
  | OutOfFuel => False
  end.

(** The number of empty cells of a board. *)
Definition count_X (b : board) : nat :=
  sum_list ((λ c, if is_X c then 1 else 0) <$> concat b).

(** Row-major order on cells. *)
Definition row_major (a a' : nat * nat) : Prop :=
  a.1 < a'.1 ∨ (a.1 = a'.1 ∧ a.2 < a'.2).

(** ** Selection *)

(** The store with more UCB1 evaluations logged. *)
Definition logged (s : Store) (l : list (nat * nat)) : Store :=
  mkStore (nodes s) (boards s) (cursor s) (ucb_log s ++ l).

Definition log_entry_ok (e : nat * nat) : Prop := 1 ≤ e.1 ∧ 1 ≤ e.2.

(** The node [c] has [visits == 0]. *)
Definition unvisited (s : Store) (c : nat) : Prop :=
  visits <$> nodes s !! c = Some 0.

#[global] Instance unvisited_dec (s : Store) (c : nat) : Decision (unvisited s c).
Proof. unfold unvisited. apply _. Defined.

(** The first child without a visit, in the order of the children. *)
Definition first_unvisited_of (s : Store) (cs : list nat) : option nat :=
  snd <$> list_find (unvisited s) cs.

(** A NaN, among the floats as the specification of the arithmetic has
    them. *)
Definition sf_nan (a : spec_float) : bool :=
  match a with S754_nan => true | _ => false end.

(** Not below zero: a NaN or a zero of either sign among them. *)
Definition sf_not_neg (a : spec_float) : bool :=
  match a with
  | S754_finite true _ _ | S754_infinity true => false
  | _ => true
  end.

(** Without the sign bit, or a NaN. *)
Definition sf_no_minus (a : spec_float) : bool :=
  match a with
  | S754_zero true | S754_finite true _ _ | S754_infinity true => false
  | _ => true
  end.

(** The UCB1 score, as the formula gives it in binary64 arithmetic:
    wins / visits + 1.4 * sqrt (log2 (parent visits) / visits). *)
Definition UCB1_score (w : Q) (v pv : nat) : float :=
  (float_of_wins w / float_of_count v
   + 0x1.6666666666666p+0
     * sqrt (math_log2 (float_of_count pv) / float_of_count v))%float.

(** The UCB1 score of the [j]-th child of [n]. *)
Definition score_of (s : Store) (n : Node) (j : nat) : option float :=
  c ← children n !! j ;
  nc ← nodes s !! c ;
  Some (UCB1_score (wins nc) (visits nc) (visits n)).

(** [i] is the index [max_UCB1_index] settles on: no child has a score
    above that of the [i]-th child, and, when no score is a NaN, every
    child before it has a score below: [i] is the lowest index among the
    children with the highest score. *)
Definition first_best (s : Store) (n : Node) (i : nat) : Prop :=
  ∃ u, score_of s n i = Some u ∧
    (∀ j v, score_of s n j = Some v → (u <? v)%float = false) ∧
    ((∀ j v, score_of s n j = Some v → is_nan v = false) →
     ∀ j v, j < i → score_of s n j = Some v → (v <? u)%float = true).

(** Only [randint] was called. *)
Definition only_cursor (s s' : Store) : Prop :=
  nodes s' = nodes s ∧ boards s' = boards s ∧ ucb_log s' = ucb_log s.

(** The children of [current] can be scored: they are nodes with a visit
    whose parent is [current], itself visited. *)
Definition scorable (s : Store) (current : nat) (n : Node) : Prop :=
  nodes s !! current = Some n ∧ 1 ≤ visits n ∧
  ∀ c, c ∈ children n →
    ∃ nc, nodes s !! c = Some nc ∧ parent nc = Some current ∧ 1 ≤ visits nc.

(** ** Larger bounds

    [mle m m']: whenever [m] ends in a value, [m'] ends in the same value
    and store. *)
Definition mle {A : Type} (m m' : M A) : Prop :=
  ∀ s r, m s = Ok r → m' s = Ok r.

(** ** Back-propagation *)

(** The store after back-propagation of [r] from the node [cur]. *)
Definition back_propagated (s : Store) (cur : nat) (r : option Z)
    (s' : Store) : Prop :=
  boards s' = boards s ∧ cursor s' = cursor s ∧ ucb_log s' = ucb_log s ∧
  length (nodes s') = length (nodes s) ∧
  ∀ i n, nodes s !! i = Some n →
    ∃ n', nodes s' !! i = Some n' ∧
      (n' = n ∨ n' = credited r n) ∧
      (on_chain s cur i → n' = credited r n) ∧
      (¬ on_chain s cur i → n' = n).

(** ** One pass of the loop *)

(** [n'] is [n] up to [wins] and [visits]. *)
Definition same_shape (n n' : Node) : Prop :=
  children n' = children n ∧ parent n' = parent n ∧
  game_state n' = game_state n ∧ player n' = player n ∧
  is_end_state n' = is_end_state n.

(** The store after a rollout from the node [c] and the back-propagation of
    its result: the nodes are the same up to [wins] and [visits], the nodes
    of the parent chain of [c] have one more visit, one board was added. *)
Definition simulated (s : Store) (c : nat) (s' : Store) : Prop :=
  tree_ok s' ∧ ucb_log s' = ucb_log s ∧ keeps_boards s s' ∧
  length (boards s') = S (length (boards s)) ∧
  length (nodes s') = length (nodes s) ∧
  ∀ i n, nodes s !! i = Some n →
    ∃ n', nodes s' !! i = Some n' ∧ same_shape n n' ∧
          visits n ≤ visits n' ∧
          (on_chain s c i → visits n' = visits n + 1).

(** What one pass of the loop of [make_comp_move] establishes. *)
Definition pass_post (E : exn → Prop) (s s' : Store) : Prop :=
  Inv E s' ∧ evolves s s' ∧
  ∀ n, nodes s !! 0 = Some n →
    ∃ n', nodes s' !! 0 = Some n' ∧ visits n' = visits n + 1.

(** The store when the loop of [make_comp_move] starts: the root is the
    only node, with the caller's board. *)
Definition started (h : list board) (b : board) (c : nat) (num : Z) : Store :=
  mkStore [mkNode 0 0 [] None (length h) num false] (h ++ [b]) c [].

(** What [k] passes of the loop establish. *)
Definition passes_post (E : exn → Prop) (k : nat) (s s' : Store) : Prop :=
  Inv E s' ∧ evolves s s' ∧
  ∀ n, nodes s !! 0 = Some n →
    ∃ n', nodes s' !! 0 = Some n' ∧ visits n' = visits n + k.

(** ** The final choice *)

(** The visits of the [j]-th child of [n]. *)
Definition visits_of (s : Store) (n : Node) (j : nat) : option nat :=
  c ← children n !! j ;
  nc ← nodes s !! c ;
  Some (visits nc).

(** [i] is the lowest index among the children of [n] with the most
    visits. *)
Definition most_visited (s : Store) (n : Node) (i : nat) : Prop :=
  ∃ v, visits_of s n i = Some v ∧
    (∀ j w, visits_of s n j = Some w → w ≤ v) ∧
    (∀ j w, j < i → visits_of s n j = Some w → w < v).

(** ** Frames

    [preserves R m]: every run of [m] that ends in a value relates the store
    before to the store after by [R]. *)
Definition preserves {A : Type} (R : Store → Store → Prop) (m : M A) : Prop :=
  ∀ s a s', m s = Ok (a, s') → R s s'.

(** The arena of nodes is the same. *)
Definition same_nodes (s s' : Store) : Prop := nodes s' = nodes s.

(** The board the game starts with. *)
Definition empty_board : board := [[X; X; X]; [X; X; X]; [X; X; X]].

(** A finished game without a winner: every cell is taken and no line is
    complete. *)
Definition drawn_board : board :=
  [[Mark 1; Mark 2; Mark 1]; [Mark 1; Mark 2; Mark 2]; [Mark 2; Mark 1; Mark 1]].

(** A random source that deals the nine cells in turn, whatever the
    position it is read from. *)
Definition round_robin (k : nat) : nat :=
  nth (k mod 18) [0; 0; 0; 1; 0; 2; 1; 0; 1; 1; 1; 2; 2; 0; 2; 1; 2; 2] 0.

(** ** The oracle, cell by cell *)

(** The eight lines of the board: rows, columns, diagonals. *)
Definition lines : list (list (nat * nat)) :=
  [ [(0, 0); (0, 1); (0, 2)]; [(1, 0); (1, 1); (1, 2)];
    [(2, 0); (2, 1); (2, 2)];
    [(0, 0); (1, 0); (2, 0)]; [(0, 1); (1, 1); (2, 1)];
    [(0, 2); (1, 2); (2, 2)];
    [(0, 0); (1, 1); (2, 2)]; [(0, 2); (1, 1); (2, 0)] ].

(** The cell [xy] of [b] holds the number [p]. *)
Definition holds (b : board) (p : Z) (xy : nat * nat) : bool :=
  match cell_of b xy with
  | Some c => cell_is c p
  | None => false
  end.

(** Some line of [b] is held by [p] alone. *)
Definition has_line (b : board) (p : Z) : bool :=
  existsb (forallb (holds b p)) lines.

(** ** Playouts *)

(** The player to move next in [rollout]. *)
Definition flip (p : Z) : Z := if (p =? 1)%Z then 2%Z else 1%Z.

(** [playout b p b' p']: from the board [b], on which [p] moved last, the
    players move in turn, each on an empty cell, as long as the board is
    neither won by the player who moved last nor full; [b'] is a board so
    reached and [p'] the player who moved last on it. *)
Inductive playout : board → Z → board → Z → Prop :=
  | playout_stop b p : playout b p b p
  | playout_move b p xy b' p' :
      check_for_win b p = Ok false → check_for_draw b = false →
      cell_of b xy = Some X →
      playout (child_board b (flip p) xy) (flip p) b' p' →
      playout b p b' p'.

(** What [rollout] returns on the final board [b'] of a playout: the player
    who moved last when the board is won by that player, the value -20 when
    it is not and the board is full. *)
Definition rollout_outcome (b' : board) (p' : Z) (r : option Z) : Prop :=
  (check_for_win b' p' = Ok true ∧ r = Some p') ∨
  (check_for_win b' p' = Ok false ∧ check_for_draw b' = true ∧
   r = Some (-20)%Z).

(** ** Statistics *)

(** The wins of every node are between 0 and its visits. *)
Definition stats_ok (s : Store) : Prop :=
  ∀ i n, nodes s !! i = Some n →
    (0 <= wins n)%Q ∧ (wins n <= inject_Z (Z.of_nat (visits n)))%Q.

Definition keeps_stats_ok (s s' : Store) : Prop := stats_ok s → stats_ok s'.

(** ** Counting visits *)

(** The visits of the node [c]; 0 for a reference outside the arena. *)
Definition visits_at (s : Store) (c : nat) : nat :=
  match nodes s !! c with
  | Some n => visits n
  | None => 0
  end.

(** The visits of a node with children are its own first visit and the
    visits of its children; a node without children that is not an end
    state has at most one visit; every node is among the children of its
    parent. *)
Record counts_ok (s : Store) : Prop := {
  co_sum : ∀ i n,
    nodes s !! i = Some n → children n ≠ [] →
    visits n = 1 + sum_list (visits_at s <$> children n);
  co_leaf : ∀ i n,
    nodes s !! i = Some n → children n = [] → is_end_state n = false →
    visits n ≤ 1;
  co_child : ∀ c nc p,
    nodes s !! c = Some nc → parent nc = Some p →
    ∃ np, nodes s !! p = Some np ∧ c ∈ children np
}.

(** Any exception is allowed. *)
Definition any_exn : exn → Prop := λ _, True.

(** ** A logarithm for examples *)

(** The whole part of the logarithm to base 2 of a float from 1 up to
    2^62: exact on the powers of 2, where every C library is exact too. *)
Definition floor_log2 (x : float) : float :=
  fold_left
    (λ acc k, if (of_uint63 (Uint63.of_Z (2 ^ Z.of_nat k)) <=? x)%float
              then of_uint63 (Uint63.of_Z (Z.of_nat k)) else acc)
    (seq 0 63) 0%float.

(** ** A tree for examples *)

(** A root with 32 visits and three visited children.  As real numbers the
    scores of the first two children are equal, 1/5 + 1.4 and
    18/20 + 1.4 * 1/2; in binary64 arithmetic the second is the larger one,
    by one unit in the last place. *)
Definition close_scores : Store :=
  mkStore
    [mkNode 19 32 [1; 2; 3] None 0 1 false;
     mkNode 1 5 [] (Some 0) 1 2 false;
     mkNode 18 20 [] (Some 0) 2 2 false;
     mkNode 0 6 [] (Some 0) 3 2 false]
    [[[Mark 1; Mark 2; Mark 1]; [Mark 2; Mark 1; Mark 2]; [X; X; X]];
     [[Mark 1; Mark 2; Mark 1]; [Mark 2; Mark 1; Mark 2]; [Mark 2; X; X]];
     [[Mark 1; Mark 2; Mark 1]; [Mark 2; Mark 1; Mark 2]; [X; Mark 2; X]];
     [[Mark 1; Mark 2; Mark 1]; [Mark 2; Mark 1; Mark 2]; [X; X; Mark 2]]]
    0 [].

(** A board with one empty cell, not won by anyone. *)
Definition one_left : board :=
  [[Mark 1; Mark 2; Mark 1]; [Mark 1; Mark 2; Mark 2]; [Mark 2; Mark 1; X]].
Section Rules.
Context {A B : Type} (T : Prop) (E : exn → Prop).
Implicit Types (s : Store) (m : M A).

Lemma wpg_ret (a : A) (Q : A → Store → Prop) s :
  Q a s → wpg T E (ret a) Q s.
Proof. done. Qed.

Lemma wpg_bind m (f : A → M B) (Q : B → Store → Prop) s :
  wpg T E m (λ a s', wpg T E (f a) Q s') s → wpg T E (bind m f) Q s.
Proof. unfold wpg, bind. destruct (m s) as [[a s']| |]; done. Qed.

Lemma wpg_mono m (Q Q' : A → Store → Prop) s :
  wpg T E m Q s → (∀ a s', Q a s' → Q' a s') → wpg T E m Q' s.
Proof. unfold wpg. destruct (m s) as [[a s']| |]; auto. Qed.

Lemma wpg_weaken (T' : Prop) (E' : exn → Prop) m (Q : A → Store → Prop) s :
  wpg T E m Q s → (T → T') → (∀ e, E e → E' e) → wpg T' E' m Q s.
Proof. unfold wpg. destruct (m s) as [[a s']| |]; auto. Qed.

Lemma wpg_conj (T' : Prop) (E' : exn → Prop) m (Q Q' : A → Store → Prop) s :
  wpg T E m Q s → wpg T' E' m Q' s →
  wpg (T ∧ T') (λ e, E e ∧ E' e) m (λ a s', Q a s' ∧ Q' a s') s.
Proof. unfold wpg. destruct (m s) as [[a s']| |]; auto. Qed.

Lemma wpg_ok m (Q : A → Store → Prop) s a s' :
  wpg T E m Q s → m s = Ok (a, s') → Q a s'.
Proof. unfold wpg. intros H Heq. by rewrite Heq in H. Qed.

Lemma wpg_of_ok m (Q : A → Store → Prop) s a s' :
  m s = Ok (a, s') → Q a s' → wpg T E m Q s.
Proof. unfold wpg. by intros ->. Qed.

Lemma wpg_raise (e : exn) (Q : A → Store → Prop) s :
  E e → wpg T E (raise e) Q s.
Proof. done. Qed.

Lemma wpg_out_of_fuel (Q : A → Store → Prop) s :
  T → wpg T E out_of_fuel Q s.
Proof. done. Qed.

Lemma wpg_lift (r : result A) (Q : A → Store → Prop) s :
  match r with Ok a => Q a s | Raise e => E e | OutOfFuel => T end →
  wpg T E (lift r) Q s.
Proof. unfold wpg, lift. by destruct r. Qed.
End Rules.

(** A run that cannot reach the loop bound and raises nothing ends in a
    value. *)
Lemma wpg_total {A : Type} (m : M A) (Q : A → Store → Prop) s :
  wpg False no_exn m Q s → ∃ a s', m s = Ok (a, s') ∧ Q a s'.
Proof. unfold wpg. destruct (m s) as [[a s']| |]; [eauto | done..]. Qed.

(** ** The primitive operations *)

Section Primitives.
Context (T : Prop) (E : exn → Prop).
Implicit Types (s : Store).

Lemma wpg_get_node i n (Q : Node → Store → Prop) s :
  nodes s !! i = Some n → Q n s → wpg T E (get_node i) Q s.
Proof. unfold wpg, get_node. by intros ->. Qed.

Lemma wpg_upd_node i f n (Q : unit → Store → Prop) s :
  nodes s !! i = Some n →
  Q tt (with_nodes <[i := f n]> s) → wpg T E (upd_node i f) Q s.
Proof. unfold wpg, upd_node. by intros ->. Qed.

Lemma wpg_get_board r b (Q : board → Store → Prop) s :
  boards s !! r = Some b → Q b s → wpg T E (get_board r) Q s.
Proof. unfold wpg, get_board. by intros ->. Qed.

Lemma wpg_deepcopy r b (Q : nat → Store → Prop) s :
  boards s !! r = Some b →
  Q (length (boards s)) (with_boards (λ h, h ++ [b]) s) →
  wpg T E (deepcopy r) Q s.
Proof. unfold wpg, deepcopy. by intros ->. Qed.

Lemma wpg_getitem r b x y c (Q : cell → Store → Prop) s :
  boards s !! r = Some b → getitem2 b x y = Ok c → Q c s →
  wpg T E (getitem r x y) Q s.
Proof.
  intros Hb Hc HQ. unfold getitem. apply wpg_bind.
  eapply wpg_get_board; [done|]. apply wpg_lift. by rewrite Hc.
Qed.

Lemma wpg_setitem r b x y v c (Q : unit → Store → Prop) s :
  boards s !! r = Some b → getitem2 b x y = Ok c →
  Q tt (with_boards <[r := set_cell b x y v]> s) →
  wpg T E (setitem r x y v) Q s.
Proof. unfold wpg, setitem. by intros -> ->. Qed.

Lemma wpg_new_node game pl par (Q : nat → Store → Prop) s :
  Q (length (nodes s))
    (with_nodes (λ l, l ++ [mkNode 0 0 [] par game pl false]) s) →
  wpg T E (new_node game pl par) Q s.
Proof. done. Qed.

Lemma wpg_log_ucb entry (Q : unit → Store → Prop) s :
  Q tt (mkStore (nodes s) (boards s) (cursor s) (ucb_log s ++ [entry])) →
  wpg T E (log_ucb entry) Q s.
Proof. done. Qed.

Lemma wpg_randint02 rnd (Q : nat → Store → Prop) s :
  Q (rnd (cursor s) mod 3)
    (mkStore (nodes s) (boards s) (S (cursor s)) (ucb_log s)) →
  wpg T E (randint02 rnd) Q s.
Proof. done. Qed.

Lemma wpg_child_at node i n c (Q : nat → Store → Prop) s :
  nodes s !! node = Some n → children n !! i = Some c → Q c s →
  wpg T E (child_at node i) Q s.
Proof.
  intros Hn Hc HQ. unfold child_at. apply wpg_bind.
  eapply wpg_get_node; [done|]. by rewrite Hc.
Qed.

(** [for a in l]: [I done s] holds when the elements [done] have been
    processed. *)
Lemma wpg_for_each {A : Type} (I : list A → Store → Prop) (l : list A)
    (body : A → M unit) s :
  I [] s →
  (∀ pre a post s1, l = pre ++ a :: post → I pre s1 →
     wpg T E (body a) (λ _ s2, I (pre ++ [a]) s2) s1) →
  wpg T E (for_each l body) (λ _ s', I l s') s.
Proof.
  intros H0 Hbody.
  enough (Hgen : ∀ post pre s1, l = pre ++ post → I pre s1 →
            wpg T E (for_each post body) (λ _ s', I l s') s1)
    by (by apply (Hgen l [])).
  induction post as [|a post IH]; intros pre s1 Hl Hpre; simpl.
  - apply wpg_ret. by rewrite Hl, app_nil_r.
  - apply wpg_bind. eapply wpg_mono; [by eapply Hbody|].
    intros [] s2 H2. apply (IH (pre ++ [a])); [|done].
    by rewrite <- app_assoc.
Qed.
End Primitives.

(** * The oracle and the boards *)

Section Boards.
Implicit Types (b : board) (c v : cell) (p : Z) (k : nat * nat).

Lemma getitem2_cell_of b x y c :
  getitem2 b x y = Ok c ↔ cell_of b (x, y) = Some c.
Proof.
  unfold getitem2, cell_of; simpl.
  destruct (b !! x) as [row|]; simpl; [destruct (row !! y)|]; naive_solver.
Qed.

Lemma getitem2_cases b x y :
  (∃ c, getitem2 b x y = Ok c) ∨ getitem2 b x y = Raise IndexError.
Proof.
  unfold getitem2. destruct (b !! x) as [row|]; [destruct (row !! y)|]; eauto.
Qed.

Lemma is3x3_inv b :
  is3x3 b = true →
  ∃ a0 a1 a2 d0 d1 d2 e0 e1 e2 : cell,
    b = [[a0; a1; a2]; [d0; d1; d2]; [e0; e1; e2]].
Proof.
  unfold is3x3. intros [Hlen Hrows]%andb_true_iff.
  apply Nat.eqb_eq in Hlen.
  destruct b as [|r0 [|r1 [|r2 [|]]]]; simplify_eq/=.
  repeat (apply andb_true_iff in Hrows as [?%Nat.eqb_eq Hrows]).
  destruct r0 as [|? [|? [|? [|]]]]; simplify_eq/=.
  destruct r1 as [|? [|? [|? [|]]]]; simplify_eq/=.
  destruct r2 as [|? [|? [|? [|]]]]; simplify_eq/=.
  by repeat eexists.
Qed.

Lemma getitem2_3x3 b x y :
  is3x3 b = true → x < 3 → y < 3 → ∃ c, getitem2 b x y = Ok c.
Proof.
  intros (a0&a1&a2&d0&d1&d2&e0&e1&e2&->)%is3x3_inv Hx Hy.
  destruct x as [|[|[|]]]; [| | |lia];
    (destruct y as [|[|[|]]]; [| | |lia]); simpl; eauto.
Qed.

Lemma cell_of_3x3 b xy c :
  is3x3 b = true → cell_of b xy = Some c → xy.1 < 3 ∧ xy.2 < 3.
Proof.
  intros (a0&a1&a2&d0&d1&d2&e0&e1&e2&->)%is3x3_inv.
  destruct xy as [x y]. unfold cell_of; simpl.
  destruct x as [|[|[|]]]; simpl; [| | |done];
    (destruct y as [|[|[|]]]; simpl; [| | |done]); lia.
Qed.

(** *** [check_for_win] raises nothing but [IndexError], and nothing on a
    3 by 3 board *)

Lemma index_result_bind {A B : Type} (r : result A) (f : A → result B) :
  index_result r → (∀ a, r = Ok a → index_result (f a)) →
  index_result (rbind r f).
Proof. destruct r; simpl; auto. Qed.

Lemma index_result_getitem2 b x y : index_result (getitem2 b x y).
Proof. by destruct (getitem2_cases b x y) as [[c ->]| ->]. Qed.

Lemma index_result_all3 b p k1 k2 k3 : index_result (all3 b p k1 k2 k3).
Proof.
  unfold all3.
  repeat (apply index_result_bind; [apply index_result_getitem2|];
          intros ? _; case_match; [|done]).
  apply index_result_bind; [apply index_result_getitem2|done].
Qed.

Lemma index_result_win_loop b p range : index_result (win_loop b p range).
Proof.
  induction range as [|i rest IH]; simpl; [done|].
  apply index_result_bind; [apply index_result_all3|]. intros [] _; [done|].
  apply index_result_bind; [apply index_result_all3|]. by intros [] _.
Qed.

Lemma index_result_check_for_win b p : index_result (check_for_win b p).
Proof.
  unfold check_for_win.
  apply index_result_bind; [apply index_result_win_loop|]. intros [] _; [done|].
  apply index_result_bind; [apply index_result_all3|]. intros [] _; [done|].
  apply index_result_bind; [apply index_result_all3|]. by intros [] _.
Qed.

Lemma all3_3x3 b p k1 k2 k3 :
  is3x3 b = true →
  k1.1 < 3 → k1.2 < 3 → k2.1 < 3 → k2.2 < 3 → k3.1 < 3 → k3.2 < 3 →
  ∃ w, all3 b p k1 k2 k3 = Ok w.
Proof.
  intros Hb ? ? ? ? ? ?. unfold all3.
  destruct (getitem2_3x3 b k1.1 k1.2) as [x1 ->]; [done..|]; simpl.
  destruct (cell_is x1 p); [|by eauto].
  destruct (getitem2_3x3 b k2.1 k2.2) as [x2 ->]; [done..|]; simpl.
  destruct (cell_is x2 p); [|by eauto].
  destruct (getitem2_3x3 b k3.1 k3.2) as [x3 ->]; [done..|]; simpl.
  by eauto.
Qed.

Lemma win_loop_3x3 b p range :
  is3x3 b = true → Forall (λ i, i < 3) range →
  ∃ w, win_loop b p range = Ok w.
Proof.
  intros Hb. induction 1 as [|i rest Hi _ IH]; simpl; [by eauto|].
  destruct (all3_3x3 b p (i, 0) (i, 1) (i, 2)) as [[] ->];
    simpl; [done || lia..| by eauto |].
  destruct (all3_3x3 b p (0, i) (1, i) (2, i)) as [[] ->];
    simpl; [done || lia..| by eauto |].
  done.
Qed.

Lemma check_for_win_3x3 b p :
  is3x3 b = true → ∃ w, check_for_win b p = Ok w.
Proof.
  intros Hb. unfold check_for_win.
  destruct (win_loop_3x3 b p (seq 0 3)) as [[] ->]; simpl;
    [done | repeat constructor; lia | by eauto |].
  destruct (all3_3x3 b p (0, 0) (1, 1) (2, 2)) as [[] ->];
    simpl; [done || lia..| by eauto |].
  destruct (all3_3x3 b p (0, 2) (1, 1) (2, 0)) as [[] ->];
    simpl; [done || lia..| by eauto | by eauto].
Qed.

(** *** Writing a cell *)

Lemma cell_of_set_cell b x y v xy :
  is_Some (cell_of b (x, y)) →
  cell_of (set_cell b x y v) xy =
    if decide (xy = (x, y)) then Some v else cell_of b xy.
Proof.
  destruct xy as [x' y']. unfold cell_of, set_cell; simpl.
  destruct (b !! x) as [row|] eqn:Hrow; simpl; [|by intros [? ?]].
  intros [c Hc].
  destruct (decide (x' = x)) as [->|Hx].
  - rewrite list_lookup_insert_eq by (by eapply lookup_lt_Some). simpl.
    destruct (decide (y' = y)) as [->|Hy].
    + rewrite list_lookup_insert_eq by (by eapply lookup_lt_Some).
      by rewrite decide_True.
    + rewrite list_lookup_insert_ne by done.
      rewrite decide_False by congruence. by rewrite Hrow.
  - rewrite list_lookup_insert_ne by done.
    by rewrite decide_False by congruence.
Qed.

Lemma set_cell_3x3 b x y v :
  is3x3 b = true → is3x3 (set_cell b x y v) = true.
Proof.
  intros (a0&a1&a2&d0&d1&d2&e0&e1&e2&->)%is3x3_inv.
  destruct x as [|[|[|]]]; [| | |done];
    by destruct y as [|[|[|]]].
Qed.

(** *** Full boards and empty cells *)

Lemma elem_of_concat {A : Type} (x : A) (ls : list (list A)) :
  x ∈ concat ls ↔ ∃ l, x ∈ l ∧ l ∈ ls.
Proof.
  induction ls as [|l ls IH]; simpl.
  - split; [by intros ?%elem_of_nil | by intros (? & _ & ?%elem_of_nil)].
  - rewrite elem_of_app, IH. split.
    + intros [?|(l' & ? & ?)]; [exists l | exists l'];
        (split; [done|]); [by left | by right].
    + intros (l' & ? & [->|?]%elem_of_cons); [by left | right; eauto].
Qed.

Lemma concat_lookup_cell b xy c :
  cell_of b xy = Some c → c ∈ concat b.
Proof.
  destruct xy as [x y]. unfold cell_of; simpl.
  destruct (b !! x) as [row|] eqn:Hrow; simpl; [|done]. intros Hc.
  apply elem_of_concat. exists row. split.
  - by eapply list_elem_of_lookup_2.
  - by eapply list_elem_of_lookup_2.
Qed.

Lemma concat_cell_lookup b c :
  c ∈ concat b → ∃ xy, cell_of b xy = Some c.
Proof.
  intros (row & Hc & Hrow)%elem_of_concat.
  apply list_elem_of_lookup in Hrow as [x Hx].
  apply list_elem_of_lookup in Hc as [y Hy].
  exists (x, y). unfold cell_of; simpl. by rewrite Hx.
Qed.

Lemma check_for_draw_false b :
  check_for_draw b = false ↔ ∃ xy, cell_of b xy = Some X.
Proof.
  unfold check_for_draw; simpl.
  destruct (existsb is_X (concat b)) eqn:Hex.
  - split; [intros _|done].
    apply existsb_exists in Hex as (c & Hin & Hc).
    apply bool_decide_eq_true in Hc as ->.
    apply concat_cell_lookup. by apply list_elem_of_In.
  - split; [done|]. intros [xy Hxy].
    apply concat_lookup_cell in Hxy.
    assert (existsb is_X (concat b) = true) as Htrue; [|congruence].
    apply existsb_exists. exists X. split; [by apply list_elem_of_In|].
    by apply bool_decide_eq_true.
Qed.
End Boards.

(** * The scan order of the cells *)

Section Coords.
Implicit Types (b : board) (xy : nat * nat).

Lemma elem_of_enumerate {A : Type} (l : list A) (ia : nat * A) :
  ia ∈ enumerate l ↔ l !! ia.1 = Some ia.2.
Proof.
  unfold enumerate. rewrite elem_of_lookup_imap. destruct ia as [i a]. simpl.
  split; [by intros (? & ? & [= -> ->] & ?) | by eauto].
Qed.

Lemma elem_of_coords b xy : xy ∈ coords b ↔ is_Some (cell_of b xy).
Proof.
  unfold coords, cell_of. rewrite list_elem_of_bind. destruct xy as [x y].
  simpl. split.
  - intros ([x' row] & Hin & Hrow%elem_of_enumerate). simpl in *.
    apply list_elem_of_fmap in Hin as ([y' c] & [= -> ->] & Hc%elem_of_enumerate).
    rewrite Hrow. simpl in *. by rewrite Hc.
  - intros [c Hc]. destruct (b !! x) as [row|] eqn:Hrow; [|done].
    simpl in Hc. exists (x, row). split; [|by apply elem_of_enumerate].
    apply list_elem_of_fmap. exists (y, c). split; [done|].
    by apply elem_of_enumerate.
Qed.

Lemma elem_of_empties b xy : xy ∈ empties b ↔ cell_of b xy = Some X.
Proof.
  unfold empties. rewrite list_elem_of_filter, elem_of_coords.
  split; [by intros [? _] | by intros H; rewrite H; eauto].
Qed.

Lemma empties_nil b : empties b = [] ↔ check_for_draw b = true.
Proof.
  split.
  - intros Hnil. destruct (check_for_draw b) eqn:Hd; [done|].
    apply check_for_draw_false in Hd as [xy Hxy%elem_of_empties].
    rewrite Hnil in Hxy. by apply elem_of_nil in Hxy.
  - intros Hd. destruct (empties b) as [|xy l] eqn:He; [done|].
    assert (xy ∈ empties b) as Hxy%elem_of_empties by (rewrite He; left).
    assert (check_for_draw b = false) by (apply check_for_draw_false; eauto).
    congruence.
Qed.

Lemma StronglySorted_filter {A : Type} (R : relation A) (P : A → Prop)
    `{!∀ x, Decision (P x)} (l : list A) :
  StronglySorted R l → StronglySorted R (filter P l).
Proof.
  induction 1 as [|x l Hl IH Hx]; [constructor|].
  rewrite filter_cons. case_decide; [|done]. constructor; [done|].
  apply Forall_forall. intros y [_ Hy]%list_elem_of_filter.
  by eapply Forall_forall in Hx.
Qed.

Lemma enumerate_from_sorted {A : Type} (l : list A) (k : nat) :
  StronglySorted (λ a a' : nat * A, a.1 < a'.1) (imap (λ i a, (k + i, a)) l).
Proof.
  revert k. induction l as [|a l IH]; intros k; [constructor|].
  rewrite imap_cons. constructor.
  - erewrite imap_ext; [apply (IH (S k))|]. intros i x _. simpl. f_equal. lia.
  - apply Forall_forall. intros [i x] (j & y & [= -> ->] & _)%elem_of_lookup_imap.
    simpl. lia.
Qed.

Lemma coords_from_sorted b (k : nat) :
  StronglySorted row_major
    (imap (λ i row, (k + i, row)) b ≫=
       λ xrow, (λ yplace : nat * cell, (xrow.1, yplace.1)) <$> enumerate xrow.2).
Proof.
  revert k. induction b as [|row b IH]; intros k; [constructor|].
  rewrite imap_cons, bind_cons. apply StronglySorted_app_2.
  - intros [x1 y1] [x2 y2] H1 H2. simpl in H1.
    apply list_elem_of_fmap in H1 as (? & [= -> ->] & _).
    apply list_elem_of_bind in H2 as ([x' row'] & H2 & Hx').
    apply list_elem_of_fmap in H2 as (? & [= -> ->] & _).
    apply elem_of_lookup_imap in Hx' as (j & ? & [= -> ->] & _).
    left. simpl. lia.
  - eapply StronglySorted_fmap; [|apply (enumerate_from_sorted row 0)].
    intros [y1 c1] [y2 c2]; simpl. intros Hlt. right. simpl. split; [done|lia].
  - erewrite imap_ext; [apply (IH (S k))|]. intros i x _. simpl. f_equal. lia.
Qed.

Lemma coords_sorted b : StronglySorted row_major (coords b).
Proof. apply (coords_from_sorted b 0). Qed.

Lemma empties_sorted b : StronglySorted row_major (empties b).
Proof. apply StronglySorted_filter, coords_sorted. Qed.

Lemma row_major_irrefl xy : ¬ row_major xy xy.
Proof. unfold row_major. lia. Qed.

Lemma StronglySorted_NoDup {A : Type} (R : relation A) (l : list A) :
  (∀ x, ¬ R x x) → StronglySorted R l → NoDup l.
Proof.
  intros Hirr. induction 1 as [|x l Hl IH Hx]; constructor; [|done].
  intros Hin. eapply Forall_forall in Hx; [|done]. by eapply Hirr.
Qed.

Lemma empties_NoDup b : NoDup (empties b).
Proof.
  eapply StronglySorted_NoDup; [apply row_major_irrefl | apply empties_sorted].
Qed.
End Coords.

(** * The cell in which two boards differ *)

Section FindCompMove.
Implicit Types (b other : board) (row : list cell).

Lemma find_in_row_same x y0 row other :
  (∀ j v, row !! j = Some v → getitem2 other x (y0 + j) = Ok v) →
  find_in_row x y0 row other = Ok None.
Proof.
  revert y0. induction row as [|c row IH]; intros y0 Hsame; simpl; [done|].
  rewrite <- (Nat.add_0_r y0) at 1. rewrite (Hsame 0 c) by done. simpl.
  rewrite decide_True by done. apply IH. intros j v Hj.
  rewrite <- (Hsame (S j) v) by done. f_equal. lia.
Qed.

Lemma find_in_row_diff x y0 row other j c c' :
  row !! j = Some c → getitem2 other x (y0 + j) = Ok c' → c ≠ c' →
  (∀ j' v, j' < j → row !! j' = Some v → getitem2 other x (y0 + j') = Ok v) →
  find_in_row x y0 row other = Ok (Some (Z.of_nat x, Z.of_nat (y0 + j))).
Proof.
  revert y0 j. induction row as [|c0 row IH]; intros y0 j Hj Hc' Hne Hsame;
    simpl; [done|].
  destruct j as [|j]; simpl in Hj.
  - simplify_eq. rewrite Nat.add_0_r in Hc'. rewrite Hc'. simpl.
    rewrite decide_False by done. by rewrite Nat.add_0_r.
  - rewrite <- (Nat.add_0_r y0) at 1.
    rewrite (Hsame 0 c0) by (done || lia). simpl.
    rewrite decide_True by done.
    replace (y0 + S j) with (S y0 + j) in * by lia.
    apply IH; [done..|]. intros j' v Hlt Hj'.
    rewrite <- (Hsame (S j') v) by (done || lia). f_equal. lia.
Qed.

Lemma find_in_rows_same x0 (rows : board) other :
  (∀ i row j v, rows !! i = Some row → row !! j = Some v →
                getitem2 other (x0 + i) j = Ok v) →
  find_in_rows x0 rows other = Ok (-1, -1)%Z.
Proof.
  revert x0. induction rows as [|row rows IH]; intros x0 Hsame; simpl; [done|].
  rewrite find_in_row_same; simpl.
  - apply IH. intros i row' j v Hi Hj.
    rewrite <- (Hsame (S i) row' j v) by done. f_equal. lia.
  - intros j v Hj. rewrite <- (Hsame 0 row j v) by done. f_equal. lia.
Qed.

Lemma find_in_rows_diff x0 (rows : board) other i row j c c' :
  rows !! i = Some row → row !! j = Some c →
  getitem2 other (x0 + i) j = Ok c' → c ≠ c' →
  (∀ j' v, j' < j → row !! j' = Some v → getitem2 other (x0 + i) j' = Ok v) →
  (∀ i' row' j' v, i' < i → rows !! i' = Some row' → row' !! j' = Some v →
                   getitem2 other (x0 + i') j' = Ok v) →
  find_in_rows x0 rows other = Ok (Z.of_nat (x0 + i), Z.of_nat j).
Proof.
  revert x0 i. induction rows as [|row0 rows IH];
    intros x0 i Hi Hj Hc' Hne Hrow Hrows; simpl; [done|].
  destruct i as [|i]; simpl in Hi.
  - simplify_eq. rewrite Nat.add_0_r in *.
    by erewrite (find_in_row_diff x0 0 row other j c c').
  - rewrite find_in_row_same; simpl.
    + replace (x0 + S i) with (S x0 + i) in * by lia.
      eapply IH; [done..|]. intros i' row' j' v Hlt Hi' Hj'.
      rewrite <- (Hrows (S i') row' j' v) by (done || lia). f_equal. lia.
    + intros j' v Hj'. rewrite <- (Hrows 0 row0 j' v) by (done || lia).
      f_equal. lia.
Qed.

Lemma find_comp_move_same b other :
  (∀ xy v, cell_of b xy = Some v → cell_of other xy = Some v) →
  find_comp_move b other = Ok (-1, -1)%Z.
Proof.
  intros Hsame. apply find_in_rows_same. intros i row j v Hi Hj. simpl.
  apply getitem2_cell_of, Hsame. unfold cell_of. simpl. by rewrite Hi.
Qed.

Lemma getitem2_set_cell b x y v x' y' :
  is_Some (cell_of b (x, y)) →
  getitem2 (set_cell b x y v) x' y' =
    if decide ((x', y') = (x, y)) then Ok v else getitem2 b x' y'.
Proof.
  intros Hxy.
  pose proof (cell_of_set_cell b x y v (x', y') Hxy) as Hset.
  case_decide.
  - by apply getitem2_cell_of.
  - destruct (getitem2_cases b x' y') as [[c Hc]|Hc]; rewrite Hc.
    + apply getitem2_cell_of. rewrite Hset. by apply getitem2_cell_of.
    + destruct (getitem2_cases (set_cell b x y v) x' y') as [[c Hc']|Hc'];
        [|done].
      apply getitem2_cell_of in Hc'. rewrite Hset in Hc'.
      apply getitem2_cell_of in Hc'. congruence.
Qed.

(** The board of a child differs from the board of its parent in the cell
    that was played, and [find_comp_move] finds it. *)
Lemma find_comp_move_child b p xy :
  cell_of b xy = Some X →
  find_comp_move b (child_board b p xy) = Ok (Z.of_nat xy.1, Z.of_nat xy.2).
Proof.
  destruct xy as [x y]. intros Hxy. unfold child_board, find_comp_move. simpl.
  assert (is_Some (cell_of b (x, y))) as Hsome by eauto.
  unfold cell_of in Hxy. simpl in Hxy.
  destruct (b !! x) as [row|] eqn:Hrow; [|done]. simpl in Hxy.
  apply (find_in_rows_diff 0 b _ x row y X (Mark p)); simpl; [done..| | | |].
  - rewrite getitem2_set_cell by done. by rewrite decide_True.
  - done.
  - intros j' v Hlt Hj'. rewrite getitem2_set_cell by done.
    rewrite decide_False by (intros [= ?]; lia).
    apply getitem2_cell_of. unfold cell_of. simpl. by rewrite Hrow.
  - intros i' row' j' v Hlt Hi' Hj'. rewrite getitem2_set_cell by done.
    rewrite decide_False by (intros [= ? ?]; lia).
    apply getitem2_cell_of. unfold cell_of. simpl. by rewrite Hi'.
Qed.
End FindCompMove.
(** * The order of binary64 floats *)

Ltac sf_cases :=
  repeat match goal with
    | |- context [Z.compare ?a ?b] => destruct (Z.compare_spec a b)
    | |- context [Pos.compare_cont Eq ?a ?b] =>
        change (Pos.compare_cont Eq a b) with (Pos.compare a b);
        destruct (Pos.compare_spec a b)
    end; subst; simpl; try discriminate; try reflexivity; try lia.

Lemma SFltb_irrefl a : SFltb a a = false.
Proof.
  unfold SFltb, SFcompare. destruct a as [[]|[]| |[] m e]; simpl; sf_cases.
Qed.

Lemma SFltb_trans a b c :
  SFltb a b = true → SFltb b c = true → SFltb a c = true.
Proof.
  unfold SFltb, SFcompare.
  destruct a as [[]|[]| |[] ma ea], b as [[]|[]| |[] mb eb],
           c as [[]|[]| |[] mc ec]; simpl; try discriminate; try reflexivity;
    sf_cases.
Qed.

(** Without a NaN the order is total: [b <= a] and [a < c] give [b < c]. *)
Lemma SFltb_le_lt a b c :
  sf_nan a = false → sf_nan b = false → sf_nan c = false →
  SFltb a b = false → SFltb a c = true → SFltb b c = true.
Proof.
  unfold SFltb, SFcompare, sf_nan.
  destruct a as [[]|[]| |[] ma ea], b as [[]|[]| |[] mb eb],
           c as [[]|[]| |[] mc ec]; simpl; try discriminate; try reflexivity;
    sf_cases.
Qed.

Lemma is_nan_spec x : is_nan x = sf_nan (Prim2SF x).
Proof.
  unfold is_nan. rewrite FloatAxioms.eqb_spec. unfold SFeqb, SFcompare.
  destruct (Prim2SF x) as [[]|[]| |[] m e]; simpl; sf_cases.
Qed.

Lemma ltb_irrefl (x : float) : (x <? x)%float = false.
Proof. rewrite ltb_spec. apply SFltb_irrefl. Qed.

Lemma ltb_trans (x y z : float) :
  (x <? y)%float = true → (y <? z)%float = true → (x <? z)%float = true.
Proof. rewrite !ltb_spec. apply SFltb_trans. Qed.

Lemma ltb_le_lt (x y z : float) :
  is_nan x = false → is_nan y = false → is_nan z = false →
  (x <? y)%float = false → (x <? z)%float = true → (y <? z)%float = true.
Proof. rewrite !is_nan_spec, !ltb_spec. apply SFltb_le_lt. Qed.


(** ** The sign of a quotient *)

Lemma SFltb_zero a : SFltb a (S754_zero false) = negb (sf_not_neg a).
Proof. by destruct a as [[]|[]| |[] m e]. Qed.

Lemma binary_round_aux_sign prec emax mx ex lx :
  sf_no_minus (binary_round_aux prec emax false mx ex lx) = true.
Proof.
  unfold binary_round_aux.
  destruct (shr_fexp _ _ _ _ _) as [mrs' e'].
  destruct (shr_fexp _ _ _ _ _) as [mrs'' e''].
  destruct (shr_m mrs''); [done| |done]. by destruct (_ <=? _)%Z.
Qed.

Lemma sf_no_minus_not_neg a : sf_no_minus a = true → sf_not_neg a = true.
Proof. by destruct a as [[]|[]| |[] m e]. Qed.

Lemma SFdiv_not_neg prec emax x y :
  sf_not_neg x = true → sf_no_minus y = true →
  sf_not_neg (SFdiv prec emax x y) = true.
Proof.
  intros Hx Hy.
  destruct x as [sx|[]| |[] mx ex], y as [[]|[]| |[] my ey];
    try done; try (by destruct sx).
  simpl. destruct (SFdiv_core_binary _ _ _ _ _ _) as [[mz ez] lz].
  apply sf_no_minus_not_neg, binary_round_aux_sign.
Qed.

(** The float of a count has no sign bit. *)
Lemma float_of_count_sign n : sf_no_minus (Prim2SF (float_of_count n)) = true.
Proof.
  unfold float_of_count. rewrite of_uint63_spec.
  pose proof (Uint63.to_Z_bounded (Uint63.of_Z (Z.of_nat n))) as [H _].
  unfold binary_normalize.
  destruct (Uint63.to_Z _) as [|m|m]; [done| |lia].
  unfold binary_round. destruct (shl_align _ _ _) as [mz ez].
  apply binary_round_aux_sign.
Qed.

Lemma ltb_zero x : (x <? 0)%float = negb (sf_not_neg (Prim2SF x)).
Proof. rewrite ltb_spec. apply SFltb_zero. Qed.

Lemma div_not_neg x n :
  (x <? 0)%float = false → (x / float_of_count n <? 0)%float = false.
Proof.
  rewrite !ltb_zero, !negb_false_iff, div_spec. intros Hx.
  apply SFdiv_not_neg; [done|apply float_of_count_sign].
Qed.

(** * Selection *)

Section Selection.
Context (T : Prop) (E : exn → Prop).
Implicit Types (s : Store) (n : Node).

Lemma logged_nil s : logged s [] = s.
Proof. destruct s. unfold logged. simpl. by rewrite app_nil_r. Qed.

Lemma logged_logged s l1 l2 : logged (logged s l1) l2 = logged s (l1 ++ l2).
Proof. unfold logged. simpl. by rewrite app_assoc. Qed.

Lemma first_unvisited_run cs s :
  (∀ c, c ∈ cs → is_Some (nodes s !! c)) →
  first_unvisited cs s = Ok (first_unvisited_of s cs, s).
Proof.
  unfold first_unvisited_of.
  induction cs as [|c cs IH]; intros Hcs; [done|].
  destruct (Hcs c) as [n Hn]; [by left|].
  assert (first_unvisited (c :: cs) s =
          if visits n =? 0 then Ok (Some c, s) else first_unvisited cs s)
    as ->.
  { simpl. unfold bind, get_node. rewrite Hn. by destruct (visits n =? 0). }
  rewrite IH by (intros c' Hc'; apply Hcs; by right).
  simpl. case_decide as Hu; unfold unvisited in Hu; rewrite Hn in Hu;
    simpl in Hu.
  - injection Hu as ->. done.
  - destruct (visits n =? 0) eqn:Hv.
    + apply Nat.eqb_eq in Hv. by rewrite Hv in Hu.
    + by destruct (list_find (unvisited s) cs) as [[i x]|].
Qed.

Lemma first_unvisited_of_Some s cs c :
  first_unvisited_of s cs = Some c ↔
  ∃ k, cs !! k = Some c ∧ unvisited s c ∧
       ∀ j c', j < k → cs !! j = Some c' → ¬ unvisited s c'.
Proof.
  unfold first_unvisited_of. split.
  - destruct (list_find _ _) as [[k c']|] eqn:Hfind; simpl; [|done].
    intros [= ->]. apply list_find_Some in Hfind as (? & ? & Hmin).
    exists k. split_and!; [done..|]. intros j c' Hj Hc'. by eapply Hmin.
  - intros (k & Hk & Hc & Hmin).
    assert (list_find (unvisited s) cs = Some (k, c)) as ->; [|done].
    apply list_find_Some. split_and!; [done..|].
    intros j c' Hc' Hj. by eapply Hmin.
Qed.

Lemma first_unvisited_of_None s cs :
  first_unvisited_of s cs = None ↔ ∀ c, c ∈ cs → ¬ unvisited s c.
Proof.
  unfold first_unvisited_of.
  destruct (list_find _ _) as [[k c']|] eqn:Hfind; simpl.
  - split; [done|]. intros Hall.
    apply list_find_Some in Hfind as (Hk & Hc & _).
    apply list_elem_of_lookup_2 in Hk. by apply Hall in Hk.
  - split; [|done]. intros _ c Hc.
    eapply list_find_None in Hfind. by eapply Forall_forall in Hfind.
Qed.

Lemma wpg_calculate_UCB1 c nc p np (Q : float → Store → Prop) s :
  nodes s !! c = Some nc → parent nc = Some p → nodes s !! p = Some np →
  1 ≤ visits nc → 1 ≤ visits np →
  Q (UCB1_score (wins nc) (visits nc) (visits np))
    (logged s [(visits nc, visits np)]) →
  wpg T E (calculate_UCB1 c) Q s.
Proof.
  intros Hc Hp Hnp Hv Hpv HQ. unfold calculate_UCB1.
  apply wpg_bind. eapply wpg_get_node; [done|]. rewrite Hp.
  apply wpg_bind. eapply wpg_get_node; [done|].
  apply wpg_bind. apply wpg_log_ucb.
  destruct (visits nc =? 0) eqn:H0; [apply Nat.eqb_eq in H0; lia|].
  destruct (visits np =? 0) eqn:H1; [apply Nat.eqb_eq in H1; lia|].
  by apply wpg_ret.
Qed.

Lemma score_of_lt s n j v : score_of s n j = Some v → j < length (children n).
Proof.
  unfold score_of. destruct (children n !! j) eqn:Hj; [|done].
  intros _. by eapply lookup_lt_Some.
Qed.

Lemma score_of_child s current n j c :
  scorable s current n → children n !! j = Some c →
  ∃ nc, nodes s !! c = Some nc ∧ parent nc = Some current ∧ 1 ≤ visits nc ∧
        score_of s n j = Some (UCB1_score (wins nc) (visits nc) (visits n)).
Proof.
  intros (Hn & Hv & Hcs) Hj.
  destruct (Hcs c) as (nc & Hnc & Hp & Hvc); [by eapply list_elem_of_lookup_2|].
  exists nc. split_and!; [done..|]. unfold score_of. rewrite Hj. simpl.
  by rewrite Hnc.
Qed.

Lemma wpg_max_UCB1_loop current n s (Q : nat → Store → Prop) m :
  scorable s current n →
  (∀ i l, first_best s n i → Forall log_entry_ok l → Q i (logged s l)) →
  ∀ k index mx l,
    k + m = length (children n) →
    score_of s n index = Some mx →
    (∀ j v, j < k → score_of s n j = Some v → (mx <? v)%float = false) →
    ((∀ j v, score_of s n j = Some v → is_nan v = false) →
     ∀ j v, j < index → score_of s n j = Some v → (v <? mx)%float = true) →
    Forall log_entry_ok l →
    wpg T E (max_UCB1_loop current (seq k m) index mx) Q (logged s l).
Proof.
  intros Hsc HQ.
  induction m as [|m IH]; intros k index mx l Hk Hidx Hle Hlt Hl.
  - simpl. apply wpg_ret. apply HQ; [|done]. exists mx. split_and!; [done| |done].
    intros j v Hv. apply (Hle j); [|done]. apply score_of_lt in Hv. lia.
  - simpl.
    destruct (lookup_lt_is_Some_2 (children n) k) as [c Hc]; [lia|].
    destruct (score_of_child s current n k c Hsc Hc)
      as (nc & Hnc & Hp & Hvc & Hscore).
    destruct Hsc as (Hn & Hvn & Hcs).
    apply wpg_bind. eapply wpg_child_at; [done..|].
    apply wpg_bind. eapply wpg_calculate_UCB1; [done..|].
    rewrite logged_logged.
    assert (Forall log_entry_ok (l ++ [(visits nc, visits n)])) as Hl'.
    { apply Forall_app. split; [done|]. by repeat constructor. }
    destruct (mx <? UCB1_score _ _ _)%float eqn:Hgt.
    + apply IH; [lia|done| | |done].
      * intros j v Hj Hv. destruct (decide (j = k)) as [->|Hne].
        { rewrite Hscore in Hv. injection Hv as <-. apply ltb_irrefl. }
        destruct (UCB1_score _ _ _ <? v)%float eqn:Hv'; [|done].
        rewrite <- (Hle j v); [|lia|done]. symmetry.
        by eapply ltb_trans.
      * intros Hnan j v Hj Hv.
        apply (ltb_le_lt mx); [by eapply Hnan..| |done].
        apply (Hle j); [lia|done].
    + apply IH; [lia|done| |done|done].
      intros j v Hj Hv. destruct (decide (j = k)) as [->|Hne].
      { rewrite Hscore in Hv. by injection Hv as <-. }
      apply (Hle j); [lia|done].
Qed.

Lemma wpg_max_UCB1_index current n s (Q : nat → Store → Prop) :
  scorable s current n → children n ≠ [] →
  (∀ i l, first_best s n i → Forall log_entry_ok l → Q i (logged s l)) →
  wpg T E (max_UCB1_index current) Q s.
Proof.
  intros Hsc Hne HQ. unfold max_UCB1_index.
  destruct (children n) as [|c0 cs] eqn:Hcs; [done|].
  destruct (score_of_child s current n 0 c0 Hsc) as (nc & Hnc & Hp & Hvc & Hscore);
    [by rewrite Hcs|].
  pose proof Hsc as (Hn & Hvn & _).
  apply wpg_bind. eapply wpg_child_at; [done|by rewrite Hcs|].
  apply wpg_bind. eapply wpg_calculate_UCB1; [done..|].
  apply wpg_bind. eapply wpg_get_node; [done|].
  eapply wpg_max_UCB1_loop; [done..|by rewrite Hcs|done| | |].
  - intros j v Hj. lia.
  - intros _ j v Hj. lia.
  - by repeat constructor.
Qed.
End Selection.

Section Traverse.
Context (T : Prop) (E : exn → Prop).
Implicit Types (s : Store) (n : Node).

Lemma tree_ok_logged s l : tree_ok s → tree_ok (logged s l).
Proof. intros [H1 H2 H3 H4 H5 H6 H7]. by split. Qed.

Lemma tree_ok_scorable s current n :
  tree_ok s → nodes s !! current = Some n → children n ≠ [] →
  (∀ c, c ∈ children n → ¬ unvisited s c) →
  scorable s current n.
Proof.
  intros Hok Hn Hne Hvis. split_and!; [done| |].
  - destruct (visits n) eqn:Hv; [|lia].
    by apply (tree_unvisited s Hok current n Hn) in Hv.
  - intros c Hc. destruct (tree_children s Hok current n c Hn Hc)
      as (_ & nc & Hnc & Hp).
    exists nc. split_and!; [done..|].
    destruct (visits nc) eqn:Hv; [|lia]. exfalso. apply (Hvis c Hc).
    unfold unvisited. rewrite Hnc. simpl. by rewrite Hv.
Qed.

Lemma wpg_traverse_rec fuel :
  ∀ current s (Q : nat → Store → Prop),
    tree_ok s → is_Some (nodes s !! current) →
    T ∨ length (nodes s) ≤ current + fuel →
    (∀ r nr l, nodes s !! r = Some nr → children nr = [] →
               (∀ n, nodes s !! current = Some n → children n = [] →
                     r = current) →
               Forall log_entry_ok l → Q r (logged s l)) →
    wpg T E (traverse_rec fuel current) Q s.
Proof.
  induction fuel as [|fuel IH]; intros current s Q Hok [n Hn] Hfuel HQ.
  - apply wpg_out_of_fuel. destruct Hfuel as [?|Hlen]; [done|].
    apply lookup_lt_Some in Hn. lia.
  - simpl. apply wpg_bind. eapply wpg_get_node; [done|].
    destruct (children n) as [|c0 cs] eqn:Hcs.
    { apply wpg_ret. rewrite <- (logged_nil s). by eapply HQ. }
    assert (∀ r n0, nodes s !! current = Some n0 → children n0 = [] →
                    r = current) as Hcur.
    { intros r n0 Hn0 Hnil. congruence. }
    rewrite <- Hcs.
    assert (∀ c, c ∈ children n → is_Some (nodes s !! c)) as Hvalid.
    { intros c Hc. destruct (tree_children s Hok current n c Hn Hc)
        as (_ & nc & Hnc & _). eauto. }
    apply wpg_bind. eapply wpg_of_ok; [by apply first_unvisited_run|].
    destruct (first_unvisited_of s (children n)) as [child|] eqn:Hfirst.
    + apply wpg_ret.
      apply first_unvisited_of_Some in Hfirst as (k & Hk & Hun & _).
      unfold unvisited in Hun.
      destruct (nodes s !! child) as [nc|] eqn:Hnc; [|done].
      injection Hun as Hv. rewrite <- (logged_nil s).
      eapply HQ; [done| |by apply Hcur|done]. by eapply tree_unvisited.
    + pose proof (proj1 (first_unvisited_of_None s (children n)) Hfirst) as Hvis.
      apply wpg_bind. eapply wpg_max_UCB1_index;
        [by apply tree_ok_scorable; [| |rewrite Hcs|]|by rewrite Hcs|].
      intros i l (u & Hu & _) Hl.
      apply score_of_lt in Hu.
      destruct (lookup_lt_is_Some_2 (children n) i Hu) as [c Hc].
      apply wpg_bind. eapply wpg_child_at; [done..|].
      destruct (tree_children s Hok current n c Hn)
        as (Hlt & nc & Hnc & _); [by eapply list_elem_of_lookup_2|].
      apply IH; [by apply tree_ok_logged|by eauto| |].
      * destruct Hfuel as [?|Hlen]; [by left|right]. simpl. lia.
      * intros r nr l' Hr Hnr _ Hl'. rewrite logged_logged.
        eapply HQ; [done|done|by apply Hcur|]. by apply Forall_app.
Qed.
End Traverse.

(** * A larger bound does not change a result *)

Section Mono.
Lemma mle_refl {A : Type} (m : M A) : mle m m.
Proof. by intros s r. Qed.

Lemma mle_bind {A B : Type} (m m' : M A) (f f' : A → M B) :
  mle m m' → (∀ a, mle (f a) (f' a)) → mle (bind m f) (bind m' f').
Proof.
  intros Hm Hf s r. unfold bind.
  destruct (m s) as [[a s1]| |] eqn:Hms; [|done..].
  rewrite (Hm s _ Hms). apply Hf.
Qed.

Lemma mle_out_of_fuel {A : Type} (m : M A) : mle out_of_fuel m.
Proof. by intros s r. Qed.

Lemma traverse_rec_mono n n' current :
  n ≤ n' → mle (traverse_rec n current) (traverse_rec n' current).
Proof.
  revert n' current. induction n as [|n IH]; intros n' current Hle.
  { apply mle_out_of_fuel. }
  destruct n' as [|n']; [lia|]. simpl.
  apply mle_bind; [apply mle_refl|]. intros cur.
  destruct (children cur); [apply mle_refl|].
  apply mle_bind; [apply mle_refl|]. intros [child|]; [apply mle_refl|].
  apply mle_bind; [apply mle_refl|]. intros i.
  apply mle_bind; [apply mle_refl|]. intros c. apply IH. lia.
Qed.

Lemma resample_mono rnd n n' g rr rc :
  n ≤ n' → mle (resample rnd n g rr rc) (resample rnd n' g rr rc).
Proof.
  revert n' rr rc. induction n as [|n IH]; intros n' rr rc Hle.
  { apply mle_out_of_fuel. }
  destruct n' as [|n']; [lia|]. simpl.
  apply mle_bind; [apply mle_refl|]. intros c.
  destruct (is_X c); [apply mle_refl|].
  apply mle_bind; [apply mle_refl|]. intros rr'.
  apply mle_bind; [apply mle_refl|]. intros rc'. apply IH. lia.
Qed.

Lemma rollout_loop_mono rnd fuel fuel' n n' g p :
  fuel ≤ fuel' → n ≤ n' →
  mle (rollout_loop fuel rnd n g p) (rollout_loop fuel' rnd n' g p).
Proof.
  intros Hfuel. revert n' p. induction n as [|n IH]; intros n' p Hle.
  { apply mle_out_of_fuel. }
  destruct n' as [|n']; [lia|]. simpl.
  apply mle_bind; [apply mle_refl|]. intros b.
  apply mle_bind; [apply mle_refl|]. intros w.
  destruct (negb w && negb (check_for_draw b)); [|apply mle_refl].
  apply mle_bind; [apply mle_refl|]. intros rr.
  apply mle_bind; [apply mle_refl|]. intros rc.
  apply mle_bind; [by apply resample_mono|]. intros rc'.
  apply mle_bind; [apply mle_refl|]. intros _. apply IH. lia.
Qed.

Lemma rollout_mono rnd fuel fuel' g p :
  fuel ≤ fuel' → mle (rollout fuel rnd g p) (rollout fuel' rnd g p).
Proof.
  intros Hle. unfold rollout. apply mle_bind; [apply mle_refl|].
  intros c. by apply rollout_loop_mono.
Qed.

Lemma back_propagate_loop_mono n n' current r :
  n ≤ n' →
  mle (back_propagate_loop n current r) (back_propagate_loop n' current r).
Proof.
  revert n' current. induction n as [|n IH]; intros n' current Hle.
  { destruct current; [apply mle_out_of_fuel|]. destruct n'; apply mle_refl. }
  destruct n' as [|n']; [lia|]. simpl.
  destruct current as [cur|]; [|apply mle_refl].
  case_bool_decide.
  - repeat (apply mle_bind; [apply mle_refl|]; intros ?). apply IH. lia.
  - repeat (apply mle_bind; [apply mle_refl|]; intros ?). apply IH. lia.
Qed.

Lemma iteration_mono rnd fuel fuel' root :
  fuel ≤ fuel' → mle (iteration fuel rnd root) (iteration fuel' rnd root).
Proof.
  intros Hle. unfold iteration.
  apply mle_bind; [by apply traverse_rec_mono|]. intros current.
  apply mle_bind; [apply mle_refl|]. intros cur.
  destruct (_ || _).
  - apply mle_bind; [by apply rollout_mono|]. intros r.
    by apply back_propagate_loop_mono.
  - apply mle_bind; [apply mle_refl|]. intros _.
    apply mle_bind; [apply mle_refl|]. intros child.
    apply mle_bind; [apply mle_refl|]. intros ch.
    apply mle_bind; [by apply rollout_mono|]. intros r.
    by apply back_propagate_loop_mono.
Qed.

Lemma iterations_mono rnd fuel fuel' k root :
  fuel ≤ fuel' → mle (iterations fuel rnd k root) (iterations fuel' rnd k root).
Proof.
  intros Hle. induction k as [|k IH]; simpl; [apply mle_refl|].
  apply mle_bind; [by apply iteration_mono|]. by intros _.
Qed.

Lemma make_comp_move_mono rnd fuel fuel' state num :
  fuel ≤ fuel' →
  mle (make_comp_move fuel rnd state num) (make_comp_move fuel' rnd state num).
Proof.
  intros Hle. unfold make_comp_move.
  apply mle_bind; [apply mle_refl|]. intros root.
  apply mle_bind; [by apply iterations_mono|]. intros _. apply mle_refl.
Qed.
End Mono.

(** * Expansion *)

Section ForEach.
Context {A : Type}.

Lemma for_each_ext (l : list A) (f g : A → M unit) s :
  (∀ a s', f a s' = g a s') → for_each l f s = for_each l g s.
Proof.
  intros Hfg. revert s. induction l as [|a l IH]; intros s; simpl; [done|].
  unfold bind. rewrite Hfg. by destruct (g a s) as [[[] s']| |].
Qed.

Lemma for_each_app (l1 l2 : list A) (f : A → M unit) s :
  for_each (l1 ++ l2) f s = bind (for_each l1 f) (λ _, for_each l2 f) s.
Proof.
  revert s. induction l1 as [|a l1 IH]; intros s; simpl; [done|].
  unfold bind. destruct (f a s) as [[[] s']| |]; [|done..].
  rewrite IH. done.
Qed.

Lemma for_each_fmap {B : Type} (g : B → A) (l : list B) (f : A → M unit) s :
  for_each (g <$> l) f s = for_each l (λ b, f (g b)) s.
Proof.
  revert s. induction l as [|a l IH]; intros s; simpl; [done|].
  unfold bind. by destruct (f (g a) s) as [[[] s']| |].
Qed.

Lemma for_each_bind {B : Type} (k : B → list A) (l : list B)
    (f : A → M unit) s :
  for_each (l ≫= k) f s = for_each l (λ b, for_each (k b) f) s.
Proof.
  revert s. induction l as [|a l IH]; intros s; [done|].
  rewrite bind_cons, for_each_app. simpl. unfold bind.
  by destruct (for_each (k a) f s) as [[[] s']| |].
Qed.
End ForEach.
Section Expand.
Context (T : Prop) (E : exn → Prop).
Implicit Types (s : Store) (n : Node) (b : board).

Lemma wpg_expand_cell s current cgs x y nk b (Q : unit → Store → Prop) :
  nodes s !! current = Some nk → boards s !! cgs = Some b →
  getitem2 b x y = Ok X →
  E IndexError ∨ is3x3 b = true →
  (let p := next_player (player nk) in
   let bc := set_cell b x y (Mark p) in
   Q tt (mkStore
           (<[current := append_child (length (nodes s)) nk]> (nodes s)
            ++ [mkNode 0 0 [] (Some current) (length (boards s)) p
                       (end_flag bc p)])
           (boards s ++ [bc]) (cursor s) (ucb_log s))) →
  wpg T E (expand_cell current cgs x y) Q s.
Proof.
  destruct s as [ns bs cu lg]. simpl. intros Hn Hb Hget Hmode HQ.
  set (p := next_player (player nk)) in *.
  set (bc := set_cell b x y (Mark p)) in *.
  unfold expand_cell.
  apply wpg_bind. eapply wpg_getitem; [done..|]. simpl.
  apply wpg_bind. eapply wpg_get_node; [done|].
  fold (next_player (player nk)). fold p.
  apply wpg_bind. eapply wpg_deepcopy; [done|].
  unfold with_boards, with_nodes; cbn [nodes boards cursor ucb_log].
  assert (∀ b1 b2 : board, <[length bs := b2]> (bs ++ [b1]) = bs ++ [b2]) as Hinsb.
  { intros b1 b2. by rewrite <- (Nat.add_0_r (length bs)), insert_app_r. }
  apply wpg_bind. eapply wpg_setitem; [|done|].
  { cbn. apply list_lookup_middle. done. }
  unfold with_boards, with_nodes; cbn [nodes boards cursor ucb_log].
  rewrite Hinsb.
  apply wpg_bind. apply wpg_new_node.
  unfold with_boards, with_nodes; cbn [nodes boards cursor ucb_log].
  set (nd0 := mkNode 0 0 [] (Some current) (length bs) p false).
  assert (∀ nd : Node, (ns ++ [nd]) !! length ns = Some nd) as Hlast.
  { intros nd. by apply list_lookup_middle. }
  assert (∀ nd nd' : Node, <[length ns := nd']> (ns ++ [nd]) = ns ++ [nd']) as Hins.
  { intros nd nd'. by rewrite <- (Nat.add_0_r (length ns)), insert_app_r. }
  assert ((bs ++ [bc]) !! length bs = Some bc) as Hbc by (by apply list_lookup_middle).
  apply wpg_bind. eapply wpg_get_node; [apply Hlast|].
  apply wpg_bind. eapply wpg_get_board; [apply Hbc|].
  set (nd1 := mkNode 0 0 [] (Some current) (length bs) p (check_for_draw bc)).
  apply wpg_bind.
  apply wpg_mono with (Q := λ _ s', s' = mkStore (ns ++ [nd1]) (bs ++ [bc]) cu lg).
  { unfold nd1. destruct (check_for_draw bc) eqn:Hd.
    - eapply wpg_upd_node; [apply Hlast|].
      unfold with_nodes; cbn [nodes boards cursor ucb_log]. by rewrite Hins.
    - by apply wpg_ret. }
  intros _ s' ->.
  apply wpg_bind. eapply wpg_get_node; [apply Hlast|].
  apply wpg_bind. eapply wpg_get_board; [apply Hbc|].
  apply wpg_bind. apply wpg_lift.
  pose proof (index_result_check_for_win bc p) as Hres.
  destruct (check_for_win bc p) as [w|e|] eqn:Hw; simpl in Hres; [| |done].
  2:{ subst e. destruct Hmode as [?|H3]; [done|].
      destruct (check_for_win_3x3 bc p) as [w' Hw']; [by apply set_cell_3x3|].
      congruence. }
  set (nd2 := mkNode 0 0 [] (Some current) (length bs) p (end_flag bc p)).
  apply wpg_bind.
  apply wpg_mono with (Q := λ _ s', s' = mkStore (ns ++ [nd2]) (bs ++ [bc]) cu lg).
  { unfold nd2, end_flag. rewrite Hw. destruct w.
    - eapply wpg_upd_node; [apply Hlast|].
      unfold with_nodes; cbn [nodes boards cursor ucb_log]. rewrite Hins.
      unfold nd1, set_end_state. cbn. by rewrite orb_true_r.
    - apply wpg_ret. unfold nd1. by rewrite orb_false_r. }
  intros _ s' ->.
  eapply wpg_upd_node.
  { cbn. rewrite lookup_app_l; [done|]. by eapply lookup_lt_Some. }
  unfold with_nodes; cbn [nodes boards cursor ucb_log].
  rewrite insert_app_l by (by eapply lookup_lt_Some). done.
Qed.

Lemma expand_flat current s :
  expand current s =
  (cur <- get_node current ;
   current_game_state <- deepcopy (game_state cur) ;
   grid <- get_board current_game_state ;
   for_each (coords grid)
     (λ xy, expand_cell current current_game_state xy.1 xy.2)) s.
Proof.
  unfold expand, bind. destruct (get_node current s) as [[cur s1]| |]; [|done..].
  destruct (deepcopy _ s1) as [[cgs s2]| |]; [|done..].
  destruct (get_board cgs s2) as [[grid s3]| |]; [|done..].
  unfold coords. rewrite for_each_bind. apply for_each_ext. intros xrow s4.
  by rewrite for_each_fmap.
Qed.

Lemma append_children_snoc cs c n :
  append_children (cs ++ [c]) n = append_child c (append_children cs n).
Proof. unfold append_children, append_child. simpl. by rewrite app_assoc. Qed.

Lemma expanded_with_nil s current n b :
  nodes s !! current = Some n →
  expanded_with s current n b [] = with_boards (λ h, h ++ [b]) s.
Proof.
  intros Hn. unfold expanded_with, with_boards. simpl. f_equal.
  rewrite app_nil_r. apply list_insert_id. rewrite Hn. f_equal.
  destruct n. unfold append_children. simpl. by rewrite app_nil_r.
Qed.

Lemma expanded_with_snoc s current n b cells xy :
  nodes s !! current = Some n →
  let S0 := expanded_with s current n b cells in
  let nk := append_children (seq (length (nodes s)) (length cells)) n in
  let p := next_player (player nk) in
  let bc := set_cell b xy.1 xy.2 (Mark p) in
  mkStore
    (<[current := append_child (length (nodes S0)) nk]> (nodes S0)
     ++ [mkNode 0 0 [] (Some current) (length (boards S0)) p (end_flag bc p)])
    (boards S0 ++ [bc]) (cursor S0) (ucb_log S0)
  = expanded_with s current n b (cells ++ [xy]).
Proof.
  intros Hn. simpl. unfold expanded_with. simpl.
  assert (current < length (nodes s)) as Hlt by (by eapply lookup_lt_Some).
  f_equal.
  - rewrite insert_app_l by (by rewrite length_insert).
    rewrite list_insert_insert_eq.
    rewrite length_app, length_insert, length_imap.
    rewrite (length_app cells), seq_app. cbn [length seq].
    rewrite append_children_snoc.
    rewrite imap_app. simpl. rewrite <- app_assoc. do 3 f_equal.
    unfold new_child, child_board. f_equal.
    rewrite length_app. simpl. rewrite length_fmap. lia.
  - rewrite fmap_app. simpl. by rewrite <- app_assoc.
Qed.

Lemma wpg_expand s current n b (Q : unit → Store → Prop) :
  nodes s !! current = Some n → boards s !! game_state n = Some b →
  E IndexError ∨ is3x3 b = true →
  Q tt (expanded s current n b) →
  wpg T E (expand current) Q s.
Proof.
  intros Hn Hb Hmode HQ. unfold wpg. rewrite expand_flat.
  change (wpg T E
    (cur <- get_node current ;
     current_game_state <- deepcopy (game_state cur) ;
     grid <- get_board current_game_state ;
     for_each (coords grid)
       (λ xy, expand_cell current current_game_state xy.1 xy.2)) Q s).
  apply wpg_bind. eapply wpg_get_node; [done|].
  apply wpg_bind. eapply wpg_deepcopy; [done|].
  apply wpg_bind. eapply wpg_get_board.
  { simpl. by apply list_lookup_middle. }
  eapply wpg_mono.
  - apply (wpg_for_each T E
      (λ pre s', s' = expanded_with s current n b
                        (filter (λ xy, cell_of b xy = Some X) pre))).
    + by rewrite filter_nil, expanded_with_nil.
    + intros pre xy post s1 Hcoords ->.
      assert (xy ∈ coords b) as [c Hc]%elem_of_coords.
      { rewrite Hcoords. apply elem_of_app. right. by left. }
      rewrite filter_app, filter_cons, filter_nil.
      set (cells := filter _ pre).
      pose proof (proj2 (getitem2_cell_of b xy.1 xy.2 c)) as Hget.
      destruct xy as [x y]. simpl in Hget. specialize (Hget Hc).
      destruct (decide (c = X)) as [->|Hne].
      * rewrite decide_True by done.
        eapply wpg_expand_cell; [| |done|done|].
        -- simpl. rewrite lookup_app_l by
             (rewrite length_insert; by eapply lookup_lt_Some).
           apply list_lookup_insert_eq. by eapply lookup_lt_Some.
        -- simpl. by apply list_lookup_middle.
        -- by rewrite <- (expanded_with_snoc s current n b cells (x, y)).
      * rewrite decide_False by congruence. rewrite app_nil_r.
        unfold expand_cell. apply wpg_bind. eapply wpg_getitem; [|done|].
        { simpl. by apply list_lookup_middle. }
        assert (is_X c = false) as -> by (by apply bool_decide_eq_false).
        by apply wpg_ret.
  - by intros [] s' ->.
Qed.
End Expand.
Section Expanded.
Implicit Types (s : Store) (n nd : Node) (b : board).

Lemma expanded_nodes_length s current n b cells :
  length (nodes (expanded_with s current n b cells)) =
    length (nodes s) + length cells.
Proof. simpl. by rewrite length_app, length_insert, length_imap. Qed.

Lemma expanded_boards_length s current n b cells :
  length (boards (expanded_with s current n b cells)) =
    length (boards s) + 1 + length cells.
Proof. simpl. rewrite length_app. simpl. rewrite length_fmap. lia. Qed.

Lemma expanded_nodes_lookup s current n b cells i nd :
  nodes s !! current = Some n →
  nodes (expanded_with s current n b cells) !! i = Some nd ↔
    (i = current ∧
     nd = append_children (seq (length (nodes s)) (length cells)) n) ∨
    (i ≠ current ∧ nodes s !! i = Some nd) ∨
    (∃ j xy, i = length (nodes s) + j ∧ cells !! j = Some xy ∧
             nd = new_child current (length (boards s)) b
                    (next_player (player n)) j xy).
Proof.
  intros Hn. simpl.
  assert (current < length (nodes s)) as Hlt by (by eapply lookup_lt_Some).
  destruct (decide (i < length (nodes s))) as [Hi|Hi].
  - rewrite lookup_app_l by (by rewrite length_insert).
    destruct (decide (i = current)) as [->|Hne].
    + rewrite list_lookup_insert_eq by done. split.
      * intros [= <-]. by left.
      * intros [[_ ->]|[[? _]|(j & xy & ? & _)]]; [done|done|lia].
    + rewrite list_lookup_insert_ne by done. split.
      * intros ?. right. by left.
      * intros [[? _]|[[_ ?]|(j & xy & ? & _)]]; [done|done|lia].
  - rewrite lookup_app_r by (rewrite length_insert; lia).
    rewrite length_insert, list_lookup_imap. split.
    + intros Hl. right. right.
      destruct (cells !! (i - length (nodes s))) as [xy|] eqn:Hxy; [|done].
      injection Hl as <-. exists (i - length (nodes s)), xy.
      split_and!; [lia|done|done].
    + intros [[-> _]|[[_ Hl]|(j & xy & -> & Hj & ->)]].
      * lia.
      * apply lookup_lt_Some in Hl. lia.
      * replace (length (nodes s) + j - length (nodes s)) with j by lia.
        by rewrite Hj.
Qed.

Lemma expanded_boards_old s current n b cells r :
  r < length (boards s) →
  boards (expanded_with s current n b cells) !! r = boards s !! r.
Proof. intros Hr. simpl. by rewrite lookup_app_l. Qed.

Lemma expanded_boards_new s current n b cells j xy :
  cells !! j = Some xy →
  boards (expanded_with s current n b cells) !! (length (boards s) + 1 + j) =
    Some (child_board b (next_player (player n)) xy).
Proof.
  intros Hj. simpl. rewrite lookup_app_r by lia.
  replace (length (boards s) + 1 + j - length (boards s)) with (S j) by lia.
  simpl. rewrite list_lookup_fmap. by rewrite Hj.
Qed.

Lemma tree_ok_expanded s current n b cells :
  tree_ok s → nodes s !! current = Some n → visits n ≠ 0 →
  tree_ok (expanded_with s current n b cells).
Proof.
  intros Hok Hn Hv.
  assert (current < length (nodes s)) as Hlt by (by eapply lookup_lt_Some).
  pose proof (λ i nd, expanded_nodes_lookup s current n b cells i nd Hn)
    as Hlook.
  split.
  - intros i nd c Hi Hc.
    apply Hlook in Hi as [[-> ->]|[[Hne Hi]|(j & xy & -> & Hj & ->)]];
      [| |by apply elem_of_nil in Hc].
    + simpl in Hc. apply elem_of_app in Hc as [Hc|Hc].
      * destruct (tree_children s Hok current n c Hn Hc) as (Hcur & nc & Hnc & Hp).
        split; [done|]. exists nc. split; [|done]. apply Hlook.
        right; left. split; [lia|done].
      * apply elem_of_seq in Hc. split; [lia|].
        destruct (lookup_lt_is_Some_2 cells (c - length (nodes s))) as [xy Hxy];
          [lia|].
        exists (new_child current (length (boards s)) b
                  (next_player (player n)) (c - length (nodes s)) xy).
        split; [|done]. apply Hlook. right; right.
        exists (c - length (nodes s)), xy. split_and!; [lia|done|done].
    + destruct (tree_children s Hok i nd c Hi Hc) as (Hic & nc & Hnc & Hp).
      split; [done|].
      destruct (decide (c = current)) as [->|Hcne].
      * exists (append_children (seq (length (nodes s)) (length cells)) n).
        split; [apply Hlook; by left|].
        simpl. congruence.
      * exists nc. split; [|done]. apply Hlook. right; by left.
  - intros i nd p Hi Hp.
    apply Hlook in Hi as [[-> ->]|[[Hne Hi]|(j & xy & -> & Hj & ->)]];
      [by eapply (tree_parent s Hok current n)
      |by eapply (tree_parent s Hok i nd)|].
    simpl in Hp. injection Hp as <-. lia.
  - intros i nd Hi Hp.
    apply Hlook in Hi as [[-> ->]|[[Hne Hi]|(j & xy & -> & Hj & ->)]];
      [by eapply (tree_root s Hok current n)
      |by eapply (tree_root s Hok i nd)|done].
  - intros i nd Hi Hvis.
    apply Hlook in Hi as [[-> ->]|[[Hne Hi]|(j & xy & -> & Hj & ->)]];
      [done|by eapply (tree_unvisited s Hok i nd)|done].
  - intros i nd Hi. rewrite expanded_boards_length.
    apply Hlook in Hi as [[-> ->]|[[Hne Hi]|(j & xy & -> & Hj & ->)]]; simpl.
    + pose proof (tree_board s Hok current n Hn). lia.
    + pose proof (tree_board s Hok i nd Hi). lia.
    + apply lookup_lt_Some in Hj. lia.
  - intros i j ni nj Hi Hj Heq.
    apply Hlook in Hi as [[-> ->]|[[Hne Hi]|(ji & xyi & -> & Hji & ->)]];
    apply Hlook in Hj as [[-> ->]|[[Hne' Hj]|(jj & xyj & -> & Hjj & ->)]];
      simpl in Heq; try done.
    + by eapply (tree_own_board s Hok current j n nj).
    + pose proof (tree_board s Hok current n Hn). lia.
    + by eapply (tree_own_board s Hok i current ni n).
    + by eapply (tree_own_board s Hok i j ni nj).
    + pose proof (tree_board s Hok i ni Hi). lia.
    + pose proof (tree_board s Hok current n Hn). lia.
    + pose proof (tree_board s Hok j nj Hj). lia.
    + f_equal. lia.
  - intros i nd Hi.
    apply Hlook in Hi as [[-> ->]|[[Hne Hi]|(j & xy & -> & Hj & ->)]];
      [|by eapply tree_nodup|constructor].
    simpl. apply NoDup_app. split_and!.
    + by eapply tree_nodup.
    + intros c Hc Hc'%elem_of_seq.
      destruct (tree_children s Hok current n c Hn Hc) as (_ & nc & Hnc & _).
      apply lookup_lt_Some in Hnc. lia.
    + apply NoDup_seq.
Qed.

Lemma keeps_boards_expanded s current n b cells :
  keeps_boards s (expanded_with s current n b cells).
Proof.
  intros r b' Hr. rewrite expanded_boards_old; [done|].
  by eapply lookup_lt_Some.
Qed.

Lemma keeps_stats_expanded s current n b cells :
  nodes s !! current = Some n →
  keeps_stats s (expanded_with s current n b cells).
Proof.
  intros Hn i nd Hi.
  pose proof (λ i nd, expanded_nodes_lookup s current n b cells i nd Hn)
    as Hlook.
  destruct (decide (i = current)) as [->|Hne].
  - exists (append_children (seq (length (nodes s)) (length cells)) n).
    split; [apply Hlook; by left|]. by simplify_eq.
  - exists nd. split; [apply Hlook; right; by left|done].
Qed.

Lemma keeps_tree_expanded s current n b cells :
  nodes s !! current = Some n → children n = [] →
  keeps_tree s (expanded_with s current n b cells).
Proof.
  intros Hn Hcs i nd Hi.
  pose proof (λ i nd, expanded_nodes_lookup s current n b cells i nd Hn)
    as Hlook.
  destruct (decide (i = current)) as [->|Hne].
  - exists (append_children (seq (length (nodes s)) (length cells)) n).
    split; [apply Hlook; by left|]. by simplify_eq.
  - exists nd. split; [apply Hlook; right; by left|done].
Qed.

Lemma expanded_children s current n b cells :
  nodes s !! current = Some n →
  ∃ n', nodes (expanded_with s current n b cells) !! current = Some n' ∧
        children n' = children n ++ seq (length (nodes s)) (length cells) ∧
        visits n' = visits n ∧ is_end_state n' = is_end_state n ∧
        game_state n' = game_state n ∧ player n' = player n.
Proof.
  intros Hn.
  exists (append_children (seq (length (nodes s)) (length cells)) n).
  split; [|done]. apply expanded_nodes_lookup; [done|]. by left.
Qed.

Lemma boards_ok_expanded s current n b :
  tree_ok s → boards_ok s → nodes s !! current = Some n →
  boards s !! game_state n = Some b →
  boards_ok (expanded s current n b).
Proof.
  intros Hok Hbo Hn Hb. unfold expanded.
  set (cells := empties b).
  pose proof (λ i nd, expanded_nodes_lookup s current n b cells i nd Hn)
    as Hlook.
  assert (is3x3 b = true) as H3.
  { destruct (bo_shape s Hbo current n Hn) as (b' & Hb' & H3). congruence. }
  assert (∀ i nd, nodes s !! i = Some nd → ∀ bd,
            boards (expanded_with s current n b cells) !! game_state nd = Some bd ↔
            boards s !! game_state nd = Some bd) as Hold.
  { intros i nd Hi bd. rewrite expanded_boards_old; [done|].
    by eapply tree_board. }
  assert (∀ j xy, cells !! j = Some xy → cell_of b xy = Some X) as Hcells.
  { intros j xy Hj. apply elem_of_empties. by eapply list_elem_of_lookup_2. }
  split.
  - intros i nd Hi.
    apply Hlook in Hi as [[-> ->]|[[Hne Hi]|(j & xy & -> & Hj & ->)]].
    + exists b. split; [|done]. simpl. by apply (Hold current n).
    + destruct (bo_shape s Hbo i nd Hi) as (b' & Hb' & H3').
      exists b'. split; [|done]. by apply (Hold i nd).
    + eexists. split; [by apply expanded_boards_new|]. by apply set_cell_3x3.
  - intros i nd bd Hi Hbd Hi0.
    apply Hlook in Hi as [[-> ->]|[[Hne Hi]|(j & xy & -> & Hj & ->)]].
    + simpl in *. apply (Hold current n Hn) in Hbd.
      by eapply (bo_flag s Hbo current n).
    + apply (Hold i nd Hi) in Hbd. by eapply (bo_flag s Hbo i nd).
    + pose proof (expanded_boards_new s current n b cells j xy Hj) as Hnew.
      assert (bd = child_board b (next_player (player n)) xy) as ->; [|done].
      apply (inj Some). rewrite <- Hbd. exact Hnew.
  - intros nd bd Hi Hbd.
    apply Hlook in Hi as [[Hcur ->]|[[Hne Hi]|(j & xy & Hj0 & Hj & ->)]].
    + simpl in *. subst current. apply (Hold 0 n Hn) in Hbd.
      by eapply (bo_root s Hbo n).
    + apply (Hold 0 nd Hi) in Hbd. by eapply (bo_root s Hbo nd).
    + apply lookup_lt_Some in Hn. lia.
  - intros i nd c nc bd bc Hi Hc Hnc Hbd Hbc.
    assert (∀ i' nd' c' nc', nodes s !! i' = Some nd' → c' ∈ children nd' →
              nodes s !! c' = Some nc' → game_state nc' = game_state nc →
              player nc' = player nc →
              boards (expanded_with s current n b cells) !! game_state nd' = Some bd →
              ∃ xy, cell_of bd xy = Some X ∧ bc = child_board bd (player nc) xy)
      as Hcase.
    { intros i' nd' c' nc' Hi' Hc' Hnc' Hgs Hpl Hbd'.
      apply (Hold i' nd' Hi') in Hbd'. rewrite <- Hgs in Hbc.
      apply (Hold c' nc' Hnc') in Hbc. rewrite <- Hpl.
      by eapply (bo_child s Hbo i' nd' c' nc'). }
    apply Hlook in Hi as [[-> ->]|[[Hne Hi]|(j & xy & -> & Hj & ->)]];
      [| |by apply elem_of_nil in Hc].
    + simpl in Hc, Hbd. apply elem_of_app in Hc as [Hc|Hc].
      * destruct (tree_children s Hok current n c Hn Hc) as (Hlt & nc0 & Hnc0 & _).
        apply Hlook in Hnc as [[-> ->]|[[Hne Hnc]|(j & xy & -> & Hj & ->)]].
        -- lia.
        -- by eapply (Hcase current n c nc).
        -- apply lookup_lt_Some in Hnc0. lia.
      * apply elem_of_seq in Hc.
        apply Hlook in Hnc as [[-> ->]|[[Hne Hnc]|(j & xy & -> & Hj & ->)]].
        -- apply lookup_lt_Some in Hn. lia.
        -- apply lookup_lt_Some in Hnc. lia.
        -- pose proof (expanded_boards_new s current n b cells j xy Hj) as Hnew.
           assert (bc = child_board b (next_player (player n)) xy) as ->.
           { apply (inj Some). rewrite <- Hbc. exact Hnew. }
           apply (Hold current n Hn) in Hbd.
           assert (bd = b) as -> by congruence.
           exists xy. split; [by eapply Hcells|done].
    + destruct (tree_children s Hok i nd c Hi Hc) as (Hlt & nc0 & Hnc0 & _).
      apply Hlook in Hnc as [[-> ->]|[[Hne' Hnc]|(j & xy & -> & Hj & ->)]].
      * by eapply (Hcase i nd current n).
      * by eapply (Hcase i nd c nc).
      * apply lookup_lt_Some in Hnc0. lia.
Qed.
End Expanded.
(** * Simulation *)

Section Rollout.
Context (rnd : nat → nat).
Implicit Types (s : Store) (b : board).

Lemma mod3_lt k : k mod 3 < 3.
Proof. apply Nat.mod_upper_bound. lia. Qed.

Lemma wpg_resample (E : exn → Prop) g b n :
  ∀ rr rc s (Q : nat * nat → Store → Prop),
    boards s !! g = Some b → rr < 3 → rc < 3 →
    E IndexError ∨ is3x3 b = true →
    (∀ xy k, getitem2 b xy.1 xy.2 = Ok X →
             Q xy (mkStore (nodes s) (boards s) (cursor s + k) (ucb_log s))) →
    wpg True E (resample rnd n g rr rc) Q s.
Proof.
  induction n as [|n IH]; intros rr rc s Q Hb Hrr Hrc Hmode HQ; [done|].
  simpl. apply wpg_bind. unfold getitem. apply wpg_bind.
  eapply wpg_get_board; [done|]. apply wpg_lift.
  destruct (getitem2_cases b rr rc) as [[c Hc]|Hc]; rewrite Hc.
  2:{ destruct Hmode as [?|H3]; [done|].
      destruct (getitem2_3x3 b rr rc H3 Hrr Hrc) as [c' Hc']. congruence. }
  destruct (is_X c) eqn:HX.
  - apply wpg_ret. apply bool_decide_eq_true in HX as ->.
    specialize (HQ (rr, rc) 0 Hc). rewrite Nat.add_0_r in HQ. by destruct s.
  - apply wpg_bind. apply wpg_randint02.
    apply wpg_bind. apply wpg_randint02.
    apply IH; [done|apply mod3_lt|apply mod3_lt|done|].
    intros xy k Hxy.
    refine (eq_ind _ (Q xy) (HQ xy (2 + k) Hxy) _ _). cbn. f_equal. lia.
Qed.

Lemma wpg_rollout_loop (E : exn → Prop) fuel g n :
  ∀ p s b (Q : option Z → Store → Prop),
    boards s !! g = Some b →
    E IndexError ∨ is3x3 b = true →
    (∀ r b' k, (is3x3 b = true → is3x3 b' = true) →
       Q r (mkStore (nodes s) (<[g := b']> (boards s)) (cursor s + k)
                    (ucb_log s))) →
    wpg True E (rollout_loop fuel rnd n g p) Q s.
Proof.
  induction n as [|n IH]; intros p s b Q Hb Hmode HQ; [done|].
  assert (Q_same : ∀ r, Q r s).
  { intros r. specialize (HQ r b 0 (λ H, H)).
    rewrite list_insert_id, Nat.add_0_r in HQ by done. by destruct s. }
  simpl. apply wpg_bind. eapply wpg_get_board; [done|].
  apply wpg_bind. apply wpg_lift.
  pose proof (index_result_check_for_win b p) as Hres.
  destruct (check_for_win b p) as [w|e|] eqn:Hw; simpl in Hres; [| |done].
  2:{ subst e. destruct Hmode as [?|H3]; [done|].
      destruct (check_for_win_3x3 b p H3) as [w' Hw']. congruence. }
  destruct (negb w && negb (check_for_draw b)) eqn:Hcont.
  - apply wpg_bind. apply wpg_randint02.
    apply wpg_bind. apply wpg_randint02.
    apply wpg_bind. eapply wpg_resample;
      [done|apply mod3_lt|apply mod3_lt|done|].
    intros xy k Hxy.
    apply wpg_bind. eapply wpg_setitem; [done..|].
    unfold with_boards; cbn [nodes boards cursor ucb_log].
    eapply IH.
    + cbn. apply list_lookup_insert_eq. by eapply lookup_lt_Some.
    + destruct Hmode as [?|H3]; [by left|right]. by apply set_cell_3x3.
    + intros r b' k' Hb'. cbn. rewrite list_insert_insert_eq.
      refine (eq_ind _ (Q r) (HQ r b' (2 + k + k') _) _ _).
      * intros H3. apply Hb'. by apply set_cell_3x3.
      * f_equal. lia.
  - apply wpg_bind. apply wpg_lift.
    destruct w; [by apply wpg_ret|].
    destruct (check_for_draw b); by apply wpg_ret.
Qed.

Lemma wpg_rollout (E : exn → Prop) fuel gs p s b (Q : option Z → Store → Prop) :
  boards s !! gs = Some b →
  E IndexError ∨ is3x3 b = true →
  (∀ r b' k, (is3x3 b = true → is3x3 b' = true) →
     Q r (mkStore (nodes s) (boards s ++ [b']) (cursor s + k) (ucb_log s))) →
  wpg True E (rollout fuel rnd gs p) Q s.
Proof.
  intros Hb Hmode HQ. unfold rollout.
  apply wpg_bind. eapply wpg_deepcopy; [done|].
  eapply wpg_rollout_loop; [by apply list_lookup_middle|done|].
  intros r b' k Hb'. cbn.
  rewrite <- (Nat.add_0_r (length (boards s))), insert_app_r. cbn.
  by apply HQ.
Qed.
End Rollout.
Section RolloutTerminates.
Context (rnd : nat → nat).
Implicit Types (s : Store) (b : board).

Lemma count_X_set_cell b x y p :
  is3x3 b = true → getitem2 b x y = Ok X →
  count_X (set_cell b x y (Mark p)) < count_X b.
Proof.
  intros (a0&a1&a2&d0&d1&d2&e0&e1&e2&->)%is3x3_inv Hget.
  assert (is_X X = true) as HX by (by apply bool_decide_eq_true).
  assert (is_X (Mark p) = false) as HM by (by apply bool_decide_eq_false).
  destruct x as [|[|[|]]]; [| | |done];
    (destruct y as [|[|[|]]]; [| | |done]);
    injection Hget as ->; unfold count_X; cbn; rewrite HX, HM; lia.
Qed.

Lemma resample_terminates g b :
  is3x3 b = true →
  ∀ k s rr rc,
    boards s !! g = Some b → rr < 3 → rc < 3 →
    match k with
    | 0 => getitem2 b rr rc = Ok X
    | S k' => getitem2 b (rnd (cursor s + 2 * k') mod 3)
                         (rnd (cursor s + 2 * k' + 1) mod 3) = Ok X
    end →
    ∃ r s', resample rnd (S k) g rr rc s = Ok (r, s').
Proof.
  intros H3. induction k as [|k IH]; intros s rr rc Hb Hrr Hrc Hhit.
  - simpl. unfold bind, getitem, bind, get_board, lift. rewrite Hb, Hhit.
    simpl. eauto.
  - destruct (getitem2_3x3 b rr rc H3 Hrr Hrc) as [c Hc].
    cbn [resample]. unfold bind at 1, getitem, bind at 1, get_board, lift.
    rewrite Hb, Hc. destruct (is_X c); [by eauto|].
    unfold bind at 1, randint02 at 1. unfold bind at 1, randint02 at 1.
    cbn [cursor].
    apply IH; cbn [boards cursor]; [done|apply mod3_lt|apply mod3_lt|].
    destruct k as [|k].
    + replace (cursor s + 2 * 0) with (cursor s) in Hhit by lia.
      by replace (cursor s + 1) with (S (cursor s)) in Hhit by lia.
    + replace (S (S (cursor s)) + 2 * k) with (cursor s + 2 * S k) by lia.
      done.
Qed.

Lemma rollout_loop_terminates g :
  fair rnd →
  ∀ m b p s,
    count_X b < m → is3x3 b = true → boards s !! g = Some b →
    ∃ f r s', rollout_loop f rnd f g p s = Ok (r, s').
Proof.
  intros Hfair. induction m as [|m IH]; intros b p s Hm H3 Hb; [lia|].
  destruct (check_for_win_3x3 b p H3) as [w Hw].
  destruct (negb w && negb (check_for_draw b)) eqn:Hcont.
  2:{ exists 1. cbn [rollout_loop]. unfold bind at 1, get_board at 1. rewrite Hb.
      unfold bind at 1, lift at 1. rewrite Hw, Hcont.
      unfold bind, lift.
      destruct w; [by eauto|]. destruct (check_for_draw b); by eauto. }
  pose proof Hcont as Hcont'.
  apply andb_true_iff in Hcont' as [_ Hdraw%negb_true_iff].
  apply check_for_draw_false in Hdraw as [[x y] Hxy].
  destruct (cell_of_3x3 b (x, y) X H3 Hxy) as [Hx Hy]. simpl in Hx, Hy.
  apply getitem2_cell_of in Hxy.
  destruct (Hfair (cursor s) x y Hx Hy) as (k & Hkx & Hky).
  set (s1 := mkStore (nodes s) (boards s) (S (S (cursor s))) (ucb_log s)).
  destruct (resample_terminates g b H3 k s1
              (rnd (cursor s) mod 3) (rnd (S (cursor s)) mod 3))
    as (rc & s2 & Hres); [done|apply mod3_lt|apply mod3_lt| |].
  { destruct k as [|k].
    - replace (cursor s + 2 * 0) with (cursor s) in * by lia.
      replace (cursor s + 1) with (S (cursor s)) in * by lia. by subst.
    - cbn [cursor s1].
      replace (S (S (cursor s)) + 2 * k) with (cursor s + 2 * S k) by lia.
      by subst. }
  assert (wpg True no_exn
            (resample rnd (S k) g (rnd (cursor s) mod 3)
                      (rnd (S (cursor s)) mod 3))
            (λ xy s', getitem2 b xy.1 xy.2 = Ok X ∧ boards s' = boards s ∧
                      nodes s' = nodes s ∧ ucb_log s' = ucb_log s) s1)
    as Hspec.
  { eapply wpg_resample; [done|apply mod3_lt|apply mod3_lt|by right|].
    by intros xy k' Hxy'. }
  eapply wpg_ok in Hspec; [|exact Hres].
  destruct Hspec as (Hrc & Hb2 & Hn2 & Hl2).
  set (p' := if (p =? 1)%Z then 2%Z else 1%Z).
  set (b' := set_cell b rc.1 rc.2 (Mark p')).
  set (s3 := with_boards <[g := b']> s2).
  destruct (IH b' p' s3) as (f & r & s' & Hrec).
  { pose proof (count_X_set_cell b rc.1 rc.2 p' H3 Hrc). unfold b'. lia. }
  { by apply set_cell_3x3. }
  { cbn. rewrite Hb2. apply list_lookup_insert_eq. by eapply lookup_lt_Some. }
  exists (S (f + k)), r, s'.
  cbn [rollout_loop]. unfold bind at 1, get_board at 1. rewrite Hb.
  unfold bind at 1, lift at 1. rewrite Hw.
  rewrite Hcont.
  unfold bind at 1, randint02 at 1. unfold bind at 1, randint02 at 1.
  cbn [nodes boards cursor ucb_log]. fold s1.
  unfold bind at 1.
  rewrite (resample_mono rnd (S k) (S (f + k)) g _ _ ltac:(lia) s1 _ Hres).
  unfold bind at 1, setitem at 1. rewrite Hb2, Hb, Hrc. fold p' b' s3.
  apply (rollout_loop_mono rnd f (S (f + k)) f (f + k) g p'); [lia|lia|done].
Qed.

Lemma rollout_terminates gs b p s :
  fair rnd → is3x3 b = true → boards s !! gs = Some b →
  ∃ f r s', rollout f rnd gs p s = Ok (r, s').
Proof.
  intros Hfair H3 Hb.
  destruct (rollout_loop_terminates (length (boards s)) Hfair
              (S (count_X b)) b p (with_boards (λ h, h ++ [b]) s))
    as (f & r & s' & Hrun); [lia|done|by apply list_lookup_middle|].
  exists f, r, s'. unfold rollout, bind, deepcopy. by rewrite Hb.
Qed.
End RolloutTerminates.
(** * Back-propagation *)

Section BackPropagation.
Implicit Types (s : Store) (n : Node).

Lemma credited_fields r n :
  children (credited r n) = children n ∧ parent (credited r n) = parent n ∧
  game_state (credited r n) = game_state n ∧
  player (credited r n) = player n ∧
  is_end_state (credited r n) = is_end_state n ∧
  visits (credited r n) = visits n + 1.
Proof. unfold credited. by repeat case_bool_decide. Qed.

(** An update of a node that keeps its place in the tree and its board,
    and does not reset its visits, keeps the tree well formed. *)
Lemma tree_ok_update s i n n' :
  tree_ok s → nodes s !! i = Some n →
  children n' = children n → parent n' = parent n →
  game_state n' = game_state n → visits n ≤ visits n' →
  tree_ok (with_nodes <[i := n']> s).
Proof.
  intros Hok Hn Hc Hp Hg Hv.
  assert (i < length (nodes s)) as Hlt by (by eapply lookup_lt_Some).
  assert (∀ j nj, nodes (with_nodes <[i := n']> s) !! j = Some nj →
            ∃ nj0, nodes s !! j = Some nj0 ∧ children nj = children nj0 ∧
                   parent nj = parent nj0 ∧ game_state nj = game_state nj0 ∧
                   visits nj0 ≤ visits nj) as Hlook.
  { intros j nj. cbn. destruct (decide (j = i)) as [->|Hne].
    - rewrite list_lookup_insert_eq by done. intros [= <-]. by exists n.
    - rewrite list_lookup_insert_ne by done. intros Hj. by exists nj. }
  assert (∀ j nj0, nodes s !! j = Some nj0 →
            ∃ nj, nodes (with_nodes <[i := n']> s) !! j = Some nj ∧
                  parent nj = parent nj0) as Hlook'.
  { intros j nj0 Hj. cbn. destruct (decide (j = i)) as [->|Hne].
    - rewrite list_lookup_insert_eq by done. exists n'. split; [done|].
      congruence.
    - rewrite list_lookup_insert_ne by done. by exists nj0. }
  split.
  - intros j nj c Hj Hcj.
    destruct (Hlook j nj Hj) as (nj0 & Hj0 & Hcs & _).
    rewrite Hcs in Hcj.
    destruct (tree_children s Hok j nj0 c Hj0 Hcj) as (Hjc & nc & Hnc & Hpc).
    split; [done|]. destruct (Hlook' c nc Hnc) as (nc' & Hnc' & Hpc').
    exists nc'. split; [done|]. congruence.
  - intros j nj p Hj Hpj. destruct (Hlook j nj Hj) as (nj0 & Hj0 & _ & Hp0 & _).
    eapply (tree_parent s Hok j nj0); [done|congruence].
  - intros j nj Hj Hpj. destruct (Hlook j nj Hj) as (nj0 & Hj0 & _ & Hp0 & _).
    eapply (tree_root s Hok j nj0); [done|congruence].
  - intros j nj Hj Hvj. destruct (Hlook j nj Hj) as (nj0 & Hj0 & Hcs & _ & _ & Hv0).
    rewrite Hcs. eapply (tree_unvisited s Hok j nj0); [done|lia].
  - intros j nj Hj. destruct (Hlook j nj Hj) as (nj0 & Hj0 & _ & _ & Hg0 & _).
    cbn. rewrite Hg0. by eapply tree_board.
  - intros j k nj nk Hj Hk Heq.
    destruct (Hlook j nj Hj) as (nj0 & Hj0 & _ & _ & Hgj & _).
    destruct (Hlook k nk Hk) as (nk0 & Hk0 & _ & _ & Hgk & _).
    eapply (tree_own_board s Hok j k nj0 nk0); [done..|congruence].
  - intros j nj Hj. destruct (Hlook j nj Hj) as (nj0 & Hj0 & Hcs & _).
    rewrite Hcs. by eapply tree_nodup.
Qed.

Lemma on_chain_le s i a : tree_ok s → on_chain s i a → a ≤ i.
Proof.
  intros Hok. induction 1 as [|i n p a Hn Hp _ IH]; [done|].
  pose proof (tree_parent s Hok i n p Hn Hp). lia.
Qed.

Lemma on_chain_ext s s' i a :
  (∀ j, parent <$> nodes s !! j = parent <$> nodes s' !! j) →
  on_chain s i a → on_chain s' i a.
Proof.
  intros Hsame. induction 1 as [|i n p a Hn Hp _ IH]; [constructor|].
  pose proof (Hsame i) as Hi. rewrite Hn in Hi. simpl in Hi.
  destruct (nodes s' !! i) as [n'|] eqn:Hn'; [|done].
  injection Hi as Hi. eapply chain_up; [done| |done]. congruence.
Qed.

Lemma back_propagate_loop_step fuel cur r s n :
  nodes s !! cur = Some n →
  back_propagate_loop (S fuel) (Some cur) r s =
  back_propagate_loop fuel (parent n) r
    (with_nodes <[cur := credited r n]> s).
Proof.
  intros Hn.
  assert (cur < length (nodes s)) as Hlt by (by eapply lookup_lt_Some).
  assert (∀ f g : Node → Node,
    (upd_node cur f ;; upd_node cur g) s =
    Ok (tt, with_nodes <[cur := g (f n)]> s)) as Htwo.
  { intros f g. unfold bind, upd_node. rewrite Hn. cbn.
    rewrite list_lookup_insert_eq by done. unfold with_nodes. cbn.
    by rewrite list_insert_insert_eq. }
  assert (∀ n' : Node, parent n' = parent n →
    (c <- get_node cur ; back_propagate_loop fuel (parent c) r)
      (with_nodes <[cur := n']> s) =
    back_propagate_loop fuel (parent n) r (with_nodes <[cur := n']> s))
    as Hget.
  { intros n' Hp. unfold bind, get_node. cbn.
    rewrite list_lookup_insert_eq by done. by rewrite Hp. }
  cbn [back_propagate_loop]. unfold credited.
  destruct (bool_decide (r = Some (-20)%Z)).
  - unfold bind at 1. unfold upd_node at 1. rewrite Hn.
    unfold bind at 1. unfold upd_node at 1. cbn [nodes with_nodes].
    rewrite list_lookup_insert_eq by done.
    unfold with_nodes at 1 2. cbn [nodes boards cursor ucb_log].
    rewrite list_insert_insert_eq.
    apply (Hget (add_visit (add_wins (1 # 2) n))). done.
  - unfold bind at 1. unfold get_node at 1. rewrite Hn.
    destruct (bool_decide (Some (player n) = r)).
    + unfold bind at 1. rewrite Htwo.
      apply (Hget (add_visit (add_wins 1 n))). done.
    + unfold bind at 1. unfold upd_node at 1. rewrite Hn.
      apply (Hget (add_visit n)). done.
Qed.

Lemma wpg_back_propagate_loop (T : Prop) (E : exn → Prop) r fuel :
  ∀ cur s (Q : unit → Store → Prop),
    tree_ok s → is_Some (nodes s !! cur) → T ∨ cur < fuel →
    (∀ s', back_propagated s cur r s' → tree_ok s' → Q tt s') →
    wpg T E (back_propagate_loop fuel (Some cur) r) Q s.
Proof.
  induction fuel as [|fuel IH]; intros cur s Q Hok [n Hn] Hfuel HQ.
  { apply wpg_out_of_fuel. destruct Hfuel; [done|lia]. }
  unfold wpg. rewrite (back_propagate_loop_step fuel cur r s n Hn).
  fold (wpg T E (back_propagate_loop fuel (parent n) r) Q
          (with_nodes <[cur := credited r n]> s)).
  set (s1 := with_nodes <[cur := credited r n]> s).
  assert (cur < length (nodes s)) as Hlt by (by eapply lookup_lt_Some).
  destruct (credited_fields r n) as (Hc & Hp & Hg & Hpl & He & Hv).
  assert (tree_ok s1) as Hok1.
  { eapply tree_ok_update; [done..|lia]. }
  assert (∀ j, parent <$> nodes s !! j = parent <$> nodes s1 !! j) as Hpar.
  { intros j. cbn. destruct (decide (j = cur)) as [->|Hne].
    - rewrite list_lookup_insert_eq, Hn by done. simpl. by rewrite Hp.
    - by rewrite list_lookup_insert_ne. }
  destruct (parent n) as [p|] eqn:Hpn.
  - pose proof (tree_parent s Hok cur n p Hn Hpn) as Hpcur.
    apply IH; [done| |destruct Hfuel; [by left|right; lia]|].
    { apply lookup_lt_is_Some_2. cbn. rewrite length_insert. lia. }
    intros s' (Hb & Hcu & Hl & Hlen & Hnodes) Hok'. apply HQ; [|done].
    split_and!; [done..|by rewrite Hlen; cbn; rewrite length_insert|].
    intros i ni Hi. destruct (decide (i = cur)) as [->|Hne].
    + assert (ni = n) as -> by congruence.
      destruct (Hnodes cur (credited r n)) as (n' & Hn' & _ & _ & Hsame).
      { cbn. by rewrite list_lookup_insert_eq. }
      assert (n' = credited r n) as ->.
      { apply Hsame. intros Hch%(on_chain_le s1 p cur Hok1). lia. }
      exists (credited r n). split_and!; [done|by right|done|].
      intros Hnot. exfalso. apply Hnot. constructor.
    + destruct (Hnodes i ni) as (n' & Hn' & Hor & Hon & Hoff).
      { cbn. by rewrite list_lookup_insert_ne. }
      exists n'. split_and!; [done|done| |].
      * intros Hch. apply Hon. inversion Hch as [|? n0 p0 ? Hn0 Hp0 Hch']; subst;
          [done|].
        assert (n0 = n) as -> by congruence.
        assert (p0 = p) as -> by congruence.
        by eapply on_chain_ext.
      * intros Hnot. apply Hoff. intros Hch. apply Hnot.
        eapply chain_up; [done..|]. eapply on_chain_ext; [|done].
        intros j. by rewrite Hpar.
  - destruct fuel; (apply wpg_ret; apply HQ; [|done]).
    all: split_and!; [done..|by cbn; rewrite length_insert|].
    all: intros i ni Hi; destruct (decide (i = cur)) as [->|Hne].
    all: try (assert (ni = n) as -> by congruence;
              exists (credited r n); split_and!;
              [by cbn; rewrite list_lookup_insert_eq|by right|done|];
              intros Hnot; exfalso; apply Hnot; constructor).
    all: exists ni; split_and!;
           [by cbn; rewrite list_lookup_insert_ne|by left| |done];
         intros Hch; inversion Hch; subst; [done|congruence].
Qed.
End BackPropagation.
(** * One pass of the loop *)

Section Simulate.
Implicit Types (s : Store) (n : Node).

Lemma tree_ok_grow s s' :
  tree_ok s → nodes s' = nodes s → length (boards s) ≤ length (boards s') →
  tree_ok s'.
Proof.
  intros [H1 H2 H3 H4 H5 H6 H7] Hn Hb. split; rewrite ?Hn; try done.
  intros i n Hi. specialize (H5 i n Hi). lia.
Qed.

Lemma root_on_chain s i :
  tree_ok s → is_Some (nodes s !! i) → on_chain s i 0.
Proof.
  intros Hok. induction (lt_wf i) as [i _ IH]. intros [n Hn].
  destruct (parent n) as [p|] eqn:Hp.
  - pose proof (tree_parent s Hok i n p Hn Hp) as Hlt.
    eapply chain_up; [done..|]. apply IH; [done|].
    apply lookup_lt_is_Some_2. apply lookup_lt_Some in Hn. lia.
  - rewrite (tree_root s Hok i n Hn Hp). constructor.
Qed.

Lemma same_shape_refl n : same_shape n n.
Proof. done. Qed.

Lemma same_shape_credited r n : same_shape n (credited r n).
Proof. destruct (credited_fields r n) as (?&?&?&?&?&?). by repeat split. Qed.

Lemma wpg_simulate (E : exn → Prop) fuel rnd c nc b s
    (Q : unit → Store → Prop) :
  tree_ok s → nodes s !! c = Some nc →
  boards s !! game_state nc = Some b →
  E IndexError ∨ is3x3 b = true →
  (∀ s', simulated s c s' → Q tt s') →
  wpg True E
    (rollout_result <- rollout fuel rnd (game_state nc) (player nc) ;
     back_propagate fuel c rollout_result) Q s.
Proof.
  intros Hok Hc Hb Hmode HQ.
  apply wpg_bind. eapply wpg_rollout; [done..|]. intros r b' k _.
  set (s2 := mkStore (nodes s) (boards s ++ [b']) (cursor s + k) (ucb_log s)).
  assert (tree_ok s2) as Hok2.
  { eapply tree_ok_grow; [done|done|]. cbn. rewrite length_app. lia. }
  apply wpg_back_propagate_loop; [done|by eauto|by left|].
  intros s' (Hbs & Hcu & Hlg & Hlen & Hnodes) Hok'. apply HQ.
  unfold s2 in Hbs, Hcu, Hlg, Hlen. cbn in Hbs, Hcu, Hlg, Hlen.
  split_and!; [done|done| | |done|].
  - intros rf bf Hrf. rewrite Hbs. by apply lookup_app_l_Some.
  - rewrite Hbs. rewrite length_app. simpl. lia.
  - intros i n Hi. destruct (Hnodes i n Hi) as (n' & Hn' & Hor & Hon & _).
    exists n'. split; [done|].
    destruct (credited_fields r n) as (?&?&?&?&?&Hv).
    split; [|split].
    + destruct Hor as [->| ->]; [done|by apply same_shape_credited].
    + destruct Hor as [->| ->]; lia.
    + intros Hch. rewrite Hon; [done|].
      apply (on_chain_ext s s2); [by intros j|done].
Qed.

Lemma boards_ok_simulated s c s' :
  boards_ok s → simulated s c s' → boards_ok s'.
Proof.
  intros Hbo (Hok' & _ & Hkb & _ & Hlen & Hnodes).
  assert (∀ i n', nodes s' !! i = Some n' →
            ∃ n, nodes s !! i = Some n ∧ same_shape n n') as Hback.
  { intros i n' Hi.
    destruct (lookup_lt_is_Some_2 (nodes s) i) as [n Hn].
    { apply lookup_lt_Some in Hi. lia. }
    destruct (Hnodes i n Hn) as (n'' & Hn'' & Hsh & _).
    exists n. split; [done|]. congruence. }
  assert (∀ i n n' bd, nodes s !! i = Some n → same_shape n n' →
            boards s' !! game_state n' = Some bd →
            boards s !! game_state n = Some bd) as Hbd.
  { intros i n n' bd Hn (_ & _ & Hg & _) Hbd'.
    destruct (bo_shape s Hbo i n Hn) as (b0 & Hb0 & _).
    pose proof (Hkb _ _ Hb0) as Hb0'. rewrite Hg in Hbd'. congruence. }
  split.
  - intros i n' Hi. destruct (Hback i n' Hi) as (n & Hn & Hsh).
    destruct (bo_shape s Hbo i n Hn) as (b0 & Hb0 & H3).
    exists b0. split; [|done]. destruct Hsh as (_ & _ & -> & _).
    by apply Hkb.
  - intros i n' bd Hi Hbd' Hi0. destruct (Hback i n' Hi) as (n & Hn & Hsh).
    pose proof (Hbd i n n' bd Hn Hsh Hbd') as Hbd0.
    destruct Hsh as (_ & _ & _ & -> & ->). by eapply (bo_flag s Hbo i n).
  - intros n' bd Hi Hbd'. destruct (Hback 0 n' Hi) as (n & Hn & Hsh).
    pose proof (Hbd 0 n n' bd Hn Hsh Hbd') as Hbd0.
    destruct Hsh as (_ & _ & _ & _ & ->). by eapply (bo_root s Hbo n).
  - intros i n' c' nc' bd bc Hi Hc' Hnc' Hbd' Hbc'.
    destruct (Hback i n' Hi) as (n & Hn & Hsh).
    destruct (Hback c' nc' Hnc') as (nc & Hnc & Hshc).
    pose proof (Hbd i n n' bd Hn Hsh Hbd') as Hbd0.
    pose proof (Hbd c' nc nc' bc Hnc Hshc Hbc') as Hbc0.
    destruct Hsh as (Hcs & _). destruct Hshc as (_ & _ & _ & -> & _).
    rewrite Hcs in Hc'. by eapply (bo_child s Hbo i n c' nc).
Qed.

Lemma keeps_tree_simulated s c s' : simulated s c s' → keeps_tree s s'.
Proof.
  intros (_ & _ & _ & _ & _ & Hnodes) i n Hi.
  destruct (Hnodes i n Hi) as (n' & Hn' & (?&?&?&?&?) & _).
  exists n'. by split_and!.
Qed.

Lemma keeps_boards_trans s1 s2 s3 :
  keeps_boards s1 s2 → keeps_boards s2 s3 → keeps_boards s1 s3.
Proof. intros H12 H23 r b Hr. by apply H23, H12. Qed.

Lemma keeps_tree_trans s1 s2 s3 :
  keeps_tree s1 s2 → keeps_tree s2 s3 → keeps_tree s1 s3.
Proof.
  intros H12 H23 i n Hi.
  destruct (H12 i n Hi) as (n2 & Hn2 & Hp & Hg & Hpl & He & Hc).
  destruct (H23 i n2 Hn2) as (n3 & Hn3 & Hp' & Hg' & Hpl' & He' & Hc').
  exists n3. split_and!; [done|congruence..|].
  intros Hne. rewrite Hc', Hc; [done|done|]. by rewrite Hc.
Qed.

Lemma keeps_stats_trans s1 s2 s3 :
  keeps_stats s1 s2 → keeps_stats s2 s3 → keeps_stats s1 s3.
Proof.
  intros H12 H23 i n Hi.
  destruct (H12 i n Hi) as (n2 & Hn2 & Hw & Hv).
  destruct (H23 i n2 Hn2) as (n3 & Hn3 & Hw' & Hv').
  exists n3. split_and!; [done|congruence..].
Qed.

Lemma evolves_refl s : evolves s s.
Proof.
  split; [by intros r b|]. intros i n Hi. exists n. by split_and!.
Qed.

Lemma evolves_trans s1 s2 s3 : evolves s1 s2 → evolves s2 s3 → evolves s1 s3.
Proof.
  intros [? ?] [? ?].
  split; [by eapply keeps_boards_trans|by eapply keeps_tree_trans].
Qed.
End Simulate.
Section Pass.
Context (E : exn → Prop) (fuel : nat) (rnd : nat → nat).
Implicit Types (s : Store) (n : Node).

Lemma boards_ok_logged s l : boards_ok s → boards_ok (logged s l).
Proof. intros [H1 H2 H3 H4]. by split. Qed.

(** A node that is not flagged as an end state has an empty cell. *)
Lemma unflagged_not_full s i n b :
  boards_ok s → nodes s !! i = Some n →
  boards s !! game_state n = Some b → is_end_state n = false →
  check_for_draw b = false.
Proof.
  intros Hbo Hn Hb Hflag. destruct (decide (i = 0)) as [->|Hne].
  - by destruct (bo_root s Hbo n b Hn Hb).
  - pose proof (bo_flag s Hbo i n b Hn Hb Hne) as Hf. rewrite Hflag in Hf.
    unfold end_flag in Hf. symmetry in Hf.
    by apply orb_false_elim in Hf as [? _].
Qed.

Lemma wpg_iteration s :
  Inv E s → is_Some (nodes s !! 0) →
  wpg True E (iteration fuel rnd 0) (λ _ s', pass_post E s s') s.
Proof.
  intros (Hok & Hlog & Hmode) [n0 Hn0].
  unfold iteration, traverse. apply wpg_bind.
  apply wpg_traverse_rec; [done|by eauto|by left|].
  intros r nr l Hr Hnr Hcur Hl.
  set (s1 := logged s l).
  assert (tree_ok s1) as Hok1 by (by apply tree_ok_logged).
  assert (log_ok s1) as Hlog1 by (by apply Forall_app).
  assert (E IndexError ∨ boards_ok s1 ∧ root_expanded s1) as Hmode1.
  { destruct Hmode as [?|[? ?]]; [by left|right].
    split; [by apply boards_ok_logged|done]. }
  destruct (lookup_lt_is_Some_2 (boards s) (game_state nr)) as [b Hb].
  { by eapply tree_board. }
  assert (E IndexError ∨ is3x3 b = true) as Hmode_b.
  { destruct Hmode as [?|[Hbo _]]; [by left|right].
    destruct (bo_shape s Hbo r nr Hr) as (b' & Hb' & H3). congruence. }
  apply wpg_bind. eapply wpg_get_node; [exact Hr|].
  destruct ((visits nr =? 0) || is_end_state nr) eqn:Hbranch.
  - eapply (wpg_simulate E fuel rnd r nr b s1); [done..|].
    intros s' Hsim. pose proof Hsim as (Hok' & Hlg' & Hkb' & _ & Hlen' & Hnodes').
    split; [split_and!|split; [split|]].
    + done.
    + unfold log_ok. by rewrite Hlg'.
    + destruct Hmode1 as [?|[Hbo1 Hre1]]; [by left|right].
      split; [by eapply boards_ok_simulated|].
      intros n' Hn' Hv'.
      destruct (Hnodes' 0 n0 Hn0) as (n'' & Hn'' & Hsh & _ & Hinc).
      assert (n'' = n') as -> by congruence.
      rewrite (proj1 Hsh).
      rewrite Hinc in Hv' by (apply root_on_chain; by eauto).
      destruct (decide (r = 0)) as [->|Hne].
      * assert (nr = n0) as -> by congruence.
        destruct (bo_root s1 Hbo1 n0 b Hn0 Hb) as [Hflag _].
        rewrite Hflag, orb_false_r in Hbranch.
        apply Nat.eqb_eq in Hbranch. lia.
      * intros Hnil. by apply Hne, (Hcur n0).
    + done.
    + by apply keeps_tree_simulated in Hsim.
    + intros n Hn. destruct (Hnodes' 0 n Hn) as (n' & Hn' & _ & _ & Hinc).
      exists n'. split; [done|]. apply Hinc, root_on_chain; by eauto.
  - apply orb_false_elim in Hbranch as [Hv%Nat.eqb_neq Hflag].
    apply wpg_bind. eapply (wpg_expand True E s1 r nr b); [done..|].
    set (s2 := expanded s1 r nr b).
    assert (tree_ok s2) as Hok2 by (by apply tree_ok_expanded).
    destruct (expanded_children s1 r nr b (empties b) Hr)
      as (nr2 & Hnr2 & Hcs2 & _).
    rewrite Hnr in Hcs2. simpl in Hcs2.
    change (nodes s2 !! r = Some nr2) in Hnr2.
    assert (empties b = [] ∨ ∃ xy0 rest, empties b = xy0 :: rest)
      as [Hemp|(xy0 & rest & Hemp)] by (destruct (empties b); eauto).
    { rewrite Hemp in Hcs2. apply wpg_bind. unfold child_at. apply wpg_bind.
      eapply wpg_get_node; [exact Hnr2|].
      rewrite Hcs2. simpl. apply wpg_raise.
      destruct Hmode1 as [?|[Hbo1 _]]; [done|].
      apply empties_nil in Hemp.
      by rewrite (unflagged_not_full s1 r nr b Hbo1 Hr Hb Hflag) in Hemp. }
    set (p := next_player (player nr)).
    set (child := length (nodes s1)).
    set (nc := new_child r (length (boards s1)) b p 0 xy0).
    rewrite Hemp in Hcs2.
    assert (nodes s2 !! child = Some nc) as Hchild.
    { apply expanded_nodes_lookup; [done|]. right; right.
      exists 0, xy0. rewrite Hemp. split_and!; [unfold child; lia|done|done]. }
    assert (boards s2 !! game_state nc = Some (child_board b p xy0)) as Hbc.
    { apply (expanded_boards_new s1 r nr b (empties b) 0 xy0).
      by rewrite Hemp. }
    apply wpg_bind. eapply wpg_child_at; [exact Hnr2|by rewrite Hcs2|].
    apply wpg_bind. eapply wpg_get_node; [exact Hchild|].
    eapply (wpg_simulate E fuel rnd child nc _ s2); [done|done|exact Hbc| |].
    { destruct Hmode_b as [?|H3]; [by left|right]. by apply set_cell_3x3. }
    intros s' Hsim. pose proof Hsim as (Hok' & Hlg' & Hkb' & _ & Hlen' & Hnodes').
    assert (keeps_tree s1 s2) as Hkt12.
    { by apply keeps_tree_expanded. }
    split; [split_and!|split; [split|]].
    + done.
    + unfold log_ok. by rewrite Hlg'.
    + destruct Hmode1 as [?|[Hbo1 Hre1]]; [by left|right].
      split.
      { eapply boards_ok_simulated; [|done]. by apply boards_ok_expanded. }
      intros n' Hn' _.
      destruct (decide (r = 0)) as [->|Hne].
      * destruct (Hnodes' 0 nr2 Hnr2) as (n'' & Hn'' & Hsh & _).
        assert (n'' = n') as -> by congruence.
        rewrite (proj1 Hsh), Hcs2. done.
      * destruct (Hkt12 0 n0 Hn0) as (n2 & Hn2 & _ & _ & _ & _ & Hcs).
        destruct (Hnodes' 0 n2 Hn2) as (n'' & Hn'' & Hsh & _).
        assert (n'' = n') as -> by congruence.
        assert (children n0 ≠ []) as Hne0.
        { intros Hnil. by apply Hne, (Hcur n0). }
        rewrite (proj1 Hsh), Hcs; done.
    + eapply (keeps_boards_trans s s2); [|done].
      exact (keeps_boards_expanded s1 r nr b (empties b)).
    + eapply (keeps_tree_trans s s2); [exact Hkt12|].
      by apply keeps_tree_simulated in Hsim.
    + intros n Hn.
      destruct (keeps_stats_expanded s1 r nr b (empties b) Hr 0 n Hn)
        as (n2 & Hn2 & _ & Hv2).
      destruct (Hnodes' 0 n2 Hn2) as (n' & Hn' & _ & _ & Hinc).
      exists n'. split; [done|]. rewrite <- Hv2.
      apply Hinc, root_on_chain; by eauto.
Qed.
End Pass.
Section Terminates.
Context (rnd : nat → nat).
Implicit Types (s : Store) (n : Node).

Lemma simulate_terminates c nc b s :
  fair rnd → tree_ok s → nodes s !! c = Some nc →
  boards s !! game_state nc = Some b → is3x3 b = true →
  ∃ f s', ∀ fuel, f ≤ fuel →
    (rollout_result <- rollout fuel rnd (game_state nc) (player nc) ;
     back_propagate fuel c rollout_result) s = Ok (tt, s').
Proof.
  intros Hfair Hok Hc Hb H3.
  destruct (rollout_terminates rnd (game_state nc) b (player nc) s Hfair H3 Hb)
    as (f1 & r & s2 & Hroll).
  assert (tree_ok s2 ∧ is_Some (nodes s2 !! c)) as [Hok2 Hc2].
  { eapply (wpg_ok True no_exn (rollout f1 rnd (game_state nc) (player nc))
              (λ _ s2', tree_ok s2' ∧ is_Some (nodes s2' !! c)));
      [|exact Hroll].
    eapply wpg_rollout; [exact Hb|by right|]. intros r' b' k _. split.
    - eapply tree_ok_grow; [done|done|]. cbn. rewrite length_app. lia.
    - cbn. by eauto. }
  destruct (wpg_total (back_propagate_loop (S c) (Some c) r)
              (λ _ _, True) s2) as ([] & s' & Hbp & _).
  { apply wpg_back_propagate_loop; [done|done|right; lia|done]. }
  exists (max f1 (S c)), s'. intros fuel Hfuel.
  unfold bind. rewrite (rollout_mono rnd f1 fuel _ _ ltac:(lia) s _ Hroll).
  apply (back_propagate_loop_mono (S c) fuel (Some c) r); [lia|done].
Qed.

Lemma iteration_terminates s :
  fair rnd → Inv no_exn s → is_Some (nodes s !! 0) →
  ∃ f s', ∀ fuel, f ≤ fuel → iteration fuel rnd 0 s = Ok (tt, s').
Proof.
  intros Hfair (Hok & Hlog & [[]|[Hbo Hre]]) Hroot.
  destruct (wpg_total (traverse_rec (length (nodes s)) 0)
    (λ r s1, nodes s1 = nodes s ∧ boards s1 = boards s ∧
             ∃ nr, nodes s !! r = Some nr ∧ children nr = []) s)
    as (r & s1 & Htrav & Hn1 & Hb1 & nr & Hr & Hnr).
  { apply wpg_traverse_rec; [done|done|right; lia|].
    intros r nr l Hr Hnr _ _. split_and!; [done|done|by eauto]. }
  assert (tree_ok s1) as Hok1.
  { eapply tree_ok_grow; [done|done|]. by rewrite Hb1. }
  assert (boards_ok s1) as Hbo1.
  { destruct Hbo as [H1 H2 H3 H4]. split; rewrite ?Hn1, ?Hb1; done. }
  assert (nodes s1 !! r = Some nr) as Hr1 by (by rewrite Hn1).
  destruct (bo_shape s1 Hbo1 r nr Hr1) as (b & Hb & H3).
  destruct ((visits nr =? 0) || is_end_state nr) eqn:Hbranch.
  - destruct (simulate_terminates r nr b s1 Hfair Hok1 Hr1 Hb H3)
      as (f & s' & Hsim).
    exists (max f (length (nodes s))), s'. intros fuel Hfuel.
    unfold iteration, traverse. unfold bind at 1.
    rewrite (traverse_rec_mono (length (nodes s)) fuel 0 ltac:(lia) s _ Htrav).
    unfold bind at 1, get_node at 1. rewrite Hr1, Hbranch.
    apply Hsim. lia.
  - apply orb_false_elim in Hbranch as Hbr.
    destruct Hbr as [Hv%Nat.eqb_neq Hflag].
    set (s2 := expanded s1 r nr b).
    assert (expand r s1 = Ok (tt, s2)) as Hexp.
    { destruct (wpg_total (expand r) (λ _ s', s' = s2) s1)
        as ([] & s2' & Hexp & ->); [|done].
      eapply wpg_expand; [done|done|by right|done]. }
    assert (tree_ok s2) as Hok2 by (by apply tree_ok_expanded).
    destruct (expanded_children s1 r nr b (empties b) Hr1)
      as (nr2 & Hnr2 & Hcs2 & _).
    change (nodes s2 !! r = Some nr2) in Hnr2.
    rewrite Hnr in Hcs2. simpl in Hcs2.
    assert (∃ xy0 rest, empties b = xy0 :: rest) as (xy0 & rest & Hemp).
    { destruct (empties b) as [|xy0 rest] eqn:Hemp; [|by eauto].
      apply empties_nil in Hemp.
      by rewrite (unflagged_not_full s1 r nr b Hbo1 Hr1 Hb Hflag) in Hemp. }
    rewrite Hemp in Hcs2.
    set (p := next_player (player nr)).
    set (child := length (nodes s1)).
    set (nc := new_child r (length (boards s1)) b p 0 xy0).
    assert (nodes s2 !! child = Some nc) as Hchild.
    { apply expanded_nodes_lookup; [done|]. right; right.
      exists 0, xy0. rewrite Hemp. split_and!; [unfold child; lia|done|done]. }
    assert (boards s2 !! game_state nc = Some (child_board b p xy0)) as Hbc.
    { apply (expanded_boards_new s1 r nr b (empties b) 0 xy0).
      by rewrite Hemp. }
    destruct (simulate_terminates child nc _ s2 Hfair Hok2 Hchild Hbc)
      as (f & s' & Hsim); [by apply set_cell_3x3|].
    exists (max f (length (nodes s))), s'. intros fuel Hfuel.
    unfold iteration, traverse. unfold bind at 1.
    rewrite (traverse_rec_mono (length (nodes s)) fuel 0 ltac:(lia) s _ Htrav).
    unfold bind at 1, get_node at 1. rewrite Hr1, Hbranch.
    unfold bind at 1. rewrite Hexp.
    unfold bind at 1, child_at at 1, bind at 1, get_node at 1.
    rewrite Hnr2, Hcs2. cbn [seq lookup list_lookup length].
    unfold ret. fold child.
    unfold bind at 1, get_node at 1. rewrite Hchild.
    apply Hsim. lia.
Qed.
End Terminates.
Section Passes.
Context (rnd : nat → nat).
Implicit Types (s : Store) (n : Node) (b : board).

Lemma evolves_root s s' :
  evolves s s' → is_Some (nodes s !! 0) → is_Some (nodes s' !! 0).
Proof. intros [_ Hkt] [n Hn]. destruct (Hkt 0 n Hn) as (n' & ? & _). eauto. Qed.

Lemma wpg_iterations (E : exn → Prop) fuel k :
  ∀ s, Inv E s → is_Some (nodes s !! 0) →
       wpg True E (iterations fuel rnd k 0) (λ _ s', passes_post E k s s') s.
Proof.
  induction k as [|k IH]; intros s HInv Hroot.
  - apply wpg_ret. split_and!; [done|apply evolves_refl|].
    intros n Hn. exists n. split; [done|lia].
  - simpl. apply wpg_bind. eapply wpg_mono; [by apply wpg_iteration|].
    intros [] s1 (HInv1 & Hev1 & Hv1).
    eapply wpg_mono; [apply IH; [done|by eapply evolves_root]|].
    intros [] s2 (HInv2 & Hev2 & Hv2).
    split_and!; [done|by eapply evolves_trans|].
    intros n Hn. destruct (Hv1 n Hn) as (n1 & Hn1 & Hvis1).
    destruct (Hv2 n1 Hn1) as (n2 & Hn2 & Hvis2).
    exists n2. split; [done|lia].
Qed.

Lemma iterations_terminates k :
  fair rnd →
  ∀ s, Inv no_exn s → is_Some (nodes s !! 0) →
       ∃ f s', ∀ fuel, f ≤ fuel → iterations fuel rnd k 0 s = Ok (tt, s').
Proof.
  intros Hfair. induction k as [|k IH]; intros s HInv Hroot.
  - exists 0, s. by intros fuel _.
  - destruct (iteration_terminates rnd s Hfair HInv Hroot) as (f1 & s1 & H1).
    pose proof (wpg_iteration no_exn f1 rnd s HInv Hroot) as Hpost.
    eapply wpg_ok in Hpost; [|by apply H1].
    destruct Hpost as (HInv1 & Hev1 & _).
    destruct (IH s1 HInv1) as (f2 & s2 & H2); [by eapply evolves_root|].
    exists (max f1 f2), s2. intros fuel Hfuel. simpl. unfold bind.
    rewrite H1 by lia. apply H2. lia.
Qed.

Lemma tree_ok_started h b c num : tree_ok (started h b c num).
Proof.
  assert (∀ i n, nodes (started h b c num) !! i = Some n →
            i = 0 ∧ n = mkNode 0 0 [] None (length h) num false) as Hone.
  { intros [|i] n; cbn; [by intros [= <-]|done]. }
  split.
  - intros i n ch Hn Hch. destruct (Hone i n Hn) as [_ ->].
    by apply elem_of_nil in Hch.
  - intros i n p Hn Hp. by destruct (Hone i n Hn) as [_ ->].
  - intros i n Hn _. by destruct (Hone i n Hn) as [-> _].
  - intros i n Hn _. by destruct (Hone i n Hn) as [_ ->].
  - intros i n Hn. destruct (Hone i n Hn) as [_ ->]. cbn.
    rewrite length_app. simpl. lia.
  - intros i j ni nj Hi Hj _. destruct (Hone i ni Hi) as [-> _].
    by destruct (Hone j nj Hj) as [-> _].
  - intros i n Hn. destruct (Hone i n Hn) as [_ ->]. constructor.
Qed.

Lemma boards_ok_started h b c num :
  is3x3 b = true → check_for_draw b = false →
  boards_ok (started h b c num).
Proof.
  intros H3 Hd.
  assert (∀ i n, nodes (started h b c num) !! i = Some n →
            i = 0 ∧ n = mkNode 0 0 [] None (length h) num false) as Hone.
  { intros [|i] n; cbn; [by intros [= <-]|done]. }
  assert (boards (started h b c num) !! length h = Some b) as Hb.
  { cbn. by apply list_lookup_middle. }
  split.
  - intros i n Hn. destruct (Hone i n Hn) as [_ ->]. by exists b.
  - intros i n bd Hn _ Hi. by destruct (Hone i n Hn) as [-> _].
  - intros n bd Hn Hbd. destruct (Hone 0 n Hn) as [_ ->].
    cbn in Hbd. rewrite list_lookup_middle in Hbd by done.
    by injection Hbd as <-.
  - intros i n ch nc bd bc Hn Hch. destruct (Hone i n Hn) as [_ ->].
    by apply elem_of_nil in Hch.
Qed.

Lemma Inv_started (E : exn → Prop) h b c num :
  E IndexError ∨ (is3x3 b = true ∧ check_for_draw b = false) →
  Inv E (started h b c num).
Proof.
  intros Hmode. split_and!; [apply tree_ok_started|by constructor|].
  destruct Hmode as [?|[H3 Hd]]; [by left|right].
  split; [by apply boards_ok_started|].
  intros n [= <-]. simpl. lia.
Qed.

(** The run of [search] is the run of the loop from the store [started]. *)
Lemma search_run fuel k h b c num :
  search fuel rnd k (length h) num (entry h b c) =
  match iterations fuel rnd k 0 (started h b c num) with
  | Ok (_, s') => Ok (0, s')
  | Raise e => Raise e
  | OutOfFuel => OutOfFuel
  end.
Proof.
  unfold search, bind, new_node, entry, started, with_nodes. cbn.
  by destruct (iterations _ _ _ _ _) as [[[] s']| |].
Qed.

Lemma make_comp_move_run fuel h b c num :
  make_comp_move fuel rnd (length h) num (entry h b c) =
  match iterations fuel rnd 1000 0 (started h b c num) with
  | Ok (_, s') =>
      (comp_move_state <- calc_highest_visits 0 ;
       r <- get_node 0 ;
       game <- get_board (game_state r) ;
       comp <- get_board comp_move_state ;
       lift (find_comp_move game comp)) s'
  | Raise e => Raise e
  | OutOfFuel => OutOfFuel
  end.
Proof.
  unfold make_comp_move. unfold bind at 1, new_node at 1.
  unfold entry, started, with_nodes. cbn [nodes boards cursor ucb_log length app].
  unfold bind at 1.
  by destruct (iterations _ _ _ _ _) as [[[] s']| |].
Qed.
End Passes.
Section Choice.
Context (T : Prop) (E : exn → Prop).
Implicit Types (s : Store) (n : Node).

Lemma visits_of_lt s n j v : visits_of s n j = Some v → j < length (children n).
Proof.
  unfold visits_of. destruct (children n !! j) eqn:Hj; [|done].
  intros _. by eapply lookup_lt_Some.
Qed.

Lemma wpg_highest_visits_loop node n s (Q : nat → Store → Prop) m :
  nodes s !! node = Some n →
  (∀ c, c ∈ children n → is_Some (nodes s !! c)) →
  (∀ i, most_visited s n i → Q i s) →
  ∀ k index highest,
    k + m = length (children n) →
    visits_of s n index = Some highest →
    (∀ j w, j < k → visits_of s n j = Some w → w ≤ highest) →
    (∀ j w, j < index → visits_of s n j = Some w → w < highest) →
    wpg T E (highest_visits_loop node (seq k m) index highest) Q s.
Proof.
  intros Hn Hcs HQ. induction m as [|m IH]; intros k index hi Hk Hidx Hle Hlt.
  - simpl. apply wpg_ret. apply HQ. exists hi. split_and!; [done| |done].
    intros j w Hw. apply (Hle j); [|done]. apply visits_of_lt in Hw. lia.
  - simpl.
    destruct (lookup_lt_is_Some_2 (children n) k) as [c Hc]; [lia|].
    destruct (Hcs c) as [nc Hnc]; [by eapply list_elem_of_lookup_2|].
    assert (visits_of s n k = Some (visits nc)) as Hvk.
    { unfold visits_of. rewrite Hc. simpl. by rewrite Hnc. }
    apply wpg_bind. eapply wpg_child_at; [done..|].
    apply wpg_bind. eapply wpg_get_node; [done|].
    destruct (hi <? visits nc) eqn:Hcmp.
    + apply Nat.ltb_lt in Hcmp. apply IH; [lia|done| |].
      * intros j w Hj Hw. destruct (decide (j = k)) as [->|Hne].
        { rewrite Hvk in Hw. injection Hw as <-. lia. }
        assert (w ≤ hi) by (apply (Hle j); [lia|done]). lia.
      * intros j w Hj Hw.
        assert (w ≤ hi) by (apply (Hle j); [lia|done]). lia.
    + apply Nat.ltb_ge in Hcmp. apply IH; [lia|done| |done].
      intros j w Hj Hw. destruct (decide (j = k)) as [->|Hne].
      { rewrite Hvk in Hw. injection Hw as <-. lia. }
      apply (Hle j); [lia|done].
Qed.

Lemma wpg_calc_highest_visits node n s (Q : nat → Store → Prop) :
  nodes s !! node = Some n → children n ≠ [] →
  (∀ c, c ∈ children n → is_Some (nodes s !! c)) →
  (∀ i c nc, most_visited s n i → children n !! i = Some c →
             nodes s !! c = Some nc → Q (game_state nc) s) →
  wpg T E (calc_highest_visits node) Q s.
Proof.
  intros Hn Hne Hcs HQ. unfold calc_highest_visits.
  destruct (children n) as [|c0 cs] eqn:Hchildren; [done|].
  destruct (Hcs c0) as [n0 Hn0]; [by left|].
  apply wpg_bind. eapply wpg_child_at; [done|by rewrite Hchildren|].
  apply wpg_bind. eapply wpg_get_node; [done|].
  apply wpg_bind. eapply wpg_get_node; [done|].
  apply wpg_bind.
  eapply (wpg_highest_visits_loop node n s); [done|by rewrite Hchildren| |
    done| |intros; lia|intros; lia].
  - intros i Hbest. pose proof Hbest as (v & Hv & _).
    apply visits_of_lt in Hv. rewrite Hchildren in Hv.
    destruct (lookup_lt_is_Some_2 (c0 :: cs) i Hv) as [c Hc].
    destruct (Hcs c) as [nc Hnc]; [by eapply list_elem_of_lookup_2|].
    apply wpg_bind. eapply wpg_child_at; [done|by rewrite Hchildren|].
    apply wpg_bind. eapply wpg_get_node; [done|].
    apply wpg_ret. by eapply HQ.
  - unfold visits_of. rewrite Hchildren. simpl. by rewrite Hn0.
Qed.
End Choice.
(** * What the components leave as it is *)

Section Frames.
Context (R : Store → Store → Prop).
Context (R_refl : ∀ s, R s s) (R_trans : ∀ s1 s2 s3, R s1 s2 → R s2 s3 → R s1 s3).

Lemma preserves_ret {A : Type} (a : A) : preserves R (ret a).
Proof using R_refl. intros s a' s' [= _ <-]. apply R_refl. Qed.

Lemma preserves_raise {A : Type} (e : exn) : preserves R (@raise A e).
Proof. by intros s a s'. Qed.

Lemma preserves_out_of_fuel {A : Type} : preserves R (@out_of_fuel A).
Proof. by intros s a s'. Qed.

Lemma preserves_lift {A : Type} (r : result A) : preserves R (lift r).
Proof using R_refl.
  intros s a s'. unfold lift. destruct r; [|done..]. intros [= _ <-].
  apply R_refl.
Qed.

Lemma preserves_bind {A B : Type} (m : M A) (f : A → M B) :
  preserves R m → (∀ a, preserves R (f a)) → preserves R (bind m f).
Proof using R_trans.
  intros Hm Hf s b s'. unfold bind.
  destruct (m s) as [[a s1]| |] eqn:Hms; [|done..].
  intros Hfs. eapply R_trans; [by eapply Hm|by eapply Hf].
Qed.

Lemma preserves_get_node i : preserves R (get_node i).
Proof using R_refl.
  intros s a s'. unfold get_node. destruct (nodes s !! i); [|done].
  intros [= _ <-]. apply R_refl.
Qed.

Lemma preserves_get_board r : preserves R (get_board r).
Proof using R_refl.
  intros s a s'. unfold get_board. destruct (boards s !! r); [|done].
  intros [= _ <-]. apply R_refl.
Qed.

Lemma preserves_child_at node i : preserves R (child_at node i).
Proof using R_refl R_trans.
  unfold child_at. apply preserves_bind; [apply preserves_get_node|].
  intros n. destruct (children n !! i); [apply preserves_ret|apply preserves_raise].
Qed.

Lemma preserves_getitem r x y : preserves R (getitem r x y).
Proof using R_refl R_trans.
  unfold getitem. apply preserves_bind; [apply preserves_get_board|].
  intros b. apply preserves_lift.
Qed.

Lemma preserves_for_each {A : Type} (l : list A) (body : A → M unit) :
  (∀ a, preserves R (body a)) → preserves R (for_each l body).
Proof using R_refl R_trans.
  intros Hbody. induction l as [|a l IH]; simpl; [apply preserves_ret|].
  apply preserves_bind; [apply Hbody|]. by intros _.
Qed.

(** The final choice reads the store and nothing else. *)
Lemma preserves_highest_visits_loop node range index highest :
  preserves R (highest_visits_loop node range index highest).
Proof using R_refl R_trans.
  revert index highest. induction range as [|i range IH]; intros index highest;
    simpl; [apply preserves_ret|].
  apply preserves_bind; [apply preserves_child_at|]. intros c.
  apply preserves_bind; [apply preserves_get_node|]. intros cn.
  destruct (highest <? visits cn); apply IH.
Qed.

Lemma preserves_calc_highest_visits node :
  preserves R (calc_highest_visits node).
Proof using R_refl R_trans.
  unfold calc_highest_visits.
  apply preserves_bind; [apply preserves_child_at|]. intros c0.
  apply preserves_bind; [apply preserves_get_node|]. intros n0.
  apply preserves_bind; [apply preserves_get_node|]. intros nd.
  apply preserves_bind; [apply preserves_highest_visits_loop|]. intros i.
  apply preserves_bind; [apply preserves_child_at|]. intros c.
  apply preserves_bind; [apply preserves_get_node|]. intros cn.
  apply preserves_ret.
Qed.
End Frames.

Section NodeFrames.
Implicit Types (s : Store).

Lemma same_nodes_refl s : same_nodes s s.
Proof. done. Qed.

Lemma same_nodes_trans s1 s2 s3 :
  same_nodes s1 s2 → same_nodes s2 s3 → same_nodes s1 s3.
Proof. unfold same_nodes. congruence. Qed.

Lemma keeps_stats_refl s : keeps_stats s s.
Proof. intros i n Hn. by exists n. Qed.

Lemma same_nodes_keeps_stats s s' : same_nodes s s' → keeps_stats s s'.
Proof. intros Hn i n Hi. exists n. by rewrite Hn. Qed.

Ltac frame_pure :=
  first
    [ apply (preserves_ret same_nodes same_nodes_refl)
    | apply preserves_raise
    | apply preserves_out_of_fuel
    | apply (preserves_lift same_nodes same_nodes_refl)
    | apply (preserves_get_node same_nodes same_nodes_refl)
    | apply (preserves_get_board same_nodes same_nodes_refl)
    | apply (preserves_child_at same_nodes same_nodes_refl same_nodes_trans)
    | apply (preserves_getitem same_nodes same_nodes_refl same_nodes_trans) ].

Ltac frame_bind :=
  apply (preserves_bind same_nodes same_nodes_trans); [|intros ?].

Lemma same_nodes_log_ucb e : preserves same_nodes (log_ucb e).
Proof. by intros s a s' [= _ <-]. Qed.

Lemma same_nodes_randint02 rnd : preserves same_nodes (randint02 rnd).
Proof. by intros s a s' [= _ <-]. Qed.

Lemma same_nodes_deepcopy r : preserves same_nodes (deepcopy r).
Proof.
  intros s a s'. unfold deepcopy. destruct (boards s !! r); [|done].
  by intros [= _ <-].
Qed.

Lemma same_nodes_setitem r x y v : preserves same_nodes (setitem r x y v).
Proof.
  intros s a s'. unfold setitem. destruct (boards s !! r); [|done].
  destruct (getitem2 _ _ _); [|done..]. by intros [= _ <-].
Qed.

Lemma same_nodes_calculate_UCB1 c : preserves same_nodes (calculate_UCB1 c).
Proof.
  unfold calculate_UCB1. frame_bind; [frame_pure|].
  frame_bind; [by destruct (parent _); frame_pure|].
  frame_bind; [apply same_nodes_log_ucb|].
  repeat (case_match; try frame_pure).
Qed.

Lemma same_nodes_max_UCB1_loop current range index mx :
  preserves same_nodes (max_UCB1_loop current range index mx).
Proof.
  revert index mx. induction range as [|i range IH]; intros index mx; simpl;
    [frame_pure|].
  frame_bind; [frame_pure|].
  frame_bind; [apply same_nodes_calculate_UCB1|].
  destruct (_ <? _)%float; apply IH.
Qed.

Lemma same_nodes_max_UCB1_index current :
  preserves same_nodes (max_UCB1_index current).
Proof.
  unfold max_UCB1_index.
  frame_bind; [frame_pure|].
  frame_bind; [apply same_nodes_calculate_UCB1|].
  frame_bind; [frame_pure|]. apply same_nodes_max_UCB1_loop.
Qed.

Lemma same_nodes_first_unvisited cs :
  preserves same_nodes (first_unvisited cs).
Proof.
  induction cs as [|c cs IH]; simpl; [frame_pure|].
  frame_bind; [frame_pure|]. by destruct (_ =? _); [frame_pure|].
Qed.

Lemma same_nodes_traverse_rec n current :
  preserves same_nodes (traverse_rec n current).
Proof.
  revert current. induction n as [|n IH]; intros current; simpl; [frame_pure|].
  frame_bind; [frame_pure|]. destruct (children _); [frame_pure|].
  frame_bind; [apply same_nodes_first_unvisited|].
  match goal with o : option nat |- _ => destruct o end; [frame_pure|].
  frame_bind; [apply same_nodes_max_UCB1_index|].
  frame_bind; [frame_pure|]. apply IH.
Qed.

Lemma same_nodes_resample rnd n g rr rc :
  preserves same_nodes (resample rnd n g rr rc).
Proof.
  revert rr rc. induction n as [|n IH]; intros rr rc; simpl; [frame_pure|].
  frame_bind; [frame_pure|]. destruct (is_X _); [frame_pure|].
  frame_bind; [apply same_nodes_randint02|].
  frame_bind; [apply same_nodes_randint02|]. apply IH.
Qed.

Lemma same_nodes_rollout_loop fuel rnd n g p :
  preserves same_nodes (rollout_loop fuel rnd n g p).
Proof.
  revert p. induction n as [|n IH]; intros p; simpl; [frame_pure|].
  frame_bind; [frame_pure|]. frame_bind; [frame_pure|].
  destruct (_ && _).
  - frame_bind; [apply same_nodes_randint02|].
    frame_bind; [apply same_nodes_randint02|].
    frame_bind; [apply same_nodes_resample|].
    frame_bind; [apply same_nodes_setitem|]. apply IH.
  - frame_bind; [frame_pure|]. repeat (case_match; try frame_pure).
Qed.

Lemma same_nodes_rollout fuel rnd g p :
  preserves same_nodes (rollout fuel rnd g p).
Proof.
  unfold rollout. frame_bind; [apply same_nodes_deepcopy|].
  apply same_nodes_rollout_loop.
Qed.
End NodeFrames.
Section ExpandFrame.
Implicit Types (s : Store).

Lemma preserves_weaken {A : Type} (R R' : Store → Store → Prop) (m : M A) :
  (∀ s s', R s s' → R' s s') → preserves R m → preserves R' m.
Proof. intros HR Hm s a s' Hrun. by eapply HR, Hm. Qed.

Lemma keeps_stats_upd_node i f :
  (∀ n, wins (f n) = wins n ∧ visits (f n) = visits n) →
  preserves keeps_stats (upd_node i f).
Proof.
  intros Hf s a s'. unfold upd_node.
  destruct (nodes s !! i) as [n|] eqn:Hn; [|done]. intros [= _ <-] j nj Hj.
  cbn. destruct (decide (j = i)) as [->|Hne].
  - rewrite list_lookup_insert_eq by (by eapply lookup_lt_Some).
    exists (f n). split; [done|]. assert (nj = n) as -> by congruence.
    apply Hf.
  - rewrite list_lookup_insert_ne by done. by exists nj.
Qed.

Lemma keeps_stats_new_node game pl par :
  preserves keeps_stats (new_node game pl par).
Proof.
  intros s a s' [= _ <-] j nj Hj. cbn. exists nj. split; [|done].
  by apply lookup_app_l_Some.
Qed.

Ltac stats_pure :=
  first
    [ apply (preserves_ret keeps_stats keeps_stats_refl)
    | apply (preserves_lift keeps_stats keeps_stats_refl)
    | apply (preserves_get_node keeps_stats keeps_stats_refl)
    | apply (preserves_get_board keeps_stats keeps_stats_refl)
    | apply (preserves_getitem keeps_stats keeps_stats_refl keeps_stats_trans)
    | apply keeps_stats_new_node
    | by apply keeps_stats_upd_node
    | apply (preserves_weaken same_nodes keeps_stats _
               same_nodes_keeps_stats (same_nodes_deepcopy _))
    | apply (preserves_weaken same_nodes keeps_stats _
               same_nodes_keeps_stats (same_nodes_setitem _ _ _ _)) ].

Ltac stats_bind :=
  apply (preserves_bind keeps_stats keeps_stats_trans); [|intros ?].

Lemma keeps_stats_expand_cell current cgs x y :
  preserves keeps_stats (expand_cell current cgs x y).
Proof.
  unfold expand_cell. stats_bind; [stats_pure|].
  destruct (is_X _); [|stats_pure].
  repeat (stats_bind; [try stats_pure|]); try stats_pure.
  all: by destruct (_ : bool); stats_pure.
Qed.

Lemma keeps_stats_expand current : preserves keeps_stats (expand current).
Proof.
  unfold expand. stats_bind; [stats_pure|]. stats_bind; [stats_pure|].
  stats_bind; [stats_pure|].
  apply (preserves_for_each keeps_stats keeps_stats_refl keeps_stats_trans).
  intros xrow.
  apply (preserves_for_each keeps_stats keeps_stats_refl keeps_stats_trans).
  intros yplace. apply keeps_stats_expand_cell.
Qed.
End ExpandFrame.
(** * The specification, statement by statement *)

(** The end of [make_comp_move] reads the store and nothing else. *)
Lemma calc_highest_visits_same node s g s' :
  calc_highest_visits node s = Ok (g, s') → s' = s.
Proof.
  apply (preserves_calc_highest_visits (λ s s', s' = s)); [done|].
  intros s1 s2 s3. congruence.
Qed.

(** C1, as the code has it: for every pair of boards without a differing
    cell, [find_comp_move] returns the pair (-1, -1) as an ordinary result;
    no error is raised and the pair is outside the range 0..2.
    [make_comp_move] has no check of its own: whenever it returns, what it
    returns is the result of [find_comp_move] for the board of the root,
    which is the board given, and the board that [calc_highest_visits]
    gives for the root; so it returns the pair (-1, -1) if these two boards
    have no differing cell. *)
Theorem find_comp_move_no_difference :
  (∀ game_state comp_move_state : board,
     (∀ xy v, cell_of game_state xy = Some v →
              cell_of comp_move_state xy = Some v) →
     find_comp_move game_state comp_move_state = Ok (-1, -1)%Z) ∧
  (∀ fuel rnd h b c num xy s',
     make_comp_move fuel rnd (length h) num (entry h b c) = Ok (xy, s') →
     ∃ root g comp_move_state,
       nodes s' !! 0 = Some root ∧ boards s' !! game_state root = Some b ∧
       calc_highest_visits 0 s' = Ok (g, s') ∧
       boards s' !! g = Some comp_move_state ∧
       find_comp_move b comp_move_state = Ok xy ∧
       ((∀ xy0 v, cell_of b xy0 = Some v →
                  cell_of comp_move_state xy0 = Some v) →
        xy = (-1, -1)%Z)).
Proof.
  split; [apply find_comp_move_same|].
  intros fuel rnd h b c num xy s' Hrun.
  rewrite make_comp_move_run in Hrun.
  pose proof (wpg_iterations rnd index_only fuel 1000 (started h b c num))
    as Hw.
  unfold wpg in Hw.
  destruct (iterations fuel rnd 1000 0 (started h b c num))
    as [[[] s1]|e|]; [|done..].
  destruct Hw as (_ & [Hkb Hkt] & _); [apply Inv_started; by left|simpl; eauto|].
  unfold bind at 1 in Hrun.
  destruct (calc_highest_visits 0 s1) as [[g s2]|e|] eqn:Hg; [|done..].
  pose proof (calc_highest_visits_same _ _ _ _ Hg) as ->.
  unfold bind, get_node, get_board, lift in Hrun.
  destruct (nodes s1 !! 0) as [root|] eqn:Hroot; [|done].
  destruct (boards s1 !! game_state root) as [gb|] eqn:Hgb; [|done].
  destruct (boards s1 !! g) as [cb|] eqn:Hcb; [|done].
  destruct (find_comp_move gb cb) as [xy'| |] eqn:Hf; [|done..].
  injection Hrun as <- <-.
  destruct (Hkt 0 _ eq_refl) as (n' & Hn' & _ & Hgs & _).
  assert (n' = root) as -> by congruence. simpl in Hgs.
  assert (gb = b) as ->.
  { rewrite Hgs in Hgb. rewrite (Hkb (length h) b) in Hgb; [congruence|].
    simpl. by rewrite lookup_app_r, Nat.sub_diag by lia. }
  exists root, g, cb. split_and!; [done..|].
  intros Hsame. rewrite (find_comp_move_same b cb Hsame) in Hf. congruence.
Qed.

(** C1 as stated fails: on two equal boards [find_comp_move] raises nothing,
    it returns the sentinel. *)
Lemma find_comp_move_returns_sentinel :
  find_comp_move drawn_board drawn_board = Ok (-1, -1)%Z ∧
  ¬ ∃ e, find_comp_move drawn_board drawn_board = Raise e.
Proof. split; [reflexivity|]. intros [e He]. vm_compute in He. discriminate. Qed.

(** The states the loop of [make_comp_move] goes through on a board that
    is 3 by 3 and not full satisfy the invariant of the boards too. *)
Lemma search_Inv_boards fuel rnd k h b c num root s :
  is3x3 b = true → check_for_draw b = false →
  search fuel rnd k (length h) num (entry h b c) = Ok (root, s) →
  root = 0 ∧ Inv no_exn s ∧ evolves (started h b c num) s.
Proof.
  intros H3 Hd. rewrite search_run. intros Hrun.
  pose proof (wpg_iterations rnd no_exn fuel k (started h b c num)) as Hw.
  unfold wpg in Hw.
  destruct (iterations fuel rnd k 0 (started h b c num)) as [[[] s']|e|];
    [|done..].
  injection Hrun as <- <-.
  by destruct Hw as (HInv & Hev & _); [apply Inv_started; by right|simpl; eauto|].
Qed.

(** C2: [make_comp_move] is called on a board that is 3 by 3, not won by
    the player given and not full.  In every state its loop reaches from
    such a board, the flag [is_end_state] of every node of the tree is set
    exactly when the board of the node is won by the player of the node or
    is full.  The root among them: it is the node made from the board and
    the player given, its flag is [False] as [__init__] left it, and its
    board is neither won by its player nor full.  The later passes leave
    the flag, the player and the board of every node as they are. *)
Theorem end_state_flags (fuel : nat) (rnd : nat → nat) (k : nat)
    (h : list board) (b : board) (c : nat) (num : Z) (root : nat) (s : Store) :
  is3x3 b = true → check_for_win b num = Ok false → check_for_draw b = false →
  search fuel rnd k (length h) num (entry h b c) = Ok (root, s) →
  (∃ r, nodes s !! root = Some r ∧ parent r = None ∧ player r = num ∧
        boards s !! game_state r = Some b ∧ is_end_state r = false) ∧
  (∀ i n, nodes s !! i = Some n →
     ∃ bd, boards s !! game_state n = Some bd ∧
       (is_end_state n = true ↔
          check_for_win bd (player n) = Ok true ∨ check_for_draw bd = true)) ∧
  (∀ fuel' rnd' j s',
     iterations fuel' rnd' j root s = Ok (tt, s') →
     ∀ i n bd, nodes s !! i = Some n → boards s !! game_state n = Some bd →
       ∃ n', nodes s' !! i = Some n' ∧ is_end_state n' = is_end_state n ∧
             player n' = player n ∧ boards s' !! game_state n' = Some bd).
Proof.
  intros H3 Hw Hd Hsearch.
  destruct (search_Inv_boards _ _ _ _ _ _ _ _ _ H3 Hd Hsearch)
    as (-> & HInv & [Hkb Hkt]).
  destruct (Hkt 0 _ eq_refl) as (r & Hr & Hpar & Hgs & Hpl & Hfl & _).
  simpl in Hpar, Hgs, Hpl, Hfl.
  assert (Hb : boards s !! game_state r = Some b).
  { rewrite Hgs. apply Hkb. simpl. by rewrite lookup_app_r, Nat.sub_diag by lia. }
  pose proof HInv as (Htree & _ & [[]|[Hbo _]]).
  split_and!.
  - by exists r.
  - intros i n Hn.
    destruct (bo_shape s Hbo i n Hn) as (bd & Hbd & H3d).
    exists bd. split; [done|].
    destruct (decide (i = 0)) as [->|Hi].
    + assert (n = r) as -> by congruence.
      assert (bd = b) as -> by congruence.
      rewrite Hfl, Hpl, Hw, Hd. split; [done|]. by intros [|].
    + rewrite (bo_flag s Hbo i n bd Hn Hbd Hi). unfold end_flag.
      destruct (check_for_win_3x3 bd (player n) H3d) as [w ->].
      rewrite orb_true_iff. split.
      * intros [?| ->]; [by right|by left].
      * intros [[= ->]|?]; [by right|by left].
  - intros fuel' rnd' j s' Hrun i n bd Hn Hbd.
    pose proof (wpg_iterations rnd' no_exn fuel' j s) as Hw'.
    unfold wpg in Hw'. rewrite Hrun in Hw'.
    destruct Hw' as (_ & [Hkb' Hkt'] & _); [done|by eauto|].
    destruct (Hkt' i n Hn) as (n' & Hn' & _ & Hgs' & Hpl' & Hfl' & _).
    exists n'. split_and!; [done..|]. rewrite Hgs'. by apply Hkb'.
Qed.

(** C3: on a node without children whose board is 3 by 3, [expand] appends
    one child per empty cell, in row-major order of the empty cells; the
    board of a child is the board of the node with that one cell set to the
    other player, who is the child's [player]; the child's [parent] is the
    node; its flag is set iff its board is a win for that player or full. *)
Theorem expand_spec (s : Store) (current : nat) (n : Node) (b : board) :
  nodes s !! current = Some n → children n = [] →
  boards s !! game_state n = Some b → is3x3 b = true →
  let p := if (player n =? 2)%Z then 1%Z else 2%Z in
  let cells := empties b in
  StronglySorted row_major cells ∧ NoDup cells ∧
  (∀ xy, xy ∈ cells ↔ cell_of b xy = Some X) ∧
  ((player n = 1%Z → p = 2%Z) ∧ (player n = 2%Z → p = 1%Z)) ∧
  ∃ s' n',
    expand current s = Ok (tt, s') ∧
    nodes s' !! current = Some n' ∧
    length (children n') = length cells ∧ NoDup (children n') ∧
    boards s' !! game_state n' = Some b ∧
    ∀ j xy, cells !! j = Some xy →
      ∃ c nc bc,
        children n' !! j = Some c ∧ nodes s !! c = None ∧
        nodes s' !! c = Some nc ∧
        boards s' !! game_state nc = Some bc ∧
        (∀ xy', cell_of bc xy' =
                if decide (xy' = xy) then Some (Mark p) else cell_of b xy') ∧
        player nc = p ∧ parent nc = Some current ∧
        wins nc = 0%Q ∧ visits nc = 0 ∧ children nc = [] ∧
        (is_end_state nc = true ↔
           check_for_win bc p = Ok true ∨ check_for_draw bc = true).
Proof.
  intros Hn Hcs Hb H3 p cells.
  split_and!.
  - apply empties_sorted.
  - apply empties_NoDup.
  - apply elem_of_empties.
  - unfold p. by intros ->.
  - unfold p. by intros ->.
  - destruct (wpg_total (expand current) (λ _ s', s' = expanded s current n b) s)
      as ([] & s' & Hrun & ->).
    { eapply wpg_expand; [done|done|by right|done]. }
    destruct (expanded_children s current n b cells Hn)
      as (n' & Hn' & Hcs' & _ & _ & Hg' & _).
    rewrite Hcs in Hcs'. simpl in Hcs'.
    exists (expanded s current n b), n'. split_and!; [done|done| | | |].
    + by rewrite Hcs', length_seq.
    + rewrite Hcs'. apply NoDup_seq.
    + rewrite Hg'. by apply keeps_boards_expanded.
    + intros j xy Hj.
      pose proof (lookup_lt_Some _ _ _ Hj) as Hlt.
      assert (cell_of b xy = Some X) as HX.
      { apply elem_of_empties. by eapply list_elem_of_lookup_2. }
      exists (length (nodes s) + j),
        (new_child current (length (boards s)) b p j xy), (child_board b p xy).
      split_and!; try done.
      * rewrite Hcs'. by apply lookup_seq.
      * apply lookup_ge_None. lia.
      * apply expanded_nodes_lookup; [done|]. right; right. by exists j, xy.
      * by apply expanded_boards_new.
      * intros xy'. destruct xy as [x y].
        apply cell_of_set_cell. by rewrite HX.
      * simpl. unfold end_flag.
        destruct (check_for_win_3x3 (child_board b p xy) p) as [w Hw].
        { by apply set_cell_3x3. }
        rewrite Hw. rewrite orb_true_iff. split.
        -- intros [?| ->]; [by right|by left].
        -- intros [[= ->]|?]; [by right|by left].
Qed.

(** C4: [traverse] returns the node itself when it has no children;
    otherwise the first child without a visit, in the order of the
    children, and then no UCB1 score is evaluated (the store, with its log
    of evaluations, is unchanged); otherwise it goes on from the child that
    [max_UCB1_index] gives, the first one with the highest score in binary64
    arithmetic.  In a well formed tree the descent ends, in a node without
    children. *)
Theorem traverse_spec (fuel : nat) (s : Store) (current : nat) (n : Node) :
  tree_ok s → nodes s !! current = Some n →
  (children n = [] → traverse (S fuel) current s = Ok (current, s)) ∧
  (∀ k c, children n !! k = Some c → unvisited s c →
          (∀ j c', j < k → children n !! j = Some c' → ¬ unvisited s c') →
          traverse (S fuel) current s = Ok (c, s)) ∧
  (children n ≠ [] → (∀ c, c ∈ children n → ¬ unvisited s c) →
   ∃ i c l, first_best s n i ∧ children n !! i = Some c ∧
            max_UCB1_index current s = Ok (i, logged s l) ∧
            traverse (S fuel) current s = traverse fuel c (logged s l)) ∧
  (∃ r nr l, nodes s !! r = Some nr ∧ children nr = [] ∧
             ∀ fuel', length (nodes s) ≤ fuel' →
                      traverse fuel' current s = Ok (r, logged s l)).
Proof.
  intros Hok Hn.
  assert (∀ c, c ∈ children n → is_Some (nodes s !! c)) as Hvalid.
  { intros c Hc. destruct (tree_children s Hok current n c Hn Hc)
      as (_ & nc & Hnc & _). eauto. }
  assert (children n ≠ [] →
          traverse (S fuel) current s =
          match first_unvisited_of s (children n) with
          | Some child => Ok (child, s)
          | None => (i <- max_UCB1_index current ;
                     c <- child_at current i ;
                     traverse_rec fuel c) s
          end) as Hstep.
  { intros Hne. unfold traverse. cbn [traverse_rec].
    unfold bind at 1, get_node at 1. rewrite Hn.
    destruct (children n) as [|c0 cs] eqn:Hcs; [done|]. rewrite <- Hcs in *.
    unfold bind at 1. rewrite (first_unvisited_run (children n) s Hvalid).
    by destruct (first_unvisited_of s (children n)). }
  split_and!.
  - intros Hcs. unfold traverse. cbn [traverse_rec].
    unfold bind, get_node. by rewrite Hn, Hcs.
  - intros k c Hk Hun Hmin. rewrite Hstep.
    + assert (first_unvisited_of s (children n) = Some c) as ->; [|done].
      apply first_unvisited_of_Some. by exists k.
    + intros Hnil. by rewrite Hnil in Hk.
  - intros Hne Hvis. rewrite (Hstep Hne).
    rewrite (proj2 (first_unvisited_of_None s (children n)) Hvis).
    destruct (wpg_total (max_UCB1_index current)
      (λ i s1, first_best s n i ∧ ∃ l, s1 = logged s l) s)
      as (i & s1 & Hrun & Hbest & l & ->).
    { eapply wpg_max_UCB1_index; [by apply tree_ok_scorable|done|].
      intros i l Hi _. by eauto. }
    pose proof Hbest as (u & Hu & _). apply score_of_lt in Hu.
    destruct (lookup_lt_is_Some_2 (children n) i Hu) as [c Hc].
    exists i, c, l. split_and!; [done..|].
    unfold bind at 1. rewrite Hrun.
    unfold bind at 1, child_at, bind, get_node. cbn [nodes logged].
    by rewrite Hn, Hc.
  - destruct (wpg_total (traverse_rec (length (nodes s)) current)
      (λ r s1, ∃ nr l, nodes s !! r = Some nr ∧ children nr = [] ∧
                       s1 = logged s l) s)
      as (r & s1 & Hrun & nr & l & Hr & Hnr & ->).
    { apply wpg_traverse_rec; [done|by eauto|right; lia|].
      intros r nr l Hr Hnr _ _. by eauto. }
    exists r, nr, l. split_and!; [done..|]. intros fuel' Hfuel.
    by apply (traverse_rec_mono (length (nodes s)) fuel' current Hfuel).
Qed.

(** C5: for a child with a visit whose parent has a visit, [calculate_UCB1]
    is wins / visits + 1.4 * sqrt (log2 (parent visits) / visits), every
    operation being the one of binary64 arithmetic, and one evaluation is
    logged; and [max_UCB1_index] returns the lowest index among the
    children with the highest score: no child has a score above that of
    the child returned, and, when no score is a NaN, every child before it
    has a score below. *)
Theorem UCB1_spec (s : Store) :
  (∀ c nc p np,
     nodes s !! c = Some nc → parent nc = Some p → nodes s !! p = Some np →
     1 ≤ visits nc → 1 ≤ visits np →
     calculate_UCB1 c s =
       Ok ((float_of_wins (wins nc) / float_of_count (visits nc)
            + 0x1.6666666666666p+0
              * sqrt (math_log2 (float_of_count (visits np))
                      / float_of_count (visits nc)))%float,
           logged s [(visits nc, visits np)])) ∧
  (∀ current n,
     scorable s current n → children n ≠ [] →
     ∃ i l u,
       max_UCB1_index current s = Ok (i, logged s l) ∧
       score_of s n i = Some u ∧
       (∀ j v, score_of s n j = Some v → (u <? v)%float = false) ∧
       ((∀ j v, score_of s n j = Some v → is_nan v = false) →
        ∀ j v, j < i → score_of s n j = Some v → (v <? u)%float = true)).
Proof.
  split.
  - intros c nc p np Hc Hp Hnp Hv Hpv.
    destruct (wpg_total (calculate_UCB1 c)
      (λ u s', u = UCB1_score (wins nc) (visits nc) (visits np) ∧
               s' = logged s [(visits nc, visits np)]) s)
      as (u & s' & Hrun & -> & ->); [|done].
    by eapply wpg_calculate_UCB1.
  - intros current n Hsc Hne.
    destruct (wpg_total (max_UCB1_index current)
      (λ i s1, first_best s n i ∧ ∃ l, s1 = logged s l) s)
      as (i & s1 & Hrun & (u & Hu & Hmax & Hfirst) & l & ->).
    { eapply wpg_max_UCB1_index; [done..|]. intros i l Hi _. by eauto. }
    by exists i, l, u.
Qed.

(** C6: [back_propagate] from the node [cur], with enough fuel for the
    length of the parent chain, ends without an exception; the chain reaches
    the root; every node of the chain gets one more visit and its wins grow
    by 1/2 when the result is the draw value -20, else by 1 when the result
    is the node's player, else not at all; the nodes off the chain, the
    other fields of every node, the boards, the random cursor and the log
    stay as they are.  No other component changes [wins] or [visits]. *)
Theorem back_propagate_spec (s : Store) (cur : nat) (r : option Z) :
  tree_ok s → is_Some (nodes s !! cur) →
  (∃ s',
     (∀ fuel, cur < fuel → back_propagate fuel cur r s = Ok (tt, s')) ∧
     on_chain s cur 0 ∧
     boards s' = boards s ∧ cursor s' = cursor s ∧ ucb_log s' = ucb_log s ∧
     length (nodes s') = length (nodes s) ∧
     ∀ i n, nodes s !! i = Some n →
       ∃ n', nodes s' !! i = Some n' ∧ same_shape n n' ∧
         (on_chain s cur i →
            visits n' = visits n + 1 ∧
            wins n' =
              if bool_decide (r = Some (-20)%Z) then (wins n + (1 # 2))%Q
              else if bool_decide (Some (player n) = r) then (wins n + 1)%Q
              else wins n) ∧
         (¬ on_chain s cur i → n' = n)) ∧
  (∀ fuel rnd c g p,
     preserves keeps_stats (traverse fuel c) ∧
     preserves keeps_stats (max_UCB1_index c) ∧
     preserves keeps_stats (expand c) ∧
     preserves keeps_stats (rollout fuel rnd g p) ∧
     preserves keeps_stats (calc_highest_visits c)).
Proof.
  intros Htree Hcur. split.
  - destruct (wpg_total (back_propagate_loop (S cur) (Some cur) r)
      (λ _ s', back_propagated s cur r s') s) as ([] & s' & Hrun & Hpost).
    { apply wpg_back_propagate_loop; [done|done|right; lia|]. by intros. }
    exists s'. destruct Hpost as (Hb & Hc & Hl & Hlen & Hnodes).
    split_and!; try done.
    + intros fuel Hfuel. unfold back_propagate.
      eapply (back_propagate_loop_mono (S cur) fuel); [lia|done].
    + by apply root_on_chain.
    + intros i n Hn. destruct (Hnodes i n Hn) as (n' & Hn' & Hcase & Hon & Hoff).
      exists n'. split; [done|]. split.
      { destruct Hcase as [->| ->];
          [apply same_shape_refl|apply same_shape_credited]. }
      split; [|done].
      intros Hchain. rewrite (Hon Hchain). unfold credited.
      by repeat case_bool_decide.
  - intros fuel rnd c g p. split_and!.
    + eapply preserves_weaken; [apply same_nodes_keeps_stats|].
      apply same_nodes_traverse_rec.
    + eapply preserves_weaken; [apply same_nodes_keeps_stats|].
      apply same_nodes_max_UCB1_index.
    + apply keeps_stats_expand.
    + eapply preserves_weaken; [apply same_nodes_keeps_stats|].
      apply same_nodes_rollout.
    + apply preserves_calc_highest_visits;
        [apply keeps_stats_refl|apply keeps_stats_trans].
Qed.


(** C8: whatever the board, the heap, the random source and the bound are,
    a search of [k] passes from the call of [make_comp_move] raises no
    exception other than [IndexError]: the division by [child.visits] and
    [math.log2] of the parent's visits never fail, and [child.parent] is
    never [None].  When the passes end, every evaluation of
    [calculate_UCB1] made so far had a child with at least one visit and a
    parent with at least one visit.  (An evaluation with a zero raises at
    once, so a run that stops for another reason made none either.) *)
Theorem UCB1_inputs_visited (fuel : nat) (rnd : nat → nat) (k : nat)
    (h : list board) (b : board) (c : nat) (num : Z) :
  match search fuel rnd k (length h) num (entry h b c) with
  | Ok (_, s') => Forall (λ e, 1 ≤ e.1 ∧ 1 ≤ e.2) (ucb_log s')
  | Raise e => e ≠ ZeroDivisionError ∧ e ≠ ValueError ∧ e ≠ AttributeError
  | OutOfFuel => True
  end.
Proof.
  rewrite search_run.
  pose proof (wpg_iterations rnd index_only fuel k (started h b c num)) as Hw.
  unfold wpg in Hw.
  destruct (iterations fuel rnd k 0 (started h b c num)) as [[[] s']|e|].
  - apply Hw; [apply Inv_started; by left|simpl; eauto].
  - rewrite Hw; [done|apply Inv_started; by left|simpl; eauto].
  - done.
Qed.

(** The states the loop of [make_comp_move] goes through satisfy the
    invariant of the tree, whatever the board is. *)
Lemma search_Inv fuel rnd k h b c num root s :
  search fuel rnd k (length h) num (entry h b c) = Ok (root, s) →
  root = 0 ∧ Inv index_only s ∧ is_Some (nodes s !! 0) ∧
  evolves (started h b c num) s.
Proof.
  rewrite search_run. intros Hrun.
  pose proof (wpg_iterations rnd index_only fuel k (started h b c num)) as Hw.
  unfold wpg in Hw.
  destruct (iterations fuel rnd k 0 (started h b c num)) as [[[] s']|e|];
    [|done..].
  injection Hrun as <- <-.
  destruct Hw as (HInv & Hev & _); [apply Inv_started; by left|simpl; eauto|].
  split_and!; [done|done| |done].
  eapply evolves_root; [done|simpl; eauto].
Qed.

(** C9: in every state [s] the loop of [make_comp_move] reaches, the node
    [traverse] returns, the only one [expand] is applied to, has no
    children; a list of children that is not empty is the same after any
    number of further passes; and no list of children has a duplicate. *)
Theorem never_reexpanded (fuel : nat) (rnd : nat → nat) (k : nat)
    (h : list board) (b : board) (c : nat) (num : Z) (root : nat) (s : Store) :
  search fuel rnd k (length h) num (entry h b c) = Ok (root, s) →
  (∀ fuel' current s1,
     traverse fuel' root s = Ok (current, s1) →
     ∃ n, nodes s1 !! current = Some n ∧ children n = []) ∧
  (∀ fuel' rnd' j s',
     iterations fuel' rnd' j root s = Ok (tt, s') →
     ∀ i n, nodes s !! i = Some n → children n ≠ [] →
       ∃ n', nodes s' !! i = Some n' ∧ children n' = children n) ∧
  (∀ i n, nodes s !! i = Some n → NoDup (children n)).
Proof.
  intros Hsearch.
  destruct (search_Inv _ _ _ _ _ _ _ _ _ Hsearch) as (-> & HInv & Hroot & _).
  destruct HInv as (Htree & Hlog & Hb).
  split_and!.
  - intros fuel' current s1 Hrun.
    pose proof (wpg_traverse_rec True index_only fuel' 0 s
      (λ r s1, ∃ n, nodes s1 !! r = Some n ∧ children n = [])) as Hw.
    unfold wpg in Hw. unfold traverse in Hrun. rewrite Hrun in Hw.
    apply Hw; [done|done|by left|].
    intros r nr l Hr Hnil _ _. by exists nr.
  - intros fuel' rnd' j s' Hrun i n Hn Hne.
    pose proof (wpg_iterations rnd' index_only fuel' j s) as Hw.
    unfold wpg in Hw. rewrite Hrun in Hw.
    destruct Hw as (_ & [_ Hkt] & _); [done|done|].
    destruct (Hkt i n Hn) as (n' & Hn' & _ & _ & _ & _ & Hch).
    exists n'. split; [done|]. by apply Hch.
  - intros i n Hn. by eapply tree_nodup.
Qed.


(** C10: [make_comp_move] leaves every board that exists at the call, the
    board passed to it among them, cell for cell as it was, although the
    root refers to that very board.  In every state the loop reaches, every
    node still refers to the board it was made with, that board has the
    cells it had, after any number of further passes; and no two nodes
    refer to the same board. *)
Theorem boards_never_mutated (fuel : nat) (rnd : nat → nat)
    (h : list board) (b : board) (c : nat) (num : Z) :
  (∀ xy s',
     make_comp_move fuel rnd (length h) num (entry h b c) = Ok (xy, s') →
     boards s' !! length h = Some b ∧
     ∀ r b0, boards (entry h b c) !! r = Some b0 → boards s' !! r = Some b0) ∧
  (∀ k root s,
     search fuel rnd k (length h) num (entry h b c) = Ok (root, s) →
     (∃ nr, nodes s !! root = Some nr ∧ game_state nr = length h ∧
            boards s !! length h = Some b) ∧
     (∀ fuel' rnd' j s',
        iterations fuel' rnd' j root s = Ok (tt, s') →
        ∀ i n bi, nodes s !! i = Some n →
          boards s !! game_state n = Some bi →
          ∃ n', nodes s' !! i = Some n' ∧ game_state n' = game_state n ∧
                boards s' !! game_state n' = Some bi) ∧
     (∀ i j ni nj,
        nodes s !! i = Some ni → nodes s !! j = Some nj →
        game_state ni = game_state nj → i = j)).
Proof.
  assert (Hb : boards (started h b c num) !! length h = Some b).
  { simpl. by rewrite lookup_app_r, Nat.sub_diag by lia. }
  split.
  - intros xy s' Hrun.
    assert (keeps_boards (started h b c num) s') as Hkeep.
    { rewrite make_comp_move_run in Hrun.
      pose proof (wpg_iterations rnd index_only fuel 1000
                    (started h b c num)) as Hw.
      unfold wpg in Hw.
      destruct (iterations fuel rnd 1000 0 (started h b c num))
        as [[[] s1]|e|]; [|done..].
      destruct Hw as (_ & [Hkb _] & _);
        [apply Inv_started; by left|simpl; eauto|].
      eapply keeps_boards_trans; [exact Hkb|].
      revert Hrun.
      assert (Hrefl : ∀ s0, keeps_boards s0 s0) by (by intros s0 r0 b0).
      apply (preserves_bind keeps_boards keeps_boards_trans);
        [by apply preserves_calc_highest_visits; [|apply keeps_boards_trans]|].
      intros g. apply (preserves_bind keeps_boards keeps_boards_trans);
        [by apply preserves_get_node|].
      intros nr. apply (preserves_bind keeps_boards keeps_boards_trans);
        [by apply preserves_get_board|].
      intros game. apply (preserves_bind keeps_boards keeps_boards_trans);
        [by apply preserves_get_board|].
      intros comp. by apply preserves_lift. }
    split; [by apply Hkeep|]. intros r b0 Hr. by apply Hkeep.
  - intros k root s Hsearch.
    destruct (search_Inv _ _ _ _ _ _ _ _ _ Hsearch)
      as (-> & (Htree & _) & Hroot & [Hkb Hkt]).
    split_and!.
    + destruct (Hkt 0 (mkNode 0 0 [] None (length h) num false) eq_refl)
        as (nr & Hnr & _ & Hg & _).
      exists nr. split_and!; [done|done|by apply Hkb].
    + intros fuel' rnd' j s' Hrun i n bi Hn Hbi.
      pose proof (wpg_iterations rnd' index_only fuel' j s) as Hw.
      unfold wpg in Hw. rewrite Hrun in Hw.
      destruct Hw as (_ & [Hkb' Hkt'] & _);
        [by eapply search_Inv|done|].
      destruct (Hkt' i n Hn) as (n' & Hn' & _ & Hg & _).
      exists n'. split_and!; [done|done|]. rewrite Hg. by apply Hkb'.
    + intros i j ni nj. by apply tree_own_board.
Qed.


(** [round_robin] is fair. *)
Lemma round_robin_fair : fair round_robin.
Proof.
  assert (Hshift : ∀ n j, round_robin (n + j) = round_robin (n mod 18 + j)).
  { intros n j. unfold round_robin. f_equal.
    by rewrite <- Nat.Div0.add_mod_idemp_l. }
  assert (Hall : forallb (λ m, forallb (λ x, forallb (λ y,
            existsb (λ k, (round_robin (m + 2 * k) mod 3 =? x) &&
                          (round_robin (m + (2 * k + 1)) mod 3 =? y))
                    (seq 0 9)) (seq 0 3)) (seq 0 3)) (seq 0 18) = true)
    by (vm_compute; reflexivity).
  intros n x y Hx Hy.
  pose proof (Nat.mod_upper_bound n 18) as Hm.
  pose proof (proj1 (forallb_forall _ _) Hall (n mod 18)
                ltac:(apply in_seq; lia)) as H1.
  pose proof (proj1 (forallb_forall _ _) H1 x ltac:(apply in_seq; lia)) as H2.
  pose proof (proj1 (forallb_forall _ _) H2 y ltac:(apply in_seq; lia)) as H3.
  clear Hall H1 H2. rename H3 into Hall.
  apply existsb_exists in Hall as (k & _ & Hk).
  apply andb_true_iff in Hk as [Hk1 Hk2].
  apply Nat.eqb_eq in Hk1, Hk2.
  exists k.
  by rewrite (Hshift n (2 * k)), <- Nat.add_assoc, (Hshift n (2 * k + 1)).
Qed.

(** The end of [make_comp_move] once the root has children: the move it
    returns is an empty cell of the root's board. *)
Lemma final_choice s n b :
  Inv no_exn s → nodes s !! 0 = Some n → 2 ≤ visits n →
  boards s !! game_state n = Some b →
  ∃ x y, x < 3 ∧ y < 3 ∧ cell_of b (x, y) = Some X ∧
    (comp_move_state <- calc_highest_visits 0 ;
     r <- get_node 0 ;
     game <- get_board (game_state r) ;
     comp <- get_board comp_move_state ;
     lift (find_comp_move game comp)) s = Ok ((Z.of_nat x, Z.of_nat y), s).
Proof.
  intros (Htree & _ & [[]|[Hbo Hexp]]) Hn Hv Hb.
  destruct (wpg_total
    (comp_move_state <- calc_highest_visits 0 ;
     r <- get_node 0 ;
     game <- get_board (game_state r) ;
     comp <- get_board comp_move_state ;
     lift (find_comp_move game comp))
    (λ xy s', ∃ x y, x < 3 ∧ y < 3 ∧ cell_of b (x, y) = Some X ∧
                     xy = (Z.of_nat x, Z.of_nat y) ∧ s' = s) s)
    as (xy & s' & Hrun & x & y & Hx & Hy & Hcell & -> & ->).
  - apply wpg_bind. eapply wpg_calc_highest_visits; [done|by apply Hexp| |].
    { intros c Hc. destruct (tree_children s Htree 0 n c Hn Hc)
        as (_ & nc & Hnc & _). eauto. }
    intros i c nc _ Hi Hnc.
    assert (Hc : c ∈ children n) by (by eapply list_elem_of_lookup_2).
    destruct (bo_shape s Hbo c nc Hnc) as (bc & Hbc & _).
    destruct (bo_shape s Hbo 0 n Hn) as (b' & Hb' & H3).
    assert (b' = b) as -> by congruence.
    destruct (bo_child s Hbo 0 n c nc b bc Hn Hc Hnc Hb Hbc)
      as ([x y] & Hcell & ->).
    apply wpg_bind. eapply wpg_get_node; [done|].
    apply wpg_bind. eapply wpg_get_board; [done|].
    apply wpg_bind. eapply wpg_get_board; [done|].
    apply wpg_lift. rewrite find_comp_move_child by done.
    destruct (cell_of_3x3 b (x, y) X H3 Hcell) as [Hx Hy].
    by exists x, y.
  - by exists x, y.
Qed.

(** After the thousand passes on a board that is 3 by 3 and not full, the
    end of [make_comp_move] returns an empty cell of that board and leaves
    the store as it is. *)
Lemma make_comp_move_tail fuel rnd h b c num s1 :
  is3x3 b = true → check_for_draw b = false →
  iterations fuel rnd 1000 0 (started h b c num) = Ok (tt, s1) →
  ∃ x y, x < 3 ∧ y < 3 ∧ cell_of b (x, y) = Some X ∧
    make_comp_move fuel rnd (length h) num (entry h b c) =
      Ok ((Z.of_nat x, Z.of_nat y), s1).
Proof.
  intros H3 Hd Hrun. rewrite make_comp_move_run, Hrun.
  pose proof (wpg_iterations rnd no_exn fuel 1000 (started h b c num)) as Hw.
  unfold wpg in Hw. rewrite Hrun in Hw.
  destruct Hw as (HInv & [Hkb Hkt] & Hroot);
    [apply Inv_started; by right|simpl; eauto|].
  destruct (Hroot _ eq_refl) as (n' & Hn' & Hv).
  destruct (Hkt 0 _ eq_refl) as (n'' & Hn'' & _ & Hg & _).
  assert (n'' = n') as -> by congruence. simpl in Hg, Hv.
  apply (final_choice s1 n' b HInv Hn'); [lia|].
  rewrite Hg. apply Hkb. simpl.
  by rewrite lookup_app_r, Nat.sub_diag by lia.
Qed.

(** C7: on a board that is 3 by 3 and has an empty cell, [make_comp_move]
    raises no exception, and the pair it returns is a row and a column in
    0..2 of an empty cell of the board: the only one when the board has
    exactly one empty cell, whatever the random draws are.  When the random
    source keeps dealing every cell, the call does return, for every bound
    on the loops that is large enough. *)
Theorem make_comp_move_spec (rnd : nat → nat) (h : list board) (b : board)
    (c : nat) (num : Z) :
  is3x3 b = true → check_for_draw b = false →
  (∀ fuel,
     match make_comp_move fuel rnd (length h) num (entry h b c) with
     | Ok (xy, _) =>
         ∃ x y, xy = (Z.of_nat x, Z.of_nat y) ∧ x < 3 ∧ y < 3 ∧
                cell_of b (x, y) = Some X ∧
                (∀ x0 y0, empties b = [(x0, y0)] → x = x0 ∧ y = y0)
     | Raise _ => False
     | OutOfFuel => True
     end) ∧
  (fair rnd →
   ∃ f xy s', ∀ fuel, f ≤ fuel →
     make_comp_move fuel rnd (length h) num (entry h b c) = Ok (xy, s')) ∧
  (∀ x0 y0, empties b = [(x0, y0)] → fair rnd →
   ∃ f s', ∀ fuel, f ≤ fuel →
     make_comp_move fuel rnd (length h) num (entry h b c) =
       Ok ((Z.of_nat x0, Z.of_nat y0), s')).
Proof.
  intros H3 Hd.
  assert (Honly : ∀ x y x0 y0, cell_of b (x, y) = Some X →
            empties b = [(x0, y0)] → x = x0 ∧ y = y0).
  { intros x y x0 y0 Hcell Hone. apply elem_of_empties in Hcell.
    rewrite Hone in Hcell. apply list_elem_of_singleton in Hcell.
    by injection Hcell. }
  assert (Hconv : fair rnd →
    ∃ f x y s', x < 3 ∧ y < 3 ∧ cell_of b (x, y) = Some X ∧
      ∀ fuel, f ≤ fuel →
        make_comp_move fuel rnd (length h) num (entry h b c) =
          Ok ((Z.of_nat x, Z.of_nat y), s')).
  { intros Hfair.
    destruct (iterations_terminates rnd 1000 Hfair (started h b c num))
      as (f & s1 & Hrun); [apply Inv_started; by right|simpl; eauto|].
    destruct (make_comp_move_tail f rnd h b c num s1 H3 Hd (Hrun f (le_n f)))
      as (x & y & Hx & Hy & Hcell & Hmove).
    exists f, x, y, s1. split_and!; [done..|].
    intros fuel Hfuel.
    by apply (make_comp_move_mono rnd f fuel _ _ Hfuel). }
  split_and!.
  - intros fuel.
    destruct (iterations fuel rnd 1000 0 (started h b c num))
      as [[[] s1]|e|] eqn:Hrun.
    + destruct (make_comp_move_tail fuel rnd h b c num s1 H3 Hd Hrun)
        as (x & y & Hx & Hy & Hcell & ->).
      exists x, y. split_and!; [done..|]. intros x0 y0. by apply Honly.
    + pose proof (wpg_iterations rnd no_exn fuel 1000 (started h b c num))
        as Hw.
      unfold wpg in Hw. rewrite Hrun in Hw.
      destruct Hw; [apply Inv_started; by right|simpl; eauto].
    + by rewrite make_comp_move_run, Hrun.
  - intros Hfair.
    destruct (Hconv Hfair) as (f & x & y & s' & _ & _ & _ & Hrun).
    by exists f, (Z.of_nat x, Z.of_nat y), s'.
  - intros x0 y0 Hone Hfair.
    destruct (Hconv Hfair) as (f & x & y & s' & _ & _ & Hcell & Hrun).
    destruct (Honly x y x0 y0 Hcell Hone) as [-> ->].
    by exists f, s'.
Qed.

(** * Further properties of the code *)

(** ** The oracle *)

Lemma check_for_win_has_line (b : board) (p : Z) :
  is3x3 b = true → check_for_win b p = Ok (has_line b p).
Proof.
  intros H3.
  destruct (is3x3_inv b H3)
    as (a0 & a1 & a2 & d0 & d1 & d2 & e0 & e1 & e2 & ->).
  unfold check_for_win, has_line, holds, lines, all3, getitem2, cell_of.
  cbn.
  destruct (cell_is a0 p), (cell_is a1 p), (cell_is a2 p),
           (cell_is d0 p), (cell_is d1 p), (cell_is d2 p),
           (cell_is e0 p), (cell_is e1 p), (cell_is e2 p); reflexivity.
Qed.

(** On a board that is 3 by 3, [check_for_win] returns [True] exactly when
    one of the three rows, the three columns or the two diagonals holds the
    player's number in its three cells; it raises nothing. *)
Theorem check_for_win_lines (b : board) (p : Z) :
  is3x3 b = true → check_for_win b p = Ok (has_line b p).
Proof. apply check_for_win_has_line. Qed.


(** [check_for_win] raises nothing but [IndexError], and that only on a
    board that is not 3 by 3; it has no loop that could run on. *)
Theorem check_for_win_errors (b : board) (p : Z) :
  check_for_win b p ≠ OutOfFuel ∧
  ∀ e, check_for_win b p = Raise e → e = IndexError ∧ is3x3 b = false.
Proof.
  pose proof (index_result_check_for_win b p) as Hres.
  split.
  - intros Heq. by rewrite Heq in Hres.
  - intros e Heq. rewrite Heq in Hres. simpl in Hres. split; [done|].
    destruct (is3x3 b) eqn:H3; [|done].
    destruct (check_for_win_3x3 b p H3) as [w Hw]. congruence.
Qed.


(** [check_for_draw] returns [True] exactly when no cell of the board is
    ["X"], whatever the shape of the board: a board without cells is a
    draw. *)
Theorem check_for_draw_spec (b : board) :
  (check_for_draw b = true ↔ ∀ xy c, cell_of b xy = Some c → c ≠ X) ∧
  (check_for_draw b = true ↔ empties b = []) ∧
  (check_for_draw b = true ↔ count_X b = 0).
Proof.
  split_and!.
  - split.
    + intros Hd xy c Hc ->.
      assert (check_for_draw b = false) by (apply check_for_draw_false; eauto).
      congruence.
    + intros Hall. destruct (check_for_draw b) eqn:Hd; [done|].
      apply check_for_draw_false in Hd as [xy Hxy]. by destruct (Hall xy X).
  - symmetry. apply empties_nil.
  - unfold check_for_draw, count_X.
    induction (concat b) as [|c l IH]; [done|].
    cbn. destruct (is_X c); cbn; [split; [done|lia]|exact IH].
Qed.

(** ** The final choice *)

(** [calc_highest_visits] raises [IndexError] on a node without children;
    otherwise it returns the board of the child with the most visits, the
    one with the lowest index among equals, and changes nothing. *)
Theorem calc_highest_visits_spec (s : Store) (node : nat) (n : Node) :
  nodes s !! node = Some n →
  (∀ c, c ∈ children n → is_Some (nodes s !! c)) →
  (children n = [] → calc_highest_visits node s = Raise IndexError) ∧
  (children n ≠ [] →
   ∃ i c nc v,
     children n !! i = Some c ∧ nodes s !! c = Some nc ∧ visits nc = v ∧
     (∀ j w, visits_of s n j = Some w → w ≤ v) ∧
     (∀ j w, j < i → visits_of s n j = Some w → w < v) ∧
     calc_highest_visits node s = Ok (game_state nc, s)).
Proof.
  intros Hn Hch. split.
  - intros Hnil. unfold calc_highest_visits, child_at, bind, get_node.
    by rewrite Hn, Hnil.
  - intros Hne.
    destruct (wpg_total (calc_highest_visits node)
      (λ g s', ∃ i c nc, most_visited s n i ∧ children n !! i = Some c ∧
                         nodes s !! c = Some nc ∧ g = game_state nc ∧ s' = s) s)
      as (g & s' & Hrun & i & c & nc & (v & Hv & Hmax & Hfirst) & Hi & Hc & -> & ->).
    { eapply wpg_calc_highest_visits; [done..|]. intros i c nc ???.
      by exists i, c, nc. }
    exists i, c, nc, v. split_and!; try done.
    unfold visits_of in Hv. rewrite Hi in Hv. simpl in Hv.
    rewrite Hc in Hv. simpl in Hv. congruence.
Qed.


(** [find_comp_move] returns the first cell, in row-major order, at which
    the two boards differ. *)
Theorem find_comp_move_first_difference (game_state comp_move_state : board)
    (i j : nat) (c c' : cell) :
  cell_of game_state (i, j) = Some c →
  cell_of comp_move_state (i, j) = Some c' → c ≠ c' →
  (∀ xy v, row_major xy (i, j) → cell_of game_state xy = Some v →
           cell_of comp_move_state xy = Some v) →
  find_comp_move game_state comp_move_state = Ok (Z.of_nat i, Z.of_nat j).
Proof.
  intros Hc Hc' Hne Hbefore.
  unfold cell_of in Hc. simpl in Hc.
  destruct (game_state !! i) as [row|] eqn:Hrow; [|done]. simpl in Hc.
  apply (find_in_rows_diff 0 game_state comp_move_state i row j c c');
    [done|done|by apply getitem2_cell_of|done| |].
  - intros j' v Hj' Hv. apply getitem2_cell_of.
    apply (Hbefore (i, j') v); [right; simpl; lia|].
    unfold cell_of. simpl. by rewrite Hrow.
  - intros i' row' j' v Hi' Hrow' Hv. apply getitem2_cell_of.
    apply (Hbefore (i', j') v); [left; simpl; lia|].
    unfold cell_of. simpl. by rewrite Hrow'.
Qed.


(** ** The UCB1 score *)

(** The failures of [calculate_UCB1], in the order the source meets them:
    the root has no parent to read ([AttributeError]); a child without a
    visit makes the division fail ([ZeroDivisionError]), also when its
    parent has no visit either; a visited child of a parent without a visit
    makes [math.log2] fail ([ValueError]). *)
Theorem calculate_UCB1_errors (s : Store) (child : nat) (c : Node) :
  nodes s !! child = Some c →
  (parent c = None → calculate_UCB1 child s = Raise AttributeError) ∧
  (∀ p np, parent c = Some p → nodes s !! p = Some np →
     (visits c = 0 → calculate_UCB1 child s = Raise ZeroDivisionError) ∧
     (1 ≤ visits c → visits np = 0 →
        calculate_UCB1 child s = Raise ValueError) ∧
     (1 ≤ visits c → 1 ≤ visits np →
        ∃ u s', calculate_UCB1 child s = Ok (u, s'))).
Proof.
  intros Hc. unfold calculate_UCB1, bind, get_node, log_ucb, raise, ret.
  rewrite Hc. split.
  - by intros ->.
  - intros p np -> Hnp. rewrite Hnp. split_and!.
    + by intros ->.
    + intros Hv Hz. rewrite Hz. destruct (visits c); [lia|done].
    + intros Hv Hpv. destruct (visits c); [lia|].
      destruct (visits np); [lia|]. simpl. eauto.
Qed.


(** The argument of [math.sqrt] in [calculate_UCB1] is not negative in
    binary64 arithmetic, whatever the visits of the child are, when the
    logarithm of the parent's visits is not negative, as the logarithm of a
    count from 1 on is: the domain error of [math.sqrt] cannot occur. *)
Theorem sqrt_argument_not_negative (num_visits num_parent_visits : nat) :
  (math_log2 (float_of_count num_parent_visits) <? 0)%float = false →
  (math_log2 (float_of_count num_parent_visits) / float_of_count num_visits
   <? 0)%float = false.
Proof. apply div_not_neg. Qed.

(** ** The loop of [make_comp_move] *)

(** Every pass of the loop adds exactly one visit to the root: after [k]
    passes the root has [k] visits, whatever the board is. *)
Theorem root_visits_count (fuel : nat) (rnd : nat → nat) (k : nat)
    (h : list board) (b : board) (c : nat) (num : Z) (root : nat) (s : Store) :
  search fuel rnd k (length h) num (entry h b c) = Ok (root, s) →
  ∃ n, nodes s !! root = Some n ∧ visits n = k ∧ parent n = None ∧
       player n = num.
Proof.
  rewrite search_run. intros Hrun.
  pose proof (wpg_iterations rnd index_only fuel k (started h b c num)) as Hw.
  unfold wpg in Hw.
  destruct (iterations fuel rnd k 0 (started h b c num)) as [[[] s']|e|];
    [|done..].
  injection Hrun as <- <-.
  destruct Hw as (_ & [_ Hkt] & Hroot);
    [apply Inv_started; by left|simpl; eauto|].
  destruct (Hroot _ eq_refl) as (n & Hn & Hv).
  destruct (Hkt 0 _ eq_refl) as (n' & Hn' & Hp & _ & Hpl & _).
  assert (n' = n) as -> by congruence.
  by exists n.
Qed.


(** ** Simulation *)

Lemma wpg_rollout_loop_playout fuel rnd g n :
  ∀ p s b (Q : option Z → Store → Prop),
    boards s !! g = Some b → is3x3 b = true →
    (∀ r b' p' k, playout b p b' p' → rollout_outcome b' p' r →
       is3x3 b' = true →
       Q r (mkStore (nodes s) (<[g := b']> (boards s)) (cursor s + k)
                    (ucb_log s))) →
    wpg True no_exn (rollout_loop fuel rnd n g p) Q s.
Proof.
  induction n as [|n IH]; intros p s b Q Hb H3 HQ; [done|].
  assert (Q_same : ∀ r, rollout_outcome b p r → Q r s).
  { intros r Hr. specialize (HQ r b p 0 (playout_stop b p) Hr H3).
    rewrite list_insert_id, Nat.add_0_r in HQ by done. by destruct s. }
  simpl. apply wpg_bind. eapply wpg_get_board; [done|].
  apply wpg_bind. apply wpg_lift.
  destruct (check_for_win_3x3 b p H3) as [w Hw]. rewrite Hw.
  destruct (negb w && negb (check_for_draw b)) eqn:Hcont.
  - apply andb_true_iff in Hcont as [Hnw Hnd].
    apply negb_true_iff in Hnw, Hnd. subst w.
    apply wpg_bind. apply wpg_randint02.
    apply wpg_bind. apply wpg_randint02.
    apply wpg_bind. eapply wpg_resample;
      [done|apply mod3_lt|apply mod3_lt|by right|].
    intros [x y] k Hxy. simpl in Hxy.
    apply wpg_bind. eapply wpg_setitem; [done..|].
    unfold with_boards; cbn [nodes boards cursor ucb_log fst snd].
    eapply IH.
    + cbn. apply list_lookup_insert_eq. by eapply lookup_lt_Some.
    + by apply set_cell_3x3.
    + intros r b' p' k' Hplay Hout Hb'. cbn. rewrite list_insert_insert_eq.
      refine (eq_ind _ (Q r) (HQ r b' p' (2 + k + k') _ Hout Hb') _ _).
      * apply (playout_move b p (x, y)); [done|done| |exact Hplay].
        by apply getitem2_cell_of.
      * f_equal. lia.
  - apply wpg_bind. apply wpg_lift.
    destruct w.
    + apply wpg_ret, Q_same. by left.
    + simpl in Hcont. apply negb_false_iff in Hcont. rewrite Hcont.
      apply wpg_ret, Q_same. by right.
Qed.

(** A playout keeps the board 3 by 3, keeps every mark, and the player who
    moved last on its final board is the one who moved last at the start or
    one of the players 1 and 2. *)
Lemma playout_keeps b p b' p' :
  playout b p b' p' → is3x3 b = true →
  is3x3 b' = true ∧ count_X b' ≤ count_X b ∧
  (p' = p ∨ p' = 1%Z ∨ p' = 2%Z) ∧
  ∀ xy q, cell_of b xy = Some (Mark q) → cell_of b' xy = Some (Mark q).
Proof.
  induction 1 as [b p|b p [x y] b' p' Hw Hd Hcell Hplay IH]; intros H3.
  - split_and!; [done|done|by left|done].
  - destruct IH as (H3' & Hcount & Hp & Hcells); [by apply set_cell_3x3|].
    split_and!; [done| | |].
    + pose proof (count_X_set_cell b x y (flip p) H3
                    (proj2 (getitem2_cell_of b x y X) Hcell)).
      unfold child_board in Hcount. simpl in Hcount. lia.
    + right. destruct Hp as [->|Hp]; [|done].
      unfold flip. destruct (p =? 1)%Z; auto.
    + intros xy q Hq. apply Hcells. unfold child_board. simpl.
      rewrite cell_of_set_cell by (by rewrite Hcell).
      destruct (decide (xy = (x, y))) as [->|]; [congruence|done].
Qed.

(** [rollout] on a board that is 3 by 3 raises nothing.  When it returns,
    it has played a playout on a copy of the board: the board itself, the
    other boards and the nodes are as before; the result is the player who
    moved last on the final board when that board is won by that player,
    and -20 when the final board is full without such a win; it is never
    [None].  No mark of the starting board is lost on the way.  With a
    random source that keeps dealing every cell, [rollout] returns for
    every bound that is large enough. *)
Theorem rollout_spec (rnd : nat → nat) (game_state : nat) (player : Z)
    (s : Store) (b : board) :
  boards s !! game_state = Some b → is3x3 b = true →
  (∀ fuel,
     match rollout fuel rnd game_state player s with
     | Ok (r, s') =>
         ∃ b' p' k,
           playout b player b' p' ∧ rollout_outcome b' p' r ∧
           (r = Some player ∨ r = Some 1%Z ∨ r = Some 2%Z ∨
            r = Some (-20)%Z) ∧
           (∀ xy q, cell_of b xy = Some (Mark q) →
                    cell_of b' xy = Some (Mark q)) ∧
           s' = mkStore (nodes s) (boards s ++ [b']) (cursor s + k)
                        (ucb_log s)
     | Raise _ => False
     | OutOfFuel => True
     end) ∧
  (fair rnd →
   ∃ f r s', ∀ fuel, f ≤ fuel →
     rollout fuel rnd game_state player s = Ok (r, s')).
Proof.
  intros Hb H3. split.
  - intros fuel.
    change (wpg True no_exn (rollout fuel rnd game_state player)
      (λ r s', ∃ b' p' k,
         playout b player b' p' ∧ rollout_outcome b' p' r ∧
         (r = Some player ∨ r = Some 1%Z ∨ r = Some 2%Z ∨
          r = Some (-20)%Z) ∧
         (∀ xy q, cell_of b xy = Some (Mark q) →
                  cell_of b' xy = Some (Mark q)) ∧
         s' = mkStore (nodes s) (boards s ++ [b']) (cursor s + k)
                      (ucb_log s)) s).
    unfold rollout. apply wpg_bind. eapply wpg_deepcopy; [done|].
    eapply wpg_rollout_loop_playout; [by apply list_lookup_middle|done|].
    intros r b' p' k Hplay Hout Hb'. cbn.
    destruct (playout_keeps b player b' p' Hplay H3) as (_ & _ & Hp & Hcells).
    exists b', p', k. split_and!; [done|done| |done|].
    + destruct Hout as [[_ ->]|(_ & _ & ->)]; [|by auto].
      destruct Hp as [->|[->| ->]]; auto.
    + rewrite <- (Nat.add_0_r (length (boards s))), insert_app_r. done.
  - intros Hfair.
    destruct (rollout_terminates rnd game_state b player s Hfair H3 Hb)
      as (f & r & s' & Hrun).
    exists f, r, s'. intros fuel Hfuel.
    by apply (rollout_mono rnd f fuel game_state player Hfuel).
Qed.


(** ** Wins and visits *)

Section StatsOk.
Implicit Types (s : Store) (n : Node).

Lemma keeps_stats_ok_refl s : keeps_stats_ok s s.
Proof. by intros H. Qed.

Lemma keeps_stats_ok_trans s1 s2 s3 :
  keeps_stats_ok s1 s2 → keeps_stats_ok s2 s3 → keeps_stats_ok s1 s3.
Proof. intros H12 H23 H. by apply H23, H12. Qed.

Lemma same_nodes_keeps_stats_ok s s' : same_nodes s s' → keeps_stats_ok s s'.
Proof. intros Hn Hok i n Hi. apply (Hok i). by rewrite <- Hn. Qed.

Lemma stats_ok_insert s i n :
  stats_ok s →
  (0 <= wins n)%Q ∧ (wins n <= inject_Z (Z.of_nat (visits n)))%Q →
  stats_ok (with_nodes <[i := n]> s).
Proof.
  intros Hok Hn j nj. cbn. intros Hj.
  destruct (decide (j = i)) as [->|Hne].
  - destruct (decide (i < length (nodes s))) as [Hlt|Hge].
    + rewrite list_lookup_insert_eq in Hj by done. by injection Hj as <-.
    + rewrite list_insert_ge in Hj by lia. by apply (Hok i).
  - rewrite list_lookup_insert_ne in Hj by done. by apply (Hok j).
Qed.

Lemma keeps_stats_ok_upd_node i f :
  (∀ n, wins (f n) = wins n ∧ visits (f n) = visits n) →
  preserves keeps_stats_ok (upd_node i f).
Proof.
  intros Hf s a s'. unfold upd_node.
  destruct (nodes s !! i) as [n|] eqn:Hn; [|done]. intros [= _ <-] Hok.
  apply stats_ok_insert; [done|].
  destruct (Hf n) as [-> ->]. by apply (Hok i).
Qed.

Lemma keeps_stats_ok_new_node game pl par :
  preserves keeps_stats_ok (new_node game pl par).
Proof.
  intros s a s' [= _ <-] Hok j nj. cbn. intros Hj.
  apply lookup_app_Some in Hj as [Hj|[_ Hj]]; [by apply (Hok j)|].
  apply list_lookup_singleton_Some in Hj as [_ <-]. by cbn.
Qed.

Ltac sok_pure :=
  first
    [ apply (preserves_ret keeps_stats_ok keeps_stats_ok_refl)
    | apply (preserves_lift keeps_stats_ok keeps_stats_ok_refl)
    | apply (preserves_get_node keeps_stats_ok keeps_stats_ok_refl)
    | apply (preserves_get_board keeps_stats_ok keeps_stats_ok_refl)
    | apply (preserves_child_at keeps_stats_ok keeps_stats_ok_refl
               keeps_stats_ok_trans)
    | apply (preserves_getitem keeps_stats_ok keeps_stats_ok_refl
               keeps_stats_ok_trans)
    | apply keeps_stats_ok_new_node
    | by apply keeps_stats_ok_upd_node
    | apply (preserves_weaken same_nodes keeps_stats_ok _
               same_nodes_keeps_stats_ok (same_nodes_deepcopy _))
    | apply (preserves_weaken same_nodes keeps_stats_ok _
               same_nodes_keeps_stats_ok (same_nodes_setitem _ _ _ _))
    | apply (preserves_weaken same_nodes keeps_stats_ok _
               same_nodes_keeps_stats_ok (same_nodes_traverse_rec _ _))
    | apply (preserves_weaken same_nodes keeps_stats_ok _
               same_nodes_keeps_stats_ok (same_nodes_rollout _ _ _ _)) ].

Ltac sok_bind :=
  apply (preserves_bind keeps_stats_ok keeps_stats_ok_trans); [|intros ?].

Lemma keeps_stats_ok_expand_cell current cgs x y :
  preserves keeps_stats_ok (expand_cell current cgs x y).
Proof.
  unfold expand_cell. sok_bind; [sok_pure|].
  destruct (is_X _); [|sok_pure].
  repeat (sok_bind; [try sok_pure|]); try sok_pure.
  all: by destruct (_ : bool); sok_pure.
Qed.

Lemma keeps_stats_ok_expand current :
  preserves keeps_stats_ok (expand current).
Proof.
  unfold expand. sok_bind; [sok_pure|]. sok_bind; [sok_pure|].
  sok_bind; [sok_pure|].
  apply (preserves_for_each keeps_stats_ok keeps_stats_ok_refl
           keeps_stats_ok_trans).
  intros xrow.
  apply (preserves_for_each keeps_stats_ok keeps_stats_ok_refl
           keeps_stats_ok_trans).
  intros yplace. apply keeps_stats_ok_expand_cell.
Qed.

Lemma credited_stats_ok r n :
  (0 <= wins n)%Q ∧ (wins n <= inject_Z (Z.of_nat (visits n)))%Q →
  (0 <= wins (credited r n))%Q ∧
  (wins (credited r n) <= inject_Z (Z.of_nat (visits (credited r n))))%Q.
Proof.
  intros [H0 H1].
  assert (Hv : (inject_Z (Z.of_nat (visits n + 1))
                == inject_Z (Z.of_nat (visits n)) + 1)%Q).
  { by rewrite Nat2Z.inj_add, inject_Z_plus. }
  unfold credited, add_visit, add_wins.
  repeat case_bool_decide; cbn [wins visits]; rewrite Hv; split; Lqa.lra.
Qed.

Lemma keeps_stats_ok_back_propagate_loop fuel :
  ∀ cur r, preserves keeps_stats_ok (back_propagate_loop fuel cur r).
Proof.
  induction fuel as [|fuel IH]; intros [cur|] r s a s' Hrun Hok;
    try (injection Hrun as _ <-; done); [done|].
  destruct (nodes s !! cur) as [n|] eqn:Hn.
  - rewrite (back_propagate_loop_step fuel cur r s n Hn) in Hrun.
    apply (IH _ _ _ _ _ Hrun).
    apply stats_ok_insert; [done|]. apply credited_stats_ok. by apply (Hok cur).
  - exfalso. revert Hrun. simpl. unfold bind, upd_node, get_node.
    case_bool_decide; by rewrite Hn.
Qed.

Lemma keeps_stats_ok_iteration fuel rnd root :
  preserves keeps_stats_ok (iteration fuel rnd root).
Proof.
  unfold iteration, traverse, back_propagate.
  sok_bind; [sok_pure|]. sok_bind; [sok_pure|].
  destruct (_ || _).
  - sok_bind; [sok_pure|]. apply keeps_stats_ok_back_propagate_loop.
  - sok_bind; [apply keeps_stats_ok_expand|].
    sok_bind; [sok_pure|]. sok_bind; [sok_pure|].
    sok_bind; [sok_pure|]. apply keeps_stats_ok_back_propagate_loop.
Qed.

Lemma keeps_stats_ok_iterations fuel rnd k root :
  preserves keeps_stats_ok (iterations fuel rnd k root).
Proof.
  induction k as [|k IH]; simpl; [sok_pure|].
  sok_bind; [apply keeps_stats_ok_iteration|apply IH].
Qed.

End StatsOk.

(** In every state the search reaches, from whatever store it starts, the
    wins of every node are at least 0 and at most its visits: each
    back-propagation adds one visit and at most one win. *)
Theorem wins_at_most_visits (fuel : nat) (rnd : nat → nat) (k : nat)
    (state : nat) (num : Z) (s0 : Store) (root : nat) (s : Store) :
  (∀ i n, nodes s0 !! i = Some n →
     (0 <= wins n)%Q ∧ (wins n <= inject_Z (Z.of_nat (visits n)))%Q) →
  search fuel rnd k state num s0 = Ok (root, s) →
  ∀ i n, nodes s !! i = Some n →
    (0 <= wins n)%Q ∧ (wins n <= inject_Z (Z.of_nat (visits n)))%Q.
Proof.
  intros Hok Hrun. change (stats_ok s). revert Hok. change (keeps_stats_ok s0 s).
  revert Hrun. unfold search.
  generalize root. 
  assert (H : preserves keeps_stats_ok
                (root <- new_node state num None ;
                 iterations fuel rnd k root ;; ret root)).
  { apply (preserves_bind keeps_stats_ok keeps_stats_ok_trans);
      [apply keeps_stats_ok_new_node|intros r].
    apply (preserves_bind keeps_stats_ok keeps_stats_ok_trans);
      [apply keeps_stats_ok_iterations|intros _].
    apply (preserves_ret keeps_stats_ok keeps_stats_ok_refl). }
  intros r Hrun. by eapply H.
Qed.


(** ** The game *)

Ltac z_cases :=
  repeat match goal with
    | |- context [(?a <=? ?b)%Z] => destruct (Z.leb_spec a b)
    | |- context [(?a <? ?b)%Z] => destruct (Z.ltb_spec a b)
    end.

(** Indexing a list of three elements. *)
Lemma py_pos_3 {A : Type} (l : list A) (i : Z) :
  length l = 3 →
  py_pos l i =
    if decide (-3 ≤ i < 3)%Z then Ok (Z.to_nat (i mod 3)) else Raise IndexError.
Proof.
  intros Hlen. unfold py_pos. rewrite Hlen.
  change (Z.of_nat 3) with 3%Z. change (- (3))%Z with (-3)%Z.
  destruct (decide _) as [Hi|Hi].
  - assert (i = -3 ∨ i = -2 ∨ i = -1 ∨ i = 0 ∨ i = 1 ∨ i = 2)%Z
      as [->|[->|[->|[->|[->| ->]]]]] by lia; reflexivity.
  - z_cases; simpl; try reflexivity; lia.
Qed.

Lemma py_pos2_3x3 (b : board) (i j : Z) :
  is3x3 b = true →
  py_pos2 b i j =
    if decide ((-3 ≤ i < 3)%Z ∧ (-3 ≤ j < 3)%Z)
    then Ok (Z.to_nat (i mod 3), Z.to_nat (j mod 3))
    else Raise IndexError.
Proof.
  intros H3.
  destruct (is3x3_inv b H3)
    as (a0 & a1 & a2 & d0 & d1 & d2 & e0 & e1 & e2 & ->).
  unfold py_pos2. rewrite py_pos_3 by done.
  destruct (decide (-3 ≤ i < 3)%Z) as [Hi|Hi].
  - assert (Hx : Z.to_nat (i mod 3) < 3).
    { pose proof (Z.mod_pos_bound i 3). lia. }
    cbn [rbind].
    destruct (Z.to_nat (i mod 3)) as [|[|[|x]]] eqn:Hxi; [| | |lia];
      cbn [lookup list_lookup]; simpl; rewrite py_pos_3 by done;
      destruct (decide (-3 ≤ j < 3)%Z) as [Hj|Hj]; simpl;
      destruct (decide _) as [H|H]; try reflexivity; tauto.
  - simpl. destruct (decide _) as [H|H]; [tauto|done].
Qed.

Lemma in_123 (z : Z) : z ∈ [1; 2; 3]%Z ↔ (1 ≤ z ≤ 3)%Z.
Proof. rewrite !elem_of_cons, elem_of_nil. lia. Qed.

(** [check_for_legality] reads the cell before it answers. *)
Lemma check_for_legality_run (self : TicTacToe) (s : Store) (b : board)
    (row col : Z) :
  boards s !! game_board self = Some b →
  check_for_legality self row col s =
    match py_pos2 b (row - 1) (col - 1) with
    | Ok xy =>
        match getitem2 b xy.1 xy.2 with
        | Ok c =>
            Ok (if negb (is_X c) then false
                else if bool_decide (col ∉ [1; 2; 3]%Z) then false
                else if bool_decide (row ∉ [1; 2; 3]%Z) then false
                else true, s)
        | Raise e => Raise e
        | OutOfFuel => OutOfFuel
        end
    | Raise e => Raise e
    | OutOfFuel => OutOfFuel
    end.
Proof.
  intros Hb.
  unfold check_for_legality, bind, get_board, getitem, lift, ret.
  rewrite Hb. destruct (py_pos2 b (row - 1) (col - 1)) as [xy|e|]; [|done..].
  unfold bind, get_board. rewrite Hb.
  by destruct (getitem2 b xy.1 xy.2).
Qed.

Lemma check_for_legality_cases (self : TicTacToe) (s : Store) (b : board)
    (row col : Z) :
  boards s !! game_board self = Some b → is3x3 b = true →
  ((1 ≤ row ≤ 3)%Z → (1 ≤ col ≤ 3)%Z →
   ∃ c, cell_of b (Z.to_nat (row - 1), Z.to_nat (col - 1)) = Some c ∧
        check_for_legality self row col s = Ok (is_X c, s)) ∧
  ((-2 ≤ row ≤ 3)%Z → (-2 ≤ col ≤ 3)%Z → (row < 1 ∨ col < 1)%Z →
   check_for_legality self row col s = Ok (false, s)) ∧
  ((row < -2 ∨ 3 < row ∨ col < -2 ∨ 3 < col)%Z →
   check_for_legality self row col s = Raise IndexError).
Proof.
  intros Hb H3.
  rewrite (check_for_legality_run self s b row col Hb), py_pos2_3x3 by done.
  split_and!.
  - intros Hr Hc.
    destruct (decide _) as [_|Hn]; [|lia].
    rewrite !Z.mod_small by lia. cbn [fst snd].
    destruct (getitem2_3x3 b (Z.to_nat (row - 1)) (Z.to_nat (col - 1)) H3)
      as [c Hcell]; [lia|lia|].
    exists c. split; [by apply getitem2_cell_of|]. rewrite Hcell.
    rewrite !bool_decide_eq_false_2 by (rewrite in_123; intros H; by apply H).
    by destruct (is_X c).
  - intros Hr Hc Hlow.
    destruct (decide _) as [_|Hn]; [|lia]. cbn [fst snd].
    destruct (getitem2_3x3 b (Z.to_nat ((row - 1) mod 3))
                (Z.to_nat ((col - 1) mod 3)) H3) as [c Hcell].
    { pose proof (Z.mod_pos_bound (row - 1) 3). lia. }
    { pose proof (Z.mod_pos_bound (col - 1) 3). lia. }
    rewrite Hcell. destruct (negb (is_X c)); [done|].
    destruct Hlow as [Hlow|Hlow].
    + destruct (bool_decide (col ∉ _)); [done|].
      rewrite bool_decide_eq_true_2; [done|]. rewrite in_123. lia.
    + rewrite bool_decide_eq_true_2; [done|]. rewrite in_123. lia.
  - intros Hout. destruct (decide _) as [Hin|_]; [lia|done].
Qed.

(** [check_for_legality] on a board that is 3 by 3: for a row and a column
    in 1..3 it returns whether the cell is empty; for a row or a column
    from -2 to 0 it returns [False], the cell it reads being one counted
    from the end; for a row or a column below -2 or above 3 it does not
    return [False] but raises [IndexError].  It changes nothing. *)
Theorem check_for_legality_spec (self : TicTacToe) (s : Store) (b : board)
    (row col : Z) :
  boards s !! game_board self = Some b → is3x3 b = true →
  ((1 ≤ row ≤ 3)%Z → (1 ≤ col ≤ 3)%Z →
   ∃ c, cell_of b (Z.to_nat (row - 1), Z.to_nat (col - 1)) = Some c ∧
        check_for_legality self row col s = Ok (is_X c, s)) ∧
  ((-2 ≤ row ≤ 3)%Z → (-2 ≤ col ≤ 3)%Z → (row < 1 ∨ col < 1)%Z →
   check_for_legality self row col s = Ok (false, s)) ∧
  ((row < -2 ∨ 3 < row ∨ col < -2 ∨ 3 < col)%Z →
   check_for_legality self row col s = Raise IndexError).
Proof. apply check_for_legality_cases. Qed.


(** A row and a column in 1..3 address the cell one expects. *)
Lemma py_pos2_user (b : board) (row col : Z) :
  is3x3 b = true → (1 ≤ row ≤ 3)%Z → (1 ≤ col ≤ 3)%Z →
  py_pos2 b (row - 1) (col - 1) =
    Ok (Z.to_nat (row - 1), Z.to_nat (col - 1)).
Proof.
  intros H3 Hr Hc. rewrite py_pos2_3x3 by done.
  destruct (decide _) as [_|Hn]; [|lia]. by rewrite !Z.mod_small by lia.
Qed.

(** [make_player_move] with a row and a column in 1..3 writes the user's
    number to that cell of the board of the game, whatever the cell holds,
    and changes nothing else; [check_for_legality] refuses the same row and
    column afterwards. *)
Theorem make_player_move_spec (self : TicTacToe) (s : Store) (b : board)
    (row col : Z) :
  boards s !! game_board self = Some b → is3x3 b = true →
  (1 ≤ row ≤ 3)%Z → (1 ≤ col ≤ 3)%Z →
  let b' := set_cell b (Z.to_nat (row - 1)) (Z.to_nat (col - 1))
              (Mark (user_num self)) in
  let s' := with_boards <[game_board self := b']> s in
  make_player_move self row col s = Ok (tt, s') ∧
  cell_of b' (Z.to_nat (row - 1), Z.to_nat (col - 1))
    = Some (Mark (user_num self)) ∧
  (∀ xy, xy ≠ (Z.to_nat (row - 1), Z.to_nat (col - 1)) →
         cell_of b' xy = cell_of b xy) ∧
  check_for_legality self row col s' = Ok (false, s').
Proof.
  intros Hb H3 Hr Hc b' s'.
  destruct (getitem2_3x3 b (Z.to_nat (row - 1)) (Z.to_nat (col - 1)) H3)
    as [c0 Hc0]; [lia|lia|].
  assert (Hsome : is_Some (cell_of b (Z.to_nat (row - 1), Z.to_nat (col - 1))))
    by (exists c0; by apply getitem2_cell_of).
  assert (Hb' : boards s' !! game_board self = Some b').
  { cbn. apply list_lookup_insert_eq. by eapply lookup_lt_Some. }
  assert (Hcell : cell_of b' (Z.to_nat (row - 1), Z.to_nat (col - 1))
                  = Some (Mark (user_num self))).
  { unfold b'. rewrite cell_of_set_cell by done. by rewrite decide_True. }
  split_and!.
  - unfold make_player_move, bind, get_board, lift, setitem.
    rewrite Hb, py_pos2_user by done. cbn [fst snd]. by rewrite Hb, Hc0.
  - done.
  - intros xy Hne. unfold b'. rewrite cell_of_set_cell by done.
    by rewrite decide_False.
  - destruct (check_for_legality_cases self s' b' row col Hb')
      as [Hin _]; [by apply set_cell_3x3|].
    destruct (Hin Hr Hc) as (c & Hcc & ->).
    rewrite Hcell in Hcc. by injection Hcc as <-.
Qed.


Lemma computer_turn_mono rnd fuel fuel' game :
  fuel ≤ fuel' →
  mle (computer_turn fuel rnd game) (computer_turn fuel' rnd game).
Proof.
  intros Hle. unfold computer_turn.
  apply mle_bind; [apply mle_refl|intros gs].
  apply mle_bind; [by apply make_comp_move_mono|intros comp].
  apply mle_refl.
Qed.

(** After the thousand passes, the computer's turn writes the computer's
    number to the cell [make_comp_move] returns, an empty cell of the board
    of the game. *)
Lemma computer_turn_run fuel rnd game h c b s1 :
  h !! game_board game = Some b →
  is3x3 b = true → check_for_draw b = false →
  iterations fuel rnd 1000 0 (started h b c (user_num game)) = Ok (tt, s1) →
  ∃ x y, cell_of b (x, y) = Some X ∧
    boards s1 !! game_board game = Some b ∧
    computer_turn fuel rnd game (mkStore [] h c []) =
      Ok (tt, with_boards
                <[game_board game := set_cell b x y (Mark (comp_piece game))]>
                s1).
Proof.
  intros Hb H3 Hd Hrun.
  destruct (make_comp_move_tail fuel rnd h b c (user_num game) s1 H3 Hd Hrun)
    as (x & y & Hx & Hy & Hcell & Hmove).
  pose proof (wpg_iterations rnd no_exn fuel 1000
                (started h b c (user_num game))) as Hw.
  unfold wpg in Hw. rewrite Hrun in Hw.
  destruct Hw as (_ & [Hkb _] & _);
    [apply Inv_started; by right|simpl; eauto|].
  assert (Hb1 : boards s1 !! game_board game = Some b).
  { apply Hkb. simpl. by apply lookup_app_l_Some. }
  exists x, y. split_and!; [done|done|].
  unfold computer_turn, bind, deepcopy. cbn [boards]. rewrite Hb.
  change (with_boards (λ h0, h0 ++ [b]) (mkStore [] h c []))
    with (entry h b c).
  rewrite Hmove. unfold get_board, lift, setitem. rewrite Hb1.
  rewrite py_pos2_3x3 by done. cbn [fst snd].
  destruct (decide _) as [_|Hn]; [|lia].
  rewrite !Z.mod_small, !Nat2Z.id by lia. cbn [fst snd].
  rewrite Hb1. by rewrite (proj2 (getitem2_cell_of b x y X) Hcell).
Qed.

Lemma computer_turn_outcome (rnd : nat → nat) (game : TicTacToe)
    (h : list board) (c : nat) (b : board) (fuel : nat) :
  h !! game_board game = Some b →
  is3x3 b = true → check_for_draw b = false →
  match computer_turn fuel rnd game (mkStore [] h c []) with
  | Ok (_, s') =>
      ∃ x y, cell_of b (x, y) = Some X ∧
        boards s' !! game_board game =
          Some (set_cell b x y (Mark (comp_piece game))) ∧
        (∀ r b0, r ≠ game_board game → h !! r = Some b0 →
                 boards s' !! r = Some b0) ∧
        nodes s' ≠ []
  | Raise _ => False
  | OutOfFuel => True
  end.
Proof.
  intros Hb H3 Hd.
  pose proof (wpg_iterations rnd no_exn fuel 1000
                (started h b c (user_num game))) as Hw.
  unfold wpg in Hw.
  destruct (iterations fuel rnd 1000 0 (started h b c (user_num game)))
    as [[[] s1]|e|] eqn:Hrun.
  - destruct (computer_turn_run fuel rnd game h c b s1 Hb H3 Hd Hrun)
      as (x & y & Hcell & Hb1 & ->).
    destruct Hw as (_ & [Hkb Hkt] & _);
      [apply Inv_started; by right|simpl; eauto|].
    exists x, y. split_and!; [done| | |].
    + cbn. apply list_lookup_insert_eq. by eapply lookup_lt_Some.
    + intros r b0 Hr Hb0. cbn. rewrite list_lookup_insert_ne by done.
      apply Hkb. simpl. by apply lookup_app_l_Some.
    + cbn. destruct (Hkt 0 _ eq_refl) as (n' & Hn' & _).
      intros Hnil. by rewrite Hnil in Hn'.
  - destruct Hw; [apply Inv_started; by right|simpl; eauto].
  - unfold computer_turn, bind, deepcopy. cbn [boards]. rewrite Hb.
    change (with_boards (λ h0, h0 ++ [b]) (mkStore [] h c []))
      with (entry h b c).
    by rewrite make_comp_move_run, Hrun.
Qed.

Lemma computer_turn_converges (rnd : nat → nat) (game : TicTacToe)
    (h : list board) (c : nat) (b : board) :
  h !! game_board game = Some b →
  is3x3 b = true → check_for_draw b = false → fair rnd →
  ∃ f s', ∀ fuel, f ≤ fuel →
    computer_turn fuel rnd game (mkStore [] h c []) = Ok (tt, s').
Proof.
  intros Hb H3 Hd Hfair.
  destruct (iterations_terminates rnd 1000 Hfair
              (started h b c (user_num game)))
    as (f & s1 & Hrun); [apply Inv_started; by right|simpl; eauto|].
  destruct (computer_turn_run f rnd game h c b s1 Hb H3 Hd
              (Hrun f (le_n f))) as (x & y & _ & _ & Hturn).
  eexists f, _. intros fuel Hfuel.
  by apply (computer_turn_mono rnd f fuel game Hfuel).
Qed.

(** The computer's turn on a board that is 3 by 3 and has an empty cell, in
    a store without nodes: it raises nothing, and when it ends exactly one
    empty cell of the board of the game holds the computer's number, every
    other cell and every other board being as before.  With a random source
    that keeps dealing every cell it ends. *)
Theorem computer_turn_spec (rnd : nat → nat) (game : TicTacToe)
    (h : list board) (c : nat) (b : board) :
  h !! game_board game = Some b →
  is3x3 b = true → check_for_draw b = false →
  (∀ fuel,
     match computer_turn fuel rnd game (mkStore [] h c []) with
     | Ok (_, s') =>
         ∃ x y, cell_of b (x, y) = Some X ∧
           boards s' !! game_board game =
             Some (set_cell b x y (Mark (comp_piece game))) ∧
           (∀ xy, xy ≠ (x, y) →
              cell_of (set_cell b x y (Mark (comp_piece game))) xy
              = cell_of b xy) ∧
           (∀ r b0, r ≠ game_board game → h !! r = Some b0 →
                    boards s' !! r = Some b0)
     | Raise _ => False
     | OutOfFuel => True
     end) ∧
  (fair rnd →
   ∃ f s', ∀ fuel, f ≤ fuel →
     computer_turn fuel rnd game (mkStore [] h c []) = Ok (tt, s')).
Proof.
  intros Hb H3 Hd. split.
  - intros fuel.
    pose proof (computer_turn_outcome rnd game h c b fuel Hb H3 Hd) as Hout.
    destruct (computer_turn fuel rnd game (mkStore [] h c []))
      as [[[] s']|e|]; [|done..].
    destruct Hout as (x & y & Hcell & Hb' & Hothers & _).
    exists x, y. split_and!; [done|done| |done].
    intros xy Hne. rewrite cell_of_set_cell by (by rewrite Hcell).
    by rewrite decide_False.
  - by apply (computer_turn_converges rnd game h c b).
Qed.


Lemma make_player_move_run (self : TicTacToe) (s : Store) (b : board)
    (row col : Z) :
  boards s !! game_board self = Some b → is3x3 b = true →
  (1 ≤ row ≤ 3)%Z → (1 ≤ col ≤ 3)%Z →
  make_player_move self row col s =
    Ok (tt, with_boards
              <[game_board self :=
                  set_cell b (Z.to_nat (row - 1)) (Z.to_nat (col - 1))
                    (Mark (user_num self))]> s).
Proof.
  intros Hb H3 Hr Hc.
  destruct (getitem2_3x3 b (Z.to_nat (row - 1)) (Z.to_nat (col - 1)) H3)
    as [c0 Hc0]; [lia|lia|].
  unfold make_player_move, bind, get_board, lift, setitem.
  rewrite Hb, py_pos2_user by done. cbn [fst snd]. by rewrite Hb, Hc0.
Qed.

Lemma game_round_typed fuel rnd game user_row user_col s :
  game_round fuel rnd game (Typed user_row) (Typed user_col) s =
  (legal <- check_for_legality game user_row user_col ;
   if legal then
     make_player_move game user_row user_col ;;
     b <- get_board (game_board game) ;
     w <- lift (check_for_win b (user_num game)) ;
     if w then ret (Some UserWon) else
     if check_for_draw b then ret (Some DrawAfterUser) else
     computer_turn fuel rnd game ;;
     b <- get_board (game_board game) ;
     w <- lift (check_for_win b (comp_piece game)) ;
     if w then ret (Some ComputerWon) else
     if check_for_draw b then ret (Some DrawAfterComputer) else
     ret (Some NextRound)
   else ret None) s.
Proof. reflexivity. Qed.

(** One round of the main loop on a board that is 3 by 3, in a store
    without nodes.  The exceptions are the [ValueError] of [int] when the
    row, or after a row the column, is not typed as an integer, the
    [EOFError] of [input] when the input ends there, and the [IndexError]
    of a row or a column below -2 or above 3.  An input is refused, the
    board staying as it is, unless it names an empty cell by a row and a
    column in 1..3; then the user's number is written there.
    [make_comp_move] runs only when that board is neither won by the user
    nor full, so it finds an empty cell, and the computer's number is
    written to one empty cell.  The round ends as the boards say: won by
    the user, full after the user's move, won by the computer, full after
    the computer's move, or to be continued.  With a random source that
    keeps dealing every cell the round does end, for every bound on the
    loops that is large enough. *)
Theorem game_round_spec (rnd : nat → nat) (game : TicTacToe)
    (h : list board) (c : nat) (b : board) (row_typed col_typed : reading) :
  h !! game_board game = Some b → is3x3 b = true →
  (∀ fuel,
     match row_typed, col_typed with
     | NotAnInteger, _ | Typed _, NotAnInteger =>
         game_round fuel rnd game row_typed col_typed (mkStore [] h c [])
         = Raise ValueError
     | EndOfInput, _ | Typed _, EndOfInput =>
         game_round fuel rnd game row_typed col_typed (mkStore [] h c [])
         = Raise EOFError
     | Typed user_row, Typed user_col =>
         let cell := (Z.to_nat (user_row - 1), Z.to_nat (user_col - 1)) in
         let b1 := set_cell b cell.1 cell.2 (Mark (user_num game)) in
         match game_round fuel rnd game row_typed col_typed
                 (mkStore [] h c []) with
         | Raise e =>
             e = IndexError ∧
             (user_row < -2 ∨ 3 < user_row ∨ user_col < -2 ∨ 3 < user_col)%Z
         | OutOfFuel =>
             cell_of b cell = Some X ∧
             has_line b1 (user_num game) = false ∧ check_for_draw b1 = false
         | Ok (None, s') =>
             s' = mkStore [] h c [] ∧
             ¬ ((1 ≤ user_row ≤ 3)%Z ∧ (1 ≤ user_col ≤ 3)%Z ∧
                cell_of b cell = Some X)
         | Ok (Some e, s') =>
             (1 ≤ user_row ≤ 3)%Z ∧ (1 ≤ user_col ≤ 3)%Z ∧
             cell_of b cell = Some X ∧
             match e with
             | UserWon =>
                 has_line b1 (user_num game) = true ∧
                 boards s' !! game_board game = Some b1
             | DrawAfterUser =>
                 has_line b1 (user_num game) = false ∧
                 check_for_draw b1 = true ∧
                 boards s' !! game_board game = Some b1
             | _ =>
                 has_line b1 (user_num game) = false ∧
                 check_for_draw b1 = false ∧
                 ∃ x y, cell_of b1 (x, y) = Some X ∧
                   let b2 := set_cell b1 x y (Mark (comp_piece game)) in
                   boards s' !! game_board game = Some b2 ∧
                   match e with
                   | ComputerWon => has_line b2 (comp_piece game) = true
                   | DrawAfterComputer =>
                       has_line b2 (comp_piece game) = false ∧
                       check_for_draw b2 = true
                   | _ =>
                       has_line b2 (comp_piece game) = false ∧
                       check_for_draw b2 = false
                   end
             end
         end
     end) ∧
  (fair rnd →
   ∃ f r, r ≠ OutOfFuel ∧ ∀ fuel, f ≤ fuel →
     game_round fuel rnd game row_typed col_typed (mkStore [] h c []) = r).
Proof.
  intros Hb H3.
  set (s := mkStore [] h c []).
  assert (Hbs : boards s !! game_board game = Some b) by done.
  split.
  - intros fuel.
    destruct row_typed as [user_row| |], col_typed as [user_col| |];
      try reflexivity.
    intros cell b1. rewrite game_round_typed.
    destruct (check_for_legality_cases game s b user_row user_col Hbs H3)
      as (Hin & Hlow & Hout).
    unfold bind.
    destruct (decide (user_row < -2 ∨ 3 < user_row ∨
                      user_col < -2 ∨ 3 < user_col)%Z) as [Ho|Hno].
    { by rewrite (Hout Ho). }
    destruct (decide (user_row < 1 ∨ user_col < 1)%Z) as [Hl|Hnl].
    { rewrite Hlow by lia. split; [done|]. lia. }
    destruct (Hin ltac:(lia) ltac:(lia)) as (c0 & Hc0 & ->).
    destruct (is_X c0) eqn:HX.
    2:{ split; [done|]. intros (_ & _ & Hcell).
        change (cell_of b cell) with
          (cell_of b (Z.to_nat (user_row - 1), Z.to_nat (user_col - 1)))
          in Hcell.
        rewrite Hc0 in Hcell. injection Hcell as ->.
        by vm_compute in HX. }
    apply bool_decide_eq_true in HX as ->.
    rewrite (make_player_move_run game s b user_row user_col Hbs H3)
      by lia.
    fold cell. change (set_cell b (Z.to_nat (user_row - 1))
                         (Z.to_nat (user_col - 1)) (Mark (user_num game)))
      with b1.
    assert (H31 : is3x3 b1 = true) by (by apply set_cell_3x3).
    assert (Hh1 : <[game_board game := b1]> h !! game_board game = Some b1).
    { apply list_lookup_insert_eq. by eapply lookup_lt_Some. }
    change (with_boards <[game_board game := b1]> s)
      with (mkStore [] (<[game_board game := b1]> h) c []).
    unfold get_board at 1. cbn [boards].
    rewrite Hh1. unfold lift at 1.
    rewrite (check_for_win_has_line b1 (user_num game) H31).
    destruct (has_line b1 (user_num game)) eqn:Hwin1.
    { unfold ret. split_and!; try lia; done. }
    destruct (check_for_draw b1) eqn:Hd1.
    { unfold ret. split_and!; try lia; done. }
    pose proof (computer_turn_outcome rnd game (<[game_board game := b1]> h) c
                  b1 fuel Hh1 H31 Hd1) as Hturn.
    destruct (computer_turn fuel rnd game _) as [[[] s2]|e|]; [|done..].
    destruct Hturn as (x & y & Hcell2 & Hb2 & _ & _).
    unfold get_board. rewrite Hb2. unfold lift.
    assert (H32 : is3x3 (set_cell b1 x y (Mark (comp_piece game))) = true)
      by (by apply set_cell_3x3).
    rewrite (check_for_win_has_line _ (comp_piece game) H32).
    destruct (has_line _ (comp_piece game)) eqn:Hwin2.
    { unfold ret. split_and!; try lia; try done.
      exists x, y. by split_and!. }
    destruct (check_for_draw (set_cell b1 x y _)) eqn:Hd2.
    { unfold ret. split_and!; try lia; try done.
      exists x, y. by split_and!. }
    unfold ret. split_and!; try lia; try done.
    exists x, y. by split_and!.
  - intros Hfair.
    destruct row_typed as [user_row| |], col_typed as [user_col| |];
      try (by eexists 0, (Raise _)).
    destruct (check_for_legality_cases game s b user_row user_col Hbs H3)
      as (Hin & Hlow & Hout).
    destruct (decide (user_row < -2 ∨ 3 < user_row ∨
                      user_col < -2 ∨ 3 < user_col)%Z) as [Ho|Hno].
    { exists 0, (Raise IndexError). split; [done|]. intros fuel _.
      rewrite game_round_typed. unfold bind. by rewrite (Hout Ho). }
    destruct (decide (user_row < 1 ∨ user_col < 1)%Z) as [Hl|Hnl].
    { exists 0, (Ok (None, s)). split; [done|]. intros fuel _.
      rewrite game_round_typed. unfold bind. by rewrite Hlow by lia. }
    destruct (Hin ltac:(lia) ltac:(lia)) as (c0 & Hc0 & Hlegal).
    destruct (is_X c0) eqn:HX.
    2:{ exists 0, (Ok (None, s)). split; [done|]. intros fuel _.
        rewrite game_round_typed. unfold bind. by rewrite Hlegal. }
    set (b1 := set_cell b (Z.to_nat (user_row - 1)) (Z.to_nat (user_col - 1))
                 (Mark (user_num game))).
    set (s1 := mkStore [] (<[game_board game := b1]> h) c []).
    assert (H31 : is3x3 b1 = true) by (by apply set_cell_3x3).
    assert (Hh1 : <[game_board game := b1]> h !! game_board game = Some b1).
    { apply list_lookup_insert_eq. by eapply lookup_lt_Some. }
    assert (Hstart : ∀ fuel,
      game_round fuel rnd game (Typed user_row) (Typed user_col) s =
      if has_line b1 (user_num game) then Ok (Some UserWon, s1)
      else if check_for_draw b1 then Ok (Some DrawAfterUser, s1)
      else (computer_turn fuel rnd game ;;
            b <- get_board (game_board game) ;
            w <- lift (check_for_win b (comp_piece game)) ;
            if w then ret (Some ComputerWon) else
            if check_for_draw b then ret (Some DrawAfterComputer) else
            ret (Some NextRound)) s1).
    { intros fuel. rewrite game_round_typed. unfold bind at 1.
      rewrite Hlegal. unfold bind at 1.
      rewrite (make_player_move_run game s b user_row user_col Hbs H3)
        by lia.
      change (with_boards _ s) with s1.
      unfold bind at 1, get_board at 1. cbn [boards s1]. rewrite Hh1.
      unfold bind at 1, lift at 1.
      rewrite (check_for_win_has_line b1 (user_num game) H31).
      destruct (has_line b1 (user_num game)); [done|].
      by destruct (check_for_draw b1). }
    destruct (has_line b1 (user_num game)) eqn:Hwin1.
    { by exists 0, (Ok (Some UserWon, s1)). }
    destruct (check_for_draw b1) eqn:Hd1.
    { by exists 0, (Ok (Some DrawAfterUser, s1)). }
    destruct (computer_turn_converges rnd game (<[game_board game := b1]> h)
                c b1 Hh1 H31 Hd1 Hfair) as (f & s2 & Hturn).
    pose proof (computer_turn_outcome rnd game (<[game_board game := b1]> h) c
                  b1 f Hh1 H31 Hd1) as Hout2.
    fold s1 in Hturn, Hout2. rewrite (Hturn f (le_n f)) in Hout2.
    destruct Hout2 as (x & y & Hcell2 & Hb2 & _ & _).
    set (b2 := set_cell b1 x y (Mark (comp_piece game))) in *.
    assert (H32 : is3x3 b2 = true) by (by apply set_cell_3x3).
    exists f, (if has_line b2 (comp_piece game)
               then Ok (Some ComputerWon, s2)
               else if check_for_draw b2 then Ok (Some DrawAfterComputer, s2)
               else Ok (Some NextRound, s2)).
    split.
    { destruct (has_line b2 _); [done|]. by destruct (check_for_draw b2). }
    intros fuel Hfuel. rewrite Hstart. unfold bind at 1.
    rewrite (Hturn fuel Hfuel). unfold bind, get_board, lift.
    rewrite Hb2, (check_for_win_has_line b2 (comp_piece game) H32).
    destruct (has_line b2 _); [done|]. by destruct (check_for_draw b2).
Qed.

(** ** A full board *)

Lemma back_propagate_loop_None fuel r s :
  back_propagate_loop fuel None r s = Ok (tt, s).
Proof. by destruct fuel. Qed.

(** The first pass on a full board: the rollout ends at once and the root
    gets its first visit. *)
Lemma first_pass_full fuel rnd h b c num :
  is3x3 b = true → check_for_draw b = true →
  ∃ r, iteration (S fuel) rnd 0 (started h b c num) =
         Ok (tt, mkStore [credited r (mkNode 0 0 [] None (length h) num false)]
                   ((h ++ [b]) ++ [b]) c []).
Proof.
  intros H3 Hd. destruct (check_for_win_3x3 b num H3) as [w Hw].
  exists (if w then Some num else Some (-20)%Z).
  assert (Hb : (h ++ [b]) !! length h = Some b).
  { by rewrite lookup_app_r, Nat.sub_diag by lia. }
  assert (Hb' : ((h ++ [b]) ++ [b]) !! length (h ++ [b]) = Some b).
  { by rewrite lookup_app_r, Nat.sub_diag by lia. }
  unfold iteration, traverse, back_propagate, bind. cbn [traverse_rec].
  unfold bind, get_node, started. cbn [nodes lookup list_lookup children ret].
  cbn [visits Nat.eqb orb game_state player].
  unfold rollout, bind, deepcopy. cbn [boards]. rewrite Hb.
  unfold with_boards. cbn [nodes boards cursor ucb_log rollout_loop].
  unfold bind, get_board. cbn [boards]. rewrite Hb'.
  rewrite Hw, Hd. unfold lift.
  replace (negb w && negb true) with false by (by destruct w).
  set (root := mkNode 0 0 [] None (length h) num false).
  assert (Hstep : ∀ r,
    back_propagate_loop (S fuel) (Some 0) r
      (mkStore [root] ((h ++ [b]) ++ [b]) c []) =
    Ok (tt, mkStore [credited r root] ((h ++ [b]) ++ [b]) c [])).
  { intros r.
    rewrite (back_propagate_loop_step fuel 0 r
               (mkStore [root] ((h ++ [b]) ++ [b]) c []) root eq_refl).
    by rewrite back_propagate_loop_None. }
  destruct w; unfold ret; apply Hstep.
Qed.

(** A pass from a root without children that has a visit, whose flag is
    [False] and whose board is full: the root is expanded, no child is
    made, and [children[0]] fails. *)
Lemma pass_full_root fuel rnd s n b :
  nodes s !! 0 = Some n → children n = [] → visits n ≠ 0 →
  is_end_state n = false → boards s !! game_state n = Some b →
  is3x3 b = true → check_for_draw b = true →
  iteration (S fuel) rnd 0 s = Raise IndexError.
Proof.
  intros Hn Hch Hv He Hb H3 Hd.
  destruct (wpg_total (expand 0) (λ _ s', s' = expanded s 0 n b) s)
    as ([] & s2 & Hexp & ->).
  { eapply wpg_expand; [done|done|by right|done]. }
  unfold iteration, traverse, bind. cbn [traverse_rec].
  unfold bind, get_node. rewrite Hn, Hch. unfold ret.
  rewrite Hn, He. destruct (visits n) as [|v] eqn:Hvn; [done|].
  cbn [Nat.eqb orb]. rewrite Hexp. unfold child_at, bind, get_node.
  destruct (expanded_children s 0 n b (empties b) Hn)
    as (n' & Hn' & Hch' & _).
  change (nodes (expanded s 0 n b) !! 0) with
    (nodes (expanded_with s 0 n b (empties b)) !! 0).
  rewrite Hn', Hch', Hch. by rewrite (proj2 (empties_nil b) Hd).
Qed.

(** On a board that is 3 by 3 and full, [make_comp_move] does not return a
    move: the root is not marked as an end state, the second pass expands
    it, and [current.children[0]] raises [IndexError], whatever the random
    draws and the player are. *)
Theorem make_comp_move_full_board (fuel : nat) (rnd : nat → nat)
    (h : list board) (b : board) (c : nat) (num : Z) :
  is3x3 b = true → check_for_draw b = true →
  make_comp_move (S fuel) rnd (length h) num (entry h b c) = Raise IndexError.
Proof.
  intros H3 Hd. rewrite make_comp_move_run.
  destruct (first_pass_full fuel rnd h b c num H3 Hd) as [r Hone].
  change (iterations (S fuel) rnd 1000 0 (started h b c num))
    with (bind (iteration (S fuel) rnd 0)
            (λ _, bind (iteration (S fuel) rnd 0)
                    (λ _, iterations (S fuel) rnd 998 0))
            (started h b c num)).
  unfold bind at 1. rewrite Hone.
  unfold bind at 1.
  destruct (credited_fields r (mkNode 0 0 [] None (length h) num false))
    as (Hch & _ & Hg & _ & He & Hv).
  rewrite (pass_full_root fuel rnd
             (mkStore [credited r (mkNode 0 0 [] None (length h) num false)]
                ((h ++ [b]) ++ [b]) c [])
             (credited r (mkNode 0 0 [] None (length h) num false))
             b eq_refl Hch); [done| |done| |done..].
  - rewrite Hv. simpl. lia.
  - rewrite Hg. cbn. rewrite <- app_assoc.
    by rewrite lookup_app_r, Nat.sub_diag by lia.
Qed.


(** ** The move that is returned *)

Lemma final_choice_child s n b :
  Inv no_exn s → nodes s !! 0 = Some n → 2 ≤ visits n →
  boards s !! game_state n = Some b →
  ∃ i ch nc x y,
    most_visited s n i ∧ children n !! i = Some ch ∧
    nodes s !! ch = Some nc ∧ cell_of b (x, y) = Some X ∧
    boards s !! game_state nc = Some (child_board b (player nc) (x, y)) ∧
    (comp_move_state <- calc_highest_visits 0 ;
     r <- get_node 0 ;
     game <- get_board (game_state r) ;
     comp <- get_board comp_move_state ;
     lift (find_comp_move game comp)) s = Ok ((Z.of_nat x, Z.of_nat y), s).
Proof.
  intros (Htree & _ & [[]|[Hbo Hexp]]) Hn Hv Hb.
  destruct (wpg_total
    (comp_move_state <- calc_highest_visits 0 ;
     r <- get_node 0 ;
     game <- get_board (game_state r) ;
     comp <- get_board comp_move_state ;
     lift (find_comp_move game comp))
    (λ xy s', ∃ i ch nc x y,
       most_visited s n i ∧ children n !! i = Some ch ∧
       nodes s !! ch = Some nc ∧ cell_of b (x, y) = Some X ∧
       boards s !! game_state nc = Some (child_board b (player nc) (x, y)) ∧
       xy = (Z.of_nat x, Z.of_nat y) ∧ s' = s) s)
    as (xy & s' & Hrun & i & ch & nc & x & y & ? & ? & ? & ? & ? & -> & ->).
  - apply wpg_bind. eapply wpg_calc_highest_visits; [done|by apply Hexp| |].
    { intros c Hc. destruct (tree_children s Htree 0 n c Hn Hc)
        as (_ & nc & Hnc & _). eauto. }
    intros i c nc Hmost Hi Hnc.
    assert (Hc : c ∈ children n) by (by eapply list_elem_of_lookup_2).
    destruct (bo_shape s Hbo c nc Hnc) as (bc & Hbc & _).
    destruct (bo_child s Hbo 0 n c nc b bc Hn Hc Hnc Hb Hbc)
      as ([x y] & Hcell & ->).
    apply wpg_bind. eapply wpg_get_node; [done|].
    apply wpg_bind. eapply wpg_get_board; [done|].
    apply wpg_bind. eapply wpg_get_board; [done|].
    apply wpg_lift. rewrite find_comp_move_child by done.
    by exists i, c, nc, x, y.
  - by exists i, ch, nc, x, y.
Qed.

(** The move [make_comp_move] returns on a board that is 3 by 3 and has an
    empty cell is the move of the most visited child of the root, the one
    with the lowest index among equals, after the root's thousand visits:
    the cell in which that child's board differs from the board given. *)
Theorem make_comp_move_most_visited (fuel : nat) (rnd : nat → nat)
    (h : list board) (b : board) (c : nat) (num : Z) (comp : Z * Z)
    (s' : Store) :
  is3x3 b = true → check_for_draw b = false →
  make_comp_move fuel rnd (length h) num (entry h b c) = Ok (comp, s') →
  ∃ root i ch nc x y,
    nodes s' !! 0 = Some root ∧ visits root = 1000 ∧
    children root !! i = Some ch ∧ nodes s' !! ch = Some nc ∧
    (∀ j w, visits_of s' root j = Some w → w ≤ visits nc) ∧
    (∀ j w, j < i → visits_of s' root j = Some w → w < visits nc) ∧
    comp = (Z.of_nat x, Z.of_nat y) ∧ cell_of b (x, y) = Some X ∧
    boards s' !! game_state nc = Some (child_board b (player nc) (x, y)).
Proof.
  intros H3 Hd. rewrite make_comp_move_run.
  pose proof (wpg_iterations rnd no_exn fuel 1000 (started h b c num)) as Hw.
  unfold wpg in Hw.
  destruct (iterations fuel rnd 1000 0 (started h b c num))
    as [[[] s1]|e|]; [|done..].
  destruct Hw as (HInv & [Hkb Hkt] & Hroot);
    [apply Inv_started; by right|simpl; eauto|].
  destruct (Hroot _ eq_refl) as (n' & Hn' & Hv).
  destruct (Hkt 0 _ eq_refl) as (n'' & Hn'' & _ & Hg & _).
  assert (n'' = n') as -> by congruence. simpl in Hg, Hv.
  destruct (final_choice_child s1 n' b HInv Hn')
    as (i & ch & nc & x & y & (v & Hvi & Hmax & Hfirst) & Hi & Hnc & Hcell
        & Hbc & ->); [lia| |].
  { rewrite Hg. apply Hkb. simpl.
    by rewrite lookup_app_r, Nat.sub_diag by lia. }
  intros [= <- <-].
  assert (v = visits nc) as ->.
  { unfold visits_of in Hvi. rewrite Hi in Hvi. simpl in Hvi.
    rewrite Hnc in Hvi. simpl in Hvi. congruence. }
  by exists n', i, ch, nc, x, y.
Qed.


(** ** Counting visits *)

Section Counts.
Implicit Types (s : Store) (n : Node).

Lemma on_chain_trans s a b c :
  on_chain s a b → on_chain s b c → on_chain s a c.
Proof.
  induction 1 as [i|i n p a Hn Hp _ IH]; [done|].
  intros Hc. eapply chain_up; [done..|]. by apply IH.
Qed.

Lemma on_chain_dec s : tree_ok s → ∀ c i, on_chain s c i ∨ ¬ on_chain s c i.
Proof.
  intros Hok c. induction (lt_wf c) as [c _ IH]. intros i.
  destruct (decide (c = i)) as [->|Hne]; [left; constructor|].
  destruct (nodes s !! c) as [n|] eqn:Hn.
  2:{ right. intros Hch. inversion Hch; congruence. }
  destruct (parent n) as [p|] eqn:Hp.
  2:{ right. intros Hch. inversion Hch; congruence. }
  destruct (IH p (tree_parent s Hok c n p Hn Hp) i) as [Hyes|Hno].
  - left. by eapply chain_up.
  - right. intros Hch. inversion Hch as [|? n' p' ? Hn' Hp' Hrest]; subst;
      [done|]. assert (n' = n) as -> by congruence.
    assert (p' = p) as -> by congruence. done.
Qed.

(** The node of the chain just below a proper ancestor. *)
Lemma on_chain_below s c i :
  on_chain s c i → i ≠ c →
  ∃ d nd, on_chain s c d ∧ nodes s !! d = Some nd ∧ parent nd = Some i.
Proof.
  induction 1 as [i|c n p i Hn Hp Hrest IH]; [done|]. intros Hne.
  destruct (decide (i = p)) as [->|Hip].
  - exists c, n. split_and!; [constructor|done|done].
  - destruct (IH Hip) as (d & nd & Hd & Hnd & Hpd).
    exists d, nd. split_and!; [by eapply chain_up|done|done].
Qed.

(** Two nodes of a chain: one is above the other. *)
Lemma on_chain_linear s c x y :
  on_chain s c x → on_chain s c y → on_chain s x y ∨ on_chain s y x.
Proof.
  induction 1 as [i|c n p x Hn Hp Hrest IH]; intros Hy; [by left|].
  inversion Hy as [|? n' p' ? Hn' Hp' Hrest']; subst.
  - right. by eapply chain_up.
  - assert (n' = n) as -> by congruence.
    assert (p' = p) as -> by congruence. by apply IH.
Qed.

(** A chain has at most one child of a node. *)
Lemma on_chain_one_child s c i n d e :
  tree_ok s → nodes s !! i = Some n →
  d ∈ children n → e ∈ children n →
  on_chain s c d → on_chain s c e → d = e.
Proof.
  intros Hok Hn Hd He Hcd Hce.
  destruct (tree_children s Hok i n d Hn Hd) as (Hid & nd & Hnd & Hpd).
  destruct (tree_children s Hok i n e Hn He) as (Hie & ne & Hne & Hpe).
  assert (Hup : ∀ x nx y, nodes s !! x = Some nx → parent nx = Some i →
                  i < y → on_chain s x y → x = y).
  { intros x nx y Hx Hpx Hiy Hxy.
    inversion Hxy as [|? n' p' ? Hn' Hp' Hrest]; subst; [done|].
    assert (n' = nx) as -> by congruence.
    assert (p' = i) as -> by congruence.
    pose proof (on_chain_le s i y Hok Hrest). lia. }
  destruct (on_chain_linear s c d e Hcd Hce) as [Hde|Hed].
  - by eapply Hup.
  - symmetry. by eapply Hup.
Qed.

Lemma sum_list_bump (f g : nat → nat) (l : list nat) (d : nat) :
  NoDup l → d ∈ l → g d = f d + 1 →
  (∀ e, e ∈ l → e ≠ d → g e = f e) →
  sum_list (g <$> l) = sum_list (f <$> l) + 1.
Proof.
  induction 1 as [|x l Hx Hnd IH]; intros Hd Hgd Hrest.
  - by apply elem_of_nil in Hd.
  - cbn. apply elem_of_cons in Hd as [->|Hd].
    + rewrite Hgd.
      assert (g <$> l = f <$> l) as ->; [|lia].
      apply list_fmap_ext. intros j e He. apply Hrest.
      * apply elem_of_cons. right. by eapply list_elem_of_lookup_2.
      * intros ->. apply Hx. by eapply list_elem_of_lookup_2.
    + rewrite IH; [|done|done|].
      * rewrite (Hrest x); [lia|apply elem_of_cons; by left|].
        intros ->. by apply Hx.
      * intros e He Hne. apply Hrest; [|done]. apply elem_of_cons. by right.
Qed.

Lemma sum_list_same (f g : nat → nat) (l : list nat) :
  (∀ e, e ∈ l → g e = f e) → sum_list (g <$> l) = sum_list (f <$> l).
Proof.
  intros H. f_equal. apply list_fmap_ext. intros j e He. apply H.
  by eapply list_elem_of_lookup_2.
Qed.

(** Back-propagation from a node without children that has no visit or is
    an end state keeps the counts. *)
Lemma counts_ok_bump s s' c nc :
  tree_ok s → counts_ok s →
  nodes s !! c = Some nc → children nc = [] →
  visits nc = 0 ∨ is_end_state nc = true →
  length (nodes s') = length (nodes s) →
  (∀ i n, nodes s !! i = Some n →
     ∃ n', nodes s' !! i = Some n' ∧ same_shape n n' ∧
       (on_chain s c i → visits n' = visits n + 1) ∧
       (¬ on_chain s c i → visits n' = visits n)) →
  counts_ok s'.
Proof.
  intros Hok [Hsum Hleaf Hchild] Hc Hnil Hfirst Hlen Hrel.
  assert (Hback : ∀ i n', nodes s' !! i = Some n' →
            ∃ n, nodes s !! i = Some n ∧ same_shape n n' ∧
              (on_chain s c i → visits n' = visits n + 1) ∧
              (¬ on_chain s c i → visits n' = visits n)).
  { intros i n' Hi.
    destruct (lookup_lt_is_Some_2 (nodes s) i) as [n Hn].
    { apply lookup_lt_Some in Hi. lia. }
    destruct (Hrel i n Hn) as (n'' & Hn'' & Hrest).
    exists n. split; [done|]. by assert (n' = n'') as -> by congruence. }
  assert (Hat : ∀ e, is_Some (nodes s !! e) →
            (on_chain s c e → visits_at s' e = visits_at s e + 1) ∧
            (¬ on_chain s c e → visits_at s' e = visits_at s e)).
  { intros e [ne Hne]. destruct (Hrel e ne Hne) as (ne' & Hne' & _ & Hon & Hoff).
    unfold visits_at. by rewrite Hne, Hne'. }
  assert (Hproper : ∀ i n, nodes s !! i = Some n → on_chain s c i → i ≠ c →
            ∃ d, d ∈ children n ∧ on_chain s c d).
  { intros i n Hn Hch Hne.
    destruct (on_chain_below s c i Hch Hne) as (d & nd & Hd & Hnd & Hpd).
    destruct (Hchild d nd i Hnd Hpd) as (n2 & Hn2 & Hin).
    assert (n2 = n) as -> by congruence. by exists d. }
  split.
  - intros i n' Hi Hne.
    destruct (Hback i n' Hi) as (n & Hn & (Hcs & _) & Hon & Hoff).
    rewrite Hcs in *.
    assert (Hkids : ∀ e, e ∈ children n → is_Some (nodes s !! e)).
    { intros e He. destruct (tree_children s Hok i n e Hn He)
        as (_ & ne & Hne' & _). eauto. }
    destruct (on_chain_dec s Hok c i) as [Hch|Hch].
    + assert (i ≠ c) as Hic by (intros ->; congruence).
      destruct (Hproper i n Hn Hch Hic) as (d & Hd & Hcd).
      rewrite (Hon Hch), (Hsum i n Hn Hne).
      rewrite (sum_list_bump (visits_at s) (visits_at s') (children n) d);
        [lia|by eapply tree_nodup|done| |].
      * by apply Hat; [apply Hkids|].
      * intros e He Hed. apply Hat; [by apply Hkids|].
        intros Hce. apply Hed.
        by apply (on_chain_one_child s c i n e d Hok Hn).
    + rewrite (Hoff Hch), (Hsum i n Hn Hne).
      rewrite (sum_list_same (visits_at s) (visits_at s') (children n));
        [done|].
      intros e He. apply Hat; [by apply Hkids|]. intros Hce. apply Hch.
      destruct (tree_children s Hok i n e Hn He) as (_ & ne & Hne' & Hpe).
      eapply on_chain_trans; [done|]. eapply chain_up; [done..|constructor].
  - intros i n' Hi Hnil' Hflag.
    destruct (Hback i n' Hi) as (n & Hn & (Hcs & _ & _ & _ & Hes) & Hon & Hoff).
    rewrite Hcs in Hnil'. rewrite Hes in Hflag.
    destruct (on_chain_dec s Hok c i) as [Hch|Hch].
    + destruct (decide (i = c)) as [->|Hic].
      * assert (n = nc) as -> by congruence.
        destruct Hfirst as [Hz|He]; [|congruence].
        rewrite (Hon Hch). lia.
      * destruct (Hproper i n Hn Hch Hic) as (d & Hd & _).
        rewrite Hnil' in Hd. by apply elem_of_nil in Hd.
    + rewrite (Hoff Hch). by eapply Hleaf.
  - intros e ne' p He Hp.
    destruct (Hback e ne' He) as (ne & Hne & (_ & Hpe & _) & _).
    rewrite Hpe in Hp. destruct (Hchild e ne p Hne Hp) as (np & Hnp & Hin).
    destruct (Hrel p np Hnp) as (np' & Hnp' & (Hcs & _) & _).
    exists np'. split; [done|]. by rewrite Hcs.
Qed.

(** A rollout from the node [c] and the back-propagation of its result:
    one more visit on the parent chain of [c], none elsewhere. *)
Lemma wpg_simulate_exact fuel rnd c nc b s (Q : unit → Store → Prop) :
  tree_ok s → nodes s !! c = Some nc →
  boards s !! game_state nc = Some b →
  (∀ s', tree_ok s' → length (nodes s') = length (nodes s) →
     (∀ i n, nodes s !! i = Some n →
        ∃ n', nodes s' !! i = Some n' ∧ same_shape n n' ∧
          (on_chain s c i → visits n' = visits n + 1) ∧
          (¬ on_chain s c i → visits n' = visits n)) →
     Q tt s') →
  wpg True any_exn
    (rollout_result <- rollout fuel rnd (game_state nc) (player nc) ;
     back_propagate fuel c rollout_result) Q s.
Proof.
  intros Hok Hc Hb HQ.
  apply wpg_bind. eapply wpg_rollout; [done|by left|]. intros r b' k _.
  set (s2 := mkStore (nodes s) (boards s ++ [b']) (cursor s + k) (ucb_log s)).
  assert (tree_ok s2) as Hok2.
  { eapply tree_ok_grow; [done|done|]. cbn. rewrite length_app. lia. }
  apply wpg_back_propagate_loop; [done|by eauto|by left|].
  intros s' (_ & _ & _ & Hlen & Hnodes) Hok'. apply HQ; [done|done|].
  intros i n Hi. destruct (Hnodes i n Hi) as (n' & Hn' & Hor & Hon & Hoff).
  exists n'. split; [done|].
  destruct (credited_fields r n) as (?&?&?&?&?&Hv).
  split_and!.
  - destruct Hor as [->| ->]; [done|by apply same_shape_credited].
  - intros Hch. rewrite Hon; [done|].
    apply (on_chain_ext s s2); [by intros j|done].
  - intros Hch. rewrite Hoff; [done|]. intros Hch2. apply Hch.
    apply (on_chain_ext s2 s); [by intros j|done].
Qed.

Lemma visits_at_expanded_old s r nr b cells e :
  nodes s !! r = Some nr → is_Some (nodes s !! e) →
  visits_at (expanded_with s r nr b cells) e = visits_at s e.
Proof.
  intros Hr [ne Hne].
  destruct (keeps_stats_expanded s r nr b cells Hr e ne Hne)
    as (ne' & Hne' & _ & Hv).
  unfold visits_at. by rewrite Hne, Hne'.
Qed.

Lemma visits_at_expanded_new s r nr b cells j :
  nodes s !! r = Some nr → j < length cells →
  visits_at (expanded_with s r nr b cells) (length (nodes s) + j) = 0.
Proof.
  intros Hr Hj. destruct (lookup_lt_is_Some_2 cells j Hj) as [xy Hxy].
  unfold visits_at.
  rewrite (proj2 (expanded_nodes_lookup s r nr b cells (length (nodes s) + j)
                    (new_child r (length (boards s)) b
                       (next_player (player nr)) j xy) Hr)); [done|].
  right; right. by exists j, xy.
Qed.

(** [expand] on a node without children that has been visited once keeps
    the counts: the new children have no visit yet. *)
Lemma counts_ok_expanded s r nr b cells :
  tree_ok s → counts_ok s →
  nodes s !! r = Some nr → children nr = [] → visits nr ≠ 0 →
  is_end_state nr = false →
  counts_ok (expanded_with s r nr b cells).
Proof.
  intros Hok [Hsum Hleaf Hchild] Hr Hnil Hv Hflag.
  pose proof (λ i nd, expanded_nodes_lookup s r nr b cells i nd Hr) as Hlook.
  assert (Hone : visits nr = 1).
  { pose proof (Hleaf r nr Hr Hnil Hflag). lia. }
  split.
  - intros i nd Hi Hne. apply Hlook in Hi as [[-> ->]|[[Hir Hi]|Hnew]].
    + cbn in *. rewrite Hnil in *. cbn in *. rewrite Hone. f_equal.
      symmetry. erewrite (sum_list_same (λ _, 0)).
      * clear. induction (seq _ _); [done|]. cbn. by rewrite IHl.
      * intros e He. apply elem_of_seq in He.
        replace e with (length (nodes s) + (e - length (nodes s))) by lia.
        apply visits_at_expanded_new; [done|lia].
    + rewrite (Hsum i nd Hi Hne). f_equal.
      apply sum_list_same. intros e He. symmetry.
      apply visits_at_expanded_old; [done|].
      destruct (tree_children s Hok i nd e Hi He) as (_ & ne & Hne' & _).
      eauto.
    + destruct Hnew as (j & xy & _ & _ & ->). done.
  - intros i nd Hi Hnil' Hflag'. apply Hlook in Hi as [[-> ->]|[[Hir Hi]|Hnew]].
    + cbn. lia.
    + by eapply Hleaf.
    + destruct Hnew as (j & xy & _ & _ & ->). cbn. lia.
  - intros c nd p Hi Hp. apply Hlook in Hi as [[-> ->]|[[Hir Hi]|Hnew]].
    + cbn in Hp. destruct (Hchild r nr p Hr Hp) as (np & Hnp & Hin).
      exists np. split; [|done]. apply Hlook. right; left. split; [|done].
      pose proof (tree_parent s Hok r nr p Hr Hp). lia.
    + destruct (Hchild c nd p Hi Hp) as (np & Hnp & Hin).
      destruct (decide (p = r)) as [->|Hpr].
      * assert (np = nr) as -> by congruence. rewrite Hnil in Hin.
        by apply elem_of_nil in Hin.
      * exists np. split; [|done]. apply Hlook. right; left. done.
    + destruct Hnew as (j & xy & -> & Hj & ->). cbn in Hp.
      injection Hp as <-. eexists. split; [apply Hlook; by left|].
      cbn. apply elem_of_app. right. apply elem_of_seq.
      apply lookup_lt_Some in Hj. lia.
Qed.

(** One pass of the loop keeps the shape of the tree and the counts. *)
Lemma wpg_iteration_counts fuel rnd s :
  tree_ok s → counts_ok s → is_Some (nodes s !! 0) →
  wpg True any_exn (iteration fuel rnd 0)
    (λ _ s', tree_ok s' ∧ counts_ok s' ∧ is_Some (nodes s' !! 0)) s.
Proof.
  intros Hok Hco [n0 Hn0].
  unfold iteration, traverse. apply wpg_bind.
  apply wpg_traverse_rec; [done|by eauto|by left|].
  intros r nr l Hr Hnr _ _.
  set (s1 := logged s l).
  assert (tree_ok s1) as Hok1 by (by apply tree_ok_logged).
  assert (counts_ok s1) as Hco1 by (by destruct Hco).
  destruct (lookup_lt_is_Some_2 (boards s) (game_state nr)) as [b Hb].
  { by eapply tree_board. }
  assert (Hroot : ∀ s2 s', nodes s2 !! 0 = Some n0 ∨ is_Some (nodes s2 !! 0) →
            length (nodes s') = length (nodes s2) → is_Some (nodes s' !! 0)).
  { intros s2 s' H2 Hlen. apply lookup_lt_is_Some_2. rewrite Hlen.
    destruct H2 as [H2|[? H2]]; by apply lookup_lt_Some in H2. }
  apply wpg_bind. eapply wpg_get_node; [exact Hr|].
  destruct ((visits nr =? 0) || is_end_state nr) eqn:Hbranch.
  - eapply (wpg_simulate_exact fuel rnd r nr b s1); [done..|].
    intros s' Hok' Hlen Hrel. split_and!; [done| |].
    + eapply (counts_ok_bump s1 s' r nr); try done.
      apply orb_true_iff in Hbranch as [Hz|He]; [left|by right].
      by apply Nat.eqb_eq in Hz.
    + apply (Hroot s1 s'); [by left|done].
  - apply orb_false_elim in Hbranch as [Hv%Nat.eqb_neq Hflag].
    apply wpg_bind. eapply (wpg_expand True any_exn s1 r nr b); [done|done|by left|].
    set (s2 := expanded s1 r nr b).
    assert (tree_ok s2) as Hok2 by (by apply tree_ok_expanded).
    assert (counts_ok s2) as Hco2 by (by apply counts_ok_expanded).
    destruct (expanded_children s1 r nr b (empties b) Hr)
      as (nr2 & Hnr2 & Hcs2 & _).
    rewrite Hnr in Hcs2. simpl in Hcs2.
    change (nodes s2 !! r = Some nr2) in Hnr2.
    assert (empties b = [] ∨ ∃ xy0 rest, empties b = xy0 :: rest)
      as [Hemp|(xy0 & rest & Hemp)] by (destruct (empties b); eauto).
    { rewrite Hemp in Hcs2. apply wpg_bind. unfold child_at. apply wpg_bind.
      eapply wpg_get_node; [exact Hnr2|].
      rewrite Hcs2. simpl. by apply wpg_raise. }
    set (p := next_player (player nr)).
    set (child := length (nodes s1)).
    set (nc := new_child r (length (boards s1)) b p 0 xy0).
    rewrite Hemp in Hcs2.
    assert (nodes s2 !! child = Some nc) as Hchild.
    { apply expanded_nodes_lookup; [done|]. right; right.
      exists 0, xy0. rewrite Hemp. split_and!; [unfold child; lia|done|done]. }
    assert (boards s2 !! game_state nc = Some (child_board b p xy0)) as Hbc.
    { apply (expanded_boards_new s1 r nr b (empties b) 0 xy0).
      by rewrite Hemp. }
    apply wpg_bind. eapply wpg_child_at; [exact Hnr2|by rewrite Hcs2|].
    apply wpg_bind. eapply wpg_get_node; [exact Hchild|].
    eapply (wpg_simulate_exact fuel rnd child nc _ s2); [done|done|exact Hbc|].
    intros s' Hok' Hlen Hrel. split_and!; [done| |].
    + eapply (counts_ok_bump s2 s' child nc); try done. by left.
    + apply (Hroot s2 s'); [right|done].
      apply lookup_lt_is_Some_2. apply lookup_lt_Some in Hchild. lia.
Qed.

Lemma wpg_iterations_counts fuel rnd k :
  ∀ s, tree_ok s → counts_ok s → is_Some (nodes s !! 0) →
       wpg True any_exn (iterations fuel rnd k 0)
         (λ _ s', tree_ok s' ∧ counts_ok s') s.
Proof.
  induction k as [|k IH]; intros s Hok Hco Hroot; simpl.
  - by apply wpg_ret.
  - apply wpg_bind.
    eapply wpg_mono; [by apply wpg_iteration_counts|].
    intros [] s' (Hok' & Hco' & Hroot'). by apply IH.
Qed.

Lemma counts_ok_started h b c num : counts_ok (started h b c num).
Proof.
  split.
  - intros [|i] n; [|done]. by intros [= <-].
  - intros [|i] n; [|done]. intros [= <-] _ _. cbn. lia.
  - intros [|i] n p; [|done]. by intros [= <-].
Qed.

End Counts.

(** In every state the loop of [make_comp_move] reaches, whatever the
    board is, the visits add up: a node with children has one visit of its
    own and the visits of its children; a node without children that is not
    an end state has at most one visit; and every node is among the
    children of its parent. *)
Theorem visits_add_up (fuel : nat) (rnd : nat → nat) (k : nat)
    (h : list board) (b : board) (c : nat) (num : Z) (root : nat) (s : Store) :
  search fuel rnd k (length h) num (entry h b c) = Ok (root, s) →
  ∀ i n, nodes s !! i = Some n →
    (children n ≠ [] →
     visits n = 1 + sum_list (visits_at s <$> children n)) ∧
    (children n = [] → is_end_state n = false → visits n ≤ 1) ∧
    (∀ p, parent n = Some p →
          ∃ np, nodes s !! p = Some np ∧ i ∈ children np).
Proof.
  rewrite search_run. intros Hrun.
  pose proof (wpg_iterations_counts fuel rnd k (started h b c num)
                (tree_ok_started h b c num) (counts_ok_started h b c num)
                ltac:(simpl; eauto)) as Hw.
  unfold wpg in Hw.
  destruct (iterations fuel rnd k 0 (started h b c num)) as [[[] s']|e|];
    [|done..].
  injection Hrun as <- <-. destruct Hw as [_ [Hsum Hleaf Hchild]].
  intros i n Hn. split_and!.
  - by eapply Hsum.
  - by eapply Hleaf.
  - intros p Hp. by eapply Hchild.
Qed.


(** ** A new game *)

(** [TicTacToe(user_piece, comp_piece)] makes a board of its own on which
    every row and column in 1..3 is a legal move, and touches no other
    board. *)
Theorem new_game_all_legal (user comp : Z) (s : Store) :
  ∃ game s',
    TicTacToe_init user comp s = Ok (game, s') ∧
    user_num game = user ∧ comp_piece game = comp ∧
    boards s' !! game_board game = Some empty_board ∧
    (∀ r b, boards s !! r = Some b →
            r ≠ game_board game ∧ boards s' !! r = Some b) ∧
    ∀ row col, (1 ≤ row ≤ 3)%Z → (1 ≤ col ≤ 3)%Z →
      check_for_legality game row col s' = Ok (true, s').
Proof.
  eexists _, _. split; [reflexivity|].
  assert (Hb : (boards s ++ [empty_board]) !! length (boards s)
               = Some empty_board).
  { by rewrite lookup_app_r, Nat.sub_diag by lia. }
  split_and!; [done|done|exact Hb| |].
  - intros r b Hr. split.
    + apply lookup_lt_Some in Hr. cbn. lia.
    + cbn. by apply lookup_app_l_Some.
  - intros row col Hrow Hcol.
    destruct (check_for_legality_cases
                (mkTicTacToe (length (boards s)) user comp)
                (with_boards (λ h, h ++ [empty_board]) s) empty_board
                row col Hb eq_refl) as [Hin _].
    destruct (Hin Hrow Hcol) as (c & Hc & Hrun).
    assert (c = X) as ->; [|exact Hrun].
    assert (row = 1 ∨ row = 2 ∨ row = 3)%Z as [->|[->| ->]] by lia;
      assert (col = 1 ∨ col = 2 ∨ col = 3)%Z as [->|[->| ->]] by lia;
      vm_compute in Hc; congruence.
Qed.
End Platform.

(** * Instances *)

(** The theorems above at concrete boards and trees, with [floor_log2] for
    the logarithm of the platform and [round_robin] for the random
    source. *)

Lemma tree_ok_close_scores : tree_ok close_scores.
Proof.
  split.
  - intros i n c Hn Hc.
    destruct i as [|[|[|[|i]]]]; simplify_eq/=;
      try (by apply elem_of_nil in Hc).
    repeat (apply elem_of_cons in Hc as [->|Hc]; [split; [lia|by eexists]|]).
    by apply elem_of_nil in Hc.
  - intros i n p Hn Hp.
    destruct i as [|[|[|[|i]]]]; simplify_eq/=; lia.
  - intros i n Hn Hp. by destruct i as [|[|[|[|i]]]]; simplify_eq/=.
  - intros i n Hn Hv. by destruct i as [|[|[|[|i]]]]; simplify_eq/=.
  - intros i n Hn. destruct i as [|[|[|[|i]]]]; simplify_eq/=; lia.
  - intros i j ni nj Hi Hj Hg.
    destruct i as [|[|[|[|i]]]], j as [|[|[|[|j]]]]; by simplify_eq/=.
  - intros i n Hn.
    destruct i as [|[|[|[|i]]]]; simplify_eq/=; try apply NoDup_nil_2.
    apply (NoDup_seq 1 3).
Qed.

Lemma scorable_close_scores :
  scorable close_scores 0 (mkNode 19 32 [1; 2; 3] None 0 1 false).
Proof.
  split_and!; [done|simpl; lia|]. intros c Hc. simpl in Hc.
  repeat (apply elem_of_cons in Hc as [->|Hc];
          [eexists; split_and!; [reflexivity|reflexivity|simpl; lia]|]).
  by apply elem_of_nil in Hc.
Qed.

Lemma find_comp_move_no_difference_witness :
  find_comp_move empty_board empty_board = Ok (-1, -1)%Z ∧
  ∃ fuel xy s' g comp_move_state,
    make_comp_move floor_log2 fuel round_robin 0 1 (entry [] empty_board 0)
      = Ok (xy, s') ∧
    calc_highest_visits 0 s' = Ok (g, s') ∧
    boards s' !! g = Some comp_move_state ∧
    find_comp_move empty_board comp_move_state = Ok xy.
Proof.
  split.
  - apply (proj1 (find_comp_move_no_difference floor_log2)).
    intros xy v H. exact H.
  - destruct (iterations_terminates floor_log2 round_robin 1000
                round_robin_fair (started [] empty_board 0 1))
      as (f & s1 & Hrun); [apply Inv_started; by right|simpl; eauto|].
    destruct (make_comp_move_tail floor_log2 f round_robin [] empty_board 0 1
                s1 eq_refl eq_refl (Hrun f (le_n f)))
      as (x & y & _ & _ & _ & Hmove).
    destruct (proj2 (find_comp_move_no_difference floor_log2) f round_robin
                [] empty_board 0 1%Z _ _ Hmove)
      as (root & g & cb & _ & _ & Hg & Hcb & Hf & _).
    by exists f, (Z.of_nat x, Z.of_nat y), s1, g, cb.
Defined.

Lemma end_state_flags_witness :
  ∃ s, search floor_log2 20 round_robin 2 0 2 (entry [] one_left 0)
         = Ok (0, s) ∧
       (is_end_state <$> nodes s !! 1) = Some true ∧
       ∀ i n, nodes s !! i = Some n →
         ∃ bd, boards s !! game_state n = Some bd ∧
           (is_end_state n = true ↔
              check_for_win bd (player n) = Ok true ∨
              check_for_draw bd = true).
Proof.
  eexists. split; [vm_compute; reflexivity|]. split; [reflexivity|].
  apply (end_state_flags floor_log2 20 round_robin 2 [] one_left 0 2 0);
    [reflexivity|reflexivity|reflexivity|].
  vm_compute. reflexivity.
Defined.

Lemma expand_spec_witness :
  ∃ s', expand 0 (started [] empty_board 0 1) = Ok (tt, s') ∧
        (children <$> nodes s' !! 0) = Some (seq 1 9).
Proof.
  destruct (expand_spec (started [] empty_board 0 1) 0
              (mkNode 0 0 [] None 0 1 false) empty_board)
    as (_ & _ & _ & _ & s' & n' & Hrun & _); [reflexivity..|].
  exists s'. split; [exact Hrun|].
  vm_compute in Hrun. injection Hrun as <-. reflexivity.
Defined.

Lemma traverse_spec_witness :
  ∃ l, first_best floor_log2 close_scores
         (mkNode 19 32 [1; 2; 3] None 0 1 false) 1 ∧
       max_UCB1_index floor_log2 0 close_scores
         = Ok (1, logged close_scores l) ∧
       traverse floor_log2 2 0 close_scores = Ok (2, logged close_scores l).
Proof.
  destruct (traverse_spec floor_log2 1 close_scores 0
              (mkNode 19 32 [1; 2; 3] None 0 1 false)
              tree_ok_close_scores eq_refl) as (_ & _ & Hdescend & _).
  destruct Hdescend as (i & c & l & Hbest & Hc & Hmax & Hgo); [done| |].
  { intros c Hc Hun. simpl in Hc.
    repeat (apply elem_of_cons in Hc as [->|Hc]; [by vm_compute in Hun|]).
    by apply elem_of_nil in Hc. }
  pose proof Hmax as Hrun. vm_compute in Hrun.
  injection Hrun as <- <-. injection Hc as <-.
  exists [(5, 32); (5, 32); (20, 32); (6, 32)].
  split_and!; [exact Hbest|exact Hmax|].
  rewrite Hgo. vm_compute. reflexivity.
Defined.

Lemma UCB1_spec_witness :
  calculate_UCB1 floor_log2 2 close_scores =
    Ok ((float_of_wins 18 / float_of_count 20
         + 0x1.6666666666666p+0
           * sqrt (floor_log2 (float_of_count 32) / float_of_count 20))%float,
        logged close_scores [(20, 32)]) ∧
  (UCB1_score floor_log2 1 5 32 <? UCB1_score floor_log2 18 20 32)%float
    = true ∧
  ∃ l, max_UCB1_index floor_log2 0 close_scores
         = Ok (1, logged close_scores l).
Proof.
  split_and!.
  - apply (proj1 (UCB1_spec floor_log2 close_scores) 2
             (mkNode 18 20 [] (Some 0) 2 2 false) 0
             (mkNode 19 32 [1; 2; 3] None 0 1 false));
      [reflexivity|reflexivity|reflexivity|simpl; lia|simpl; lia].
  - vm_compute. reflexivity.
  - destruct (proj2 (UCB1_spec floor_log2 close_scores) 0
                (mkNode 19 32 [1; 2; 3] None 0 1 false)
                scorable_close_scores) as (i & l & u & Hmax & _); [done|].
    pose proof Hmax as Hrun. vm_compute in Hrun. injection Hrun as <- <-.
    eexists. exact Hmax.
Defined.

Lemma back_propagate_spec_witness :
  ∃ s',
    back_propagate 1 0 (Some 1%Z) (started [] empty_board 0 1) = Ok (tt, s') ∧
    nodes s' !! 0 = Some (mkNode (0 + 1)%Q (0 + 1) [] None 0 1 false).
Proof.
  destruct (back_propagate_spec floor_log2 (started [] empty_board 0 1) 0 (Some 1%Z))
    as [(s' & Hrun & Hchain & _ & _ & _ & _ & Hnodes) _].
  - apply tree_ok_started.
  - simpl. eauto.
  - exists s'. split; [apply Hrun; lia|].
    destruct (Hnodes 0 (mkNode 0 0 [] None 0 1 false) eq_refl)
      as (n' & Hn' & Hshape & Hon & _).
    destruct (Hon Hchain) as [Hv Hw].
    destruct Hshape as (Hc & Hp & Hg & Hpl & He).
    rewrite Hn'. f_equal.
    destruct n'; simpl in *. by subst.
Defined.

Lemma never_reexpanded_witness :
  ∃ s, search floor_log2 20 round_robin 3 0 1 (entry [] empty_board 0) = Ok (0, s) ∧
       ∀ i n, nodes s !! i = Some n → NoDup (children n).
Proof.
  eexists. split; [vm_compute; reflexivity|].
  apply (never_reexpanded floor_log2 20 round_robin 3 [] empty_board 0 1 0).
  vm_compute. reflexivity.
Defined.

Lemma boards_never_mutated_witness :
  ∃ s, search floor_log2 20 round_robin 3 0 1 (entry [] empty_board 0) = Ok (0, s) ∧
       ∃ nr, nodes s !! 0 = Some nr ∧ game_state nr = 0 ∧
             boards s !! 0 = Some empty_board.
Proof.
  eexists. split; [vm_compute; reflexivity|].
  apply (proj2 (boards_never_mutated floor_log2 20 round_robin [] empty_board 0 1) 3 0).
  vm_compute. reflexivity.
Defined.

Lemma make_comp_move_spec_witness :
  ∃ f s', ∀ fuel, f ≤ fuel →
    make_comp_move floor_log2 fuel round_robin 0 2
      (entry [] [[Mark 1; Mark 2; Mark 1]; [Mark 1; Mark 2; Mark 2];
                 [Mark 2; Mark 1; X]] 0) =
      Ok ((Z.of_nat 2, Z.of_nat 2), s').
Proof.
  apply (proj2 (proj2 (make_comp_move_spec floor_log2 round_robin []
           [[Mark 1; Mark 2; Mark 1]; [Mark 1; Mark 2; Mark 2];
            [Mark 2; Mark 1; X]] 0 2 eq_refl eq_refl)) 2 2 eq_refl).
  apply round_robin_fair.
Defined.

Lemma check_for_win_lines_witness :
  check_for_win [[Mark 1; X; Mark 2]; [X; Mark 1; Mark 2]; [X; X; Mark 1]] 1
  = Ok true.
Proof.
  exact (check_for_win_lines
           [[Mark 1; X; Mark 2]; [X; Mark 1; Mark 2]; [X; X; Mark 1]] 1
           eq_refl).
Defined.

Lemma check_for_win_errors_witness :
  check_for_win [[Mark 1; Mark 1]] 1 = Raise IndexError ∧
  is3x3 [[Mark 1; Mark 1]] = false.
Proof.
  split; [reflexivity|].
  exact (proj2 (proj2 (check_for_win_errors [[Mark 1; Mark 1]] 1)
                  IndexError eq_refl)).
Defined.

Lemma rollout_spec_witness :
  ∃ f r s', ∀ fuel, f ≤ fuel →
    rollout fuel round_robin 0 1 (entry [] empty_board 0) = Ok (r, s').
Proof.
  apply (proj2 (rollout_spec round_robin 0 1 (entry [] empty_board 0)
                  empty_board eq_refl eq_refl)).
  apply round_robin_fair.
Defined.

Lemma calc_highest_visits_spec_witness :
  calc_highest_visits 0 (started [] empty_board 0 1) = Raise IndexError.
Proof.
  apply (calc_highest_visits_spec (started [] empty_board 0 1) 0
           (mkNode 0 0 [] None 0 1 false) eq_refl); [|reflexivity].
  intros c Hc. by apply elem_of_nil in Hc.
Defined.

Lemma find_comp_move_first_difference_witness :
  find_comp_move [[Mark 1; X; X]; [X; X; X]; [X; X; X]]
                 [[Mark 1; X; X]; [X; Mark 2; X]; [X; X; Mark 1]]
  = Ok (1, 1)%Z.
Proof.
  apply (find_comp_move_first_difference
           [[Mark 1; X; X]; [X; X; X]; [X; X; X]]
           [[Mark 1; X; X]; [X; Mark 2; X]; [X; X; Mark 1]]
           1 1 X (Mark 2) eq_refl eq_refl); [done|].
  intros [x y] v [Hlt|[Heq Hlt]]; simpl in *.
  - assert (x = 0) as -> by lia.
    destruct y as [|[|[|y]]]; cbn; congruence.
  - subst x. assert (y = 0) as -> by lia. cbn. congruence.
Defined.

Lemma calculate_UCB1_errors_witness :
  calculate_UCB1 floor_log2 0 (started [] empty_board 0 1) = Raise AttributeError.
Proof.
  by apply (calculate_UCB1_errors floor_log2 (started [] empty_board 0 1) 0
              (mkNode 0 0 [] None 0 1 false) eq_refl).
Defined.

Lemma sqrt_argument_not_negative_witness :
  (floor_log2 (float_of_count 32) / float_of_count 5 <? 0)%float = false.
Proof.
  apply (sqrt_argument_not_negative floor_log2 5 32). vm_compute. reflexivity.
Defined.

Lemma root_visits_count_witness :
  ∃ s n, search floor_log2 20 round_robin 3 0 1 (entry [] empty_board 0) = Ok (0, s) ∧
         nodes s !! 0 = Some n ∧ visits n = 3.
Proof.
  eexists.
  destruct (root_visits_count floor_log2 20 round_robin 3 [] empty_board 0 1 0 _
              ltac:(vm_compute; reflexivity)) as (n & Hn & Hv & _).
  exists n. split_and!; [vm_compute; reflexivity|exact Hn|exact Hv].
Defined.

Lemma wins_at_most_visits_witness :
  ∃ s, search floor_log2 20 round_robin 3 0 1 (entry [] empty_board 0) = Ok (0, s) ∧
       ∀ i n, nodes s !! i = Some n →
         (0 <= wins n)%Q ∧ (wins n <= inject_Z (Z.of_nat (visits n)))%Q.
Proof.
  eexists. split; [vm_compute; reflexivity|].
  apply (wins_at_most_visits floor_log2 20 round_robin 3 0 1 (entry [] empty_board 0) 0).
  - intros i n Hi. by destruct i.
  - vm_compute. reflexivity.
Defined.

Lemma make_comp_move_full_board_witness :
  make_comp_move floor_log2 1 round_robin 0 2 (entry [] drawn_board 0) = Raise IndexError.
Proof.
  exact (make_comp_move_full_board floor_log2 0 round_robin [] drawn_board 0 2
           eq_refl eq_refl).
Defined.

Lemma check_for_legality_spec_witness :
  check_for_legality (mkTicTacToe 0 1 2) 4 1 (entry [] empty_board 0)
  = Raise IndexError.
Proof.
  apply (check_for_legality_spec (mkTicTacToe 0 1 2)
           (entry [] empty_board 0) empty_board 4 1 eq_refl eq_refl).
  lia.
Defined.

Lemma make_player_move_spec_witness :
  make_player_move (mkTicTacToe 0 1 2) 2 3 (entry [] empty_board 0) =
  Ok (tt, entry [] [[X; X; X]; [X; X; Mark 1]; [X; X; X]] 0).
Proof.
  apply (make_player_move_spec (mkTicTacToe 0 1 2) (entry [] empty_board 0)
           empty_board 2 3 eq_refl eq_refl); lia.
Defined.

Lemma computer_turn_spec_witness :
  ∃ f s', ∀ fuel, f ≤ fuel →
    computer_turn floor_log2 fuel round_robin (mkTicTacToe 0 2 1)
      (mkStore [] [empty_board] 0 []) = Ok (tt, s').
Proof.
  apply (proj2 (computer_turn_spec floor_log2 round_robin (mkTicTacToe 0 2 1)
                  [empty_board] 0 empty_board eq_refl eq_refl eq_refl)).
  apply round_robin_fair.
Defined.

Lemma make_comp_move_most_visited_witness :
  ∃ fuel comp s' root,
    make_comp_move floor_log2 fuel round_robin 0 1 (entry [] empty_board 0)
      = Ok (comp, s') ∧
    nodes s' !! 0 = Some root ∧ visits root = 1000.
Proof.
  destruct (iterations_terminates floor_log2 round_robin 1000 round_robin_fair
              (started [] empty_board 0 1)) as (f & s1 & Hrun);
    [apply Inv_started; by right|simpl; eauto|].
  destruct (make_comp_move_tail floor_log2 f round_robin [] empty_board 0 1 s1
              eq_refl eq_refl (Hrun f (le_n f)))
    as (x & y & _ & _ & _ & Hmove).
  destruct (make_comp_move_most_visited floor_log2 f round_robin [] empty_board 0 1
              (Z.of_nat x, Z.of_nat y) s1 eq_refl eq_refl Hmove)
    as (root & i & ch & nc & x' & y' & Hroot & Hv & _).
  by exists f, (Z.of_nat x, Z.of_nat y), s1, root.
Defined.

Lemma visits_add_up_witness :
  ∃ s n, search floor_log2 20 round_robin 3 0 1 (entry [] empty_board 0) = Ok (0, s) ∧
         nodes s !! 0 = Some n ∧
         visits n = 1 + sum_list (visits_at s <$> children n).
Proof.
  eexists. eexists.
  split; [vm_compute; reflexivity|]. split; [reflexivity|].
  refine (proj1 (visits_add_up floor_log2 20 round_robin 3 [] empty_board 0 1 0 _
                   ltac:(vm_compute; reflexivity) 0 _ eq_refl) _).
  vm_compute. discriminate.
Defined.

Lemma game_round_spec_witness :
  game_round floor_log2 0 round_robin (mkTicTacToe 0 1 2)
    (Typed 2) NotAnInteger (mkStore [] [empty_board] 0 [])
    = Raise ValueError ∧
  ∃ f r, r ≠ OutOfFuel ∧ ∀ fuel, f ≤ fuel →
    game_round floor_log2 fuel round_robin (mkTicTacToe 0 1 2)
      (Typed 2) (Typed 2) (mkStore [] [empty_board] 0 []) = r.
Proof.
  split.
  - exact (proj1 (game_round_spec floor_log2 round_robin (mkTicTacToe 0 1 2)
                    [empty_board] 0 empty_board (Typed 2) NotAnInteger
                    eq_refl eq_refl) 0).
  - apply (proj2 (game_round_spec floor_log2 round_robin (mkTicTacToe 0 1 2)
                    [empty_board] 0 empty_board (Typed 2) (Typed 2)
                    eq_refl eq_refl)).
    apply round_robin_fair.
Defined.

